(** * Portfolio effects: cursor tracker and particle systems

    A shallow embedding of the JavaScript classes [CursorTracker]
    (cursor-system.js), [EffectManager] and [MagicalEffectsSystem]
    (magical-effects.js), [ParticleSystem] (particle-system.js) and
    [ScreenSparklesSystem] (screen-sparkles.js).

    JavaScript numbers are IEEE-754 binary64 values and are modelled by
    Rocq's primitive floats, so [NaN], the infinities, rounding and the
    comparison operators behave as they do in the source.  Integer
    counters that are only ever incremented by one ([stateVersion],
    [effectIdCounter], list lengths, loop bounds) are modelled by [Z] or
    [nat]; a double represents them exactly below 2^53.

    Methods that mutate [this] are functions from the object before the
    call to the returned value and the object after it.  [Math.random()]
    is the sequence of numbers it will return, threaded through the
    callers; [Math.sin], [Math.cos] and [Math.pow] are parameters; the
    readings of [performance.now()] and [Date.now()] are arguments.
    Particles are JavaScript object literals: their numeric properties
    are kept by name, so that a property an object lacks reads as
    [undefined], as in the source.

    Where a property depends on rounding (the decay of a particle's
    [life], the range of its [maxLife]), doubles are related to the real
    numbers they stand for through the specification of binary64
    arithmetic. *)

From Stdlib Require Import ZArith List String Bool Lia.
From Stdlib Require Import Floats.
From Stdlib Require Import Reals Lra.
Import ListNotations.

Set Warnings "-inexact-float".
Local Open Scope string_scope.
Local Open Scope list_scope.

(** ** JavaScript values and numbers *)

Module Js.

(** The values a caller can pass where the source expects a coordinate. *)
Inductive Value : Type :=
| Number (n : float)
| Undefined
| Null
| Boolean (b : bool)
| Str (s : string).

(** [typeof v === 'number'] *)
Definition typeof_number (v : Value) : bool :=
  match v with
  | Number _ => true
  | _ => false
  end.

(** The global [isFinite] on an argument that already is a number. *)
Definition isFinite (n : float) : bool := PrimFloat.is_finite n.

(** [a > b], [a >= b], [a < b], [a <= b] on numbers. *)
Definition gt (a b : float) : bool := PrimFloat.ltb b a.
Definition ge (a b : float) : bool := PrimFloat.leb b a.
Definition lt (a b : float) : bool := PrimFloat.ltb a b.
Definition le (a b : float) : bool := PrimFloat.leb a b.

(** [ToBoolean] of a number: [0], [-0] and [NaN] are falsy. *)
Definition truthy (n : float) : bool :=
  negb (PrimFloat.is_zero n || PrimFloat.is_nan n).

(** [o.field || d] where the field, when present, holds a number. *)
Definition or_default (o : option float) (d : float) : float :=
  match o with
  | Some n => if truthy n then n else d
  | None => d
  end.

(** [ToNumber] of a possibly missing numeric property: [undefined]
    becomes [NaN]. *)
Definition num (o : option float) : float :=
  match o with
  | Some n => n
  | None => PrimFloat.nan
  end.

(** The browser's [window], as far as the source reads it. *)
Record Window : Type := mkWindow {
  innerWidth : float;
  innerHeight : float;
  scrollY : float
}.

End Js.

(** ** Doubles as real numbers *)

Module Doubles.

(** The real number a finite double stands for; 0 for the others. *)
Definition value (f : spec_float) : R :=
  match f with
  | S754_finite s m e =>
      (IZR (if s then Z.neg m else Z.pos m) * powerRZ 2 e)%R
  | _ => 0%R
  end.

(** [2^e] as a real number. *)
Definition bpow (e : Z) : R := powerRZ 2 e.

End Doubles.

(** ** CursorTracker (cursor-system.js) *)

Module CursorTracker.

Record Velocity : Type := mkVelocity {
  vel_x : float;
  vel_y : float
}.

(** The object stored in [lastValidState]. *)
Record ValidState : Type := mkValidState {
  vs_x : float;
  vs_y : float;
  vs_previousX : float;
  vs_previousY : float;
  vs_velocity : Velocity;
  vs_timestamp : float;
  vs_version : Z
}.

Record t : Type := mkTracker {
  mouseX : float;
  mouseY : float;
  previousX : float;
  previousY : float;
  isTracking : bool;
  isInitialized : bool;
  velocity : Velocity;
  lastUpdateTime : float;
  stateVersion : Z;
  lastValidState : option ValidState
}.

(** [constructor()] *)
Definition new : t :=
  {| mouseX := 0; mouseY := 0; previousX := 0; previousY := 0;
     isTracking := true; isInitialized := false;
     velocity := mkVelocity 0 0; lastUpdateTime := 0;
     stateVersion := 0%Z; lastValidState := None |}.

(** The bounds of [isValidPosition]; [None] is the Node.js environment in
    which [window] is undefined. *)
Definition maxWidth (w : option Js.Window) : float :=
  match w with
  | Some win => (Js.innerWidth win * 2)%float
  | None => 10000%float
  end.

Definition maxHeight (w : option Js.Window) : float :=
  match w with
  | Some win => (Js.innerHeight win * 2)%float
  | None => 10000%float
  end.

(** [isValidPosition(x, y)] on numbers, after the two [typeof] tests. *)
Definition isValidNumbers (w : option Js.Window) (x y : float) : bool :=
  Js.isFinite x && Js.isFinite y &&
  Js.ge x 0 && Js.ge y 0 &&
  Js.le x (maxWidth w) && Js.le y (maxHeight w).

(** [isValidPosition(x, y)] *)
Definition isValidPosition (w : option Js.Window) (x y : Js.Value) : bool :=
  match x, y with
  | Js.Number xn, Js.Number yn => isValidNumbers w xn yn
  | _, _ => false
  end.

(** The velocity assignment inside [updatePosition]. *)
Definition nextVelocity (s : t) (currentTime x y : float) : Velocity :=
  if Js.gt (lastUpdateTime s) 0 then
    let deltaTime := (currentTime - lastUpdateTime s)%float in
    if Js.gt deltaTime 0 then
      mkVelocity ((x - mouseX s) / deltaTime)%float
                 ((y - mouseY s) / deltaTime)%float
    else velocity s
  else velocity s.

(** [updatePosition(x, y)]; [currentTime] is what [performance.now()]
    returns during the call.  The result is the returned boolean and the
    tracker after the call. *)
Definition updatePosition (w : option Js.Window) (currentTime : float)
    (x y : Js.Value) (s : t) : bool * t :=
  if negb (isTracking s) then (false, s)
  else if negb (isValidPosition w x y) then (false, s)
  else
    match x, y with
    | Js.Number xn, Js.Number yn =>
        let v := nextVelocity s currentTime xn yn in
        let version := (stateVersion s + 1)%Z in
        (true,
         {| mouseX := xn; mouseY := yn;
            previousX := mouseX s; previousY := mouseY s;
            isTracking := isTracking s; isInitialized := true;
            velocity := v; lastUpdateTime := currentTime;
            stateVersion := version;
            lastValidState :=
              Some {| vs_x := xn; vs_y := yn;
                      vs_previousX := mouseX s; vs_previousY := mouseY s;
                      vs_velocity := v; vs_timestamp := currentTime;
                      vs_version := version |} |})
    | _, _ => (false, s)
    end.

(** The object returned by [getCurrentPosition]. *)
Record Position : Type := mkPosition {
  pos_x : float;
  pos_y : float;
  pos_isValid : bool
}.

(** [getCurrentPosition()]: the returned object and the tracker after
    the call. *)
Definition getCurrentPosition (w : option Js.Window) (s : t) : Position * t :=
  ({| pos_x := mouseX s; pos_y := mouseY s;
      pos_isValid := isInitialized s &&
                     isValidPosition w (Js.Number (mouseX s)) (Js.Number (mouseY s)) |},
   s).

(** The frozen object returned by [createStateSnapshot]. *)
Record Snapshot : Type := mkSnapshot {
  snap_position : float * float;
  snap_previous : float * float;
  snap_velocity : Velocity;
  snap_isTracking : bool;
  snap_isInitialized : bool;
  snap_stateVersion : Z;
  snap_timestamp : float
}.

(** [createStateSnapshot()] *)
Definition createStateSnapshot (s : t) : Snapshot * t :=
  ({| snap_position := (mouseX s, mouseY s);
      snap_previous := (previousX s, previousY s);
      snap_velocity := mkVelocity (vel_x (velocity s)) (vel_y (velocity s));
      snap_isTracking := isTracking s;
      snap_isInitialized := isInitialized s;
      snap_stateVersion := stateVersion s;
      snap_timestamp := lastUpdateTime s |},
   s).

(** [resetToOrigin()] *)
Definition resetToOrigin (s : t) : t :=
  {| mouseX := 0; mouseY := 0; previousX := 0; previousY := 0;
     isTracking := isTracking s; isInitialized := false;
     velocity := mkVelocity 0 0; lastUpdateTime := 0;
     stateVersion := 0%Z; lastValidState := None |}.

(** [recoverState()]; [now] is what [performance.now()] returns. *)
Definition recoverState (now : float) (s : t) : bool * t :=
  match lastValidState s with
  | None => (false, resetToOrigin s)
  | Some lv =>
      (true,
       {| mouseX := vs_x lv; mouseY := vs_y lv;
          previousX := vs_previousX lv; previousY := vs_previousY lv;
          isTracking := isTracking s; isInitialized := isInitialized s;
          velocity := mkVelocity (vel_x (vs_velocity lv)) (vel_y (vs_velocity lv));
          lastUpdateTime := now;
          stateVersion := (vs_version lv + 1)%Z;
          lastValidState := lastValidState s |})
  end.

(** [setTracking(enabled)] with [Boolean(enabled)] already taken. *)
Definition setTracking (enabled : bool) (s : t) : bool * t :=
  (enabled,
   {| mouseX := mouseX s; mouseY := mouseY s;
      previousX := previousX s; previousY := previousY s;
      isTracking := enabled; isInitialized := isInitialized s;
      velocity := velocity s; lastUpdateTime := lastUpdateTime s;
      stateVersion := stateVersion s; lastValidState := lastValidState s |}).

(** [getMovementDistance()] *)
Definition getMovementDistance (s : t) : float :=
  if negb (isInitialized s) then 0%float
  else
    let dx := (mouseX s - previousX s)%float in
    let dy := (mouseY s - previousY s)%float in
    PrimFloat.sqrt (dx * dx + dy * dy).

(** The state-changing operations a client can invoke, and their
    sequential execution. *)
Inductive Op : Type :=
| Update (currentTime : float) (x y : Js.Value)
| Recover (now : float)
| Reset
| SetTracking (enabled : bool).

Definition step (w : option Js.Window) (o : Op) (s : t) : t :=
  match o with
  | Update currentTime x y => snd (updatePosition w currentTime x y s)
  | Recover now => snd (recoverState now s)
  | Reset => resetToOrigin s
  | SetTracking enabled => snd (setTracking enabled s)
  end.

Definition run (w : option Js.Window) (ops : list Op) (s : t) : t :=
  fold_left (fun acc o => step w o acc) ops s.

(** Whether an operation is a position update that the tracker accepts
    in state [s]. *)
Definition accepted (w : option Js.Window) (o : Op) (s : t) : bool :=
  match o with
  | Update currentTime x y => fst (updatePosition w currentTime x y s)
  | _ => false
  end.

(** The [state] object inside the result of [validateState]. *)
Record StateReport : Type := mkStateReport {
  rep_position : float * float;
  rep_previous : float * float;
  rep_velocity : Velocity;
  rep_version : Z;
  rep_tracking : bool;
  rep_initialized : bool
}.

(** The object returned by [validateState]. *)
Record Validation : Type := mkValidation {
  val_isValid : bool;
  val_issues : list string;
  val_state : StateReport
}.

(** [if (c) issues.push(msg)] *)
Definition pushIf (c : bool) (msg : string) (issues : list string) : list string :=
  if c then issues ++ [msg] else issues.

(** [validateState()]: the returned object and the tracker after the
    call. *)
Definition validateState (w : option Js.Window) (s : t) : Validation * t :=
  let issues := [] in
  let issues :=
    pushIf (negb (isValidPosition w (Js.Number (mouseX s)) (Js.Number (mouseY s))))
      "Invalid current position" issues in
  let issues :=
    pushIf (negb (isValidPosition w (Js.Number (previousX s)) (Js.Number (previousY s))))
      "Invalid previous position" issues in
  let maxVelocity := 10%float in
  let issues :=
    pushIf (Js.gt (PrimFloat.abs (vel_x (velocity s))) maxVelocity ||
            Js.gt (PrimFloat.abs (vel_y (velocity s))) maxVelocity)
      "Extreme velocity detected" issues in
  let issues :=
    pushIf (stateVersion s <? 0)%Z "Invalid state version" issues in
  ({| val_isValid := (List.length issues =? 0)%nat;
      val_issues := issues;
      val_state :=
        {| rep_position := (mouseX s, mouseY s);
           rep_previous := (previousX s, previousY s);
           rep_velocity := mkVelocity (vel_x (velocity s)) (vel_y (velocity s));
           rep_version := stateVersion s;
           rep_tracking := isTracking s;
           rep_initialized := isInitialized s |} |},
   s).

(** [hasSignificantMovement(threshold = 1)]; [None] is a call without
    the argument. *)
Definition hasSignificantMovement (threshold : option float) (s : t) : bool :=
  Js.gt (getMovementDistance s)
        (match threshold with Some th => th | None => 1%float end).

(** [getVelocityMagnitude()] *)
Definition getVelocityMagnitude (s : t) : float :=
  PrimFloat.sqrt (vel_x (velocity s) * vel_x (velocity s) +
                  vel_y (velocity s) * vel_y (velocity s)).

End CursorTracker.

(** ** The runtime: [Math], [Math.random] and object properties *)

Module Runtime.

(** The transcendental functions of [Math].  ECMAScript leaves their
    results implementation-approximated, so they are parameters of the
    model. *)
Record Math : Type := mkMath {
  sin : float -> float;
  cos : float -> float;
  pow : float -> float -> float
}.

(** The two clocks the source reads: [performance.now()] and
    [Date.now()], as they read during one call. *)
Record Clock : Type := mkClock {
  performanceNow : float;
  dateNow : float
}.

(** [Math.PI] *)
Definition PI : float := 3.141592653589793%float.

(** [Math.min(a, b)] and [Math.max(a, b)]: [NaN] when either is [NaN]. *)
Definition min (a b : float) : float :=
  if PrimFloat.is_nan a || PrimFloat.is_nan b then PrimFloat.nan
  else if PrimFloat.ltb b a then b else a.

Definition max (a b : float) : float :=
  if PrimFloat.is_nan a || PrimFloat.is_nan b then PrimFloat.nan
  else if PrimFloat.ltb a b then b else a.

(** A count or loop index as a number. *)
Definition of_nat (n : nat) : float :=
  PrimFloat.of_uint63 (Uint63.of_Z (Z.of_nat n)).

(** [Math.floor(f)] as an array index or a loop bound: [None] when the
    result is not a non-negative integer ([NaN], an infinity, a negative
    number). *)
Definition floor_index (f : float) : option nat :=
  match Prim2SF f with
  | S754_zero _ => Some 0
  | S754_finite false m e =>
      Some (Z.to_nat (if (0 <=? e)%Z then Z.shiftl (Zpos m) e
                      else Z.shiftr (Zpos m) (- e)))
  | _ => None
  end.

(** [Math.floor(f)] used as a count: a loop [for (i = 0; i < count; i++)]
    does not run when [count] is [NaN] or negative. *)
Definition floor_count (f : float) : nat :=
  match floor_index f with
  | Some n => n
  | None => 0
  end.

(** [Math.random()]: the sequence of numbers it will return and how many
    have been consumed. *)
Record Rng : Type := mkRng {
  draws : nat -> float;
  cursor : nat
}.

(** Computations that call [Math.random()]. *)
Definition Rand (A : Type) : Type := Rng -> A * Rng.

Definition ret {A : Type} (a : A) : Rand A := fun r => (a, r).

Definition bind {A B : Type} (c : Rand A) (k : A -> Rand B) : Rand B :=
  fun r => let (a, r') := c r in k a r'.

Definition random : Rand float :=
  fun r => (draws r (cursor r), mkRng (draws r) (S (cursor r))).

(** [colors[Math.floor(Math.random() * colors.length)]]; [None] is
    [undefined]. *)
Definition pick (colors : list string) : Rand (option string) :=
  bind random (fun u =>
    ret (match floor_index (u * of_nat (List.length colors))%float with
         | Some i => nth_error colors i
         | None => None
         end)).

(** [n] successive runs of [c], results in order. *)
Fixpoint repeatM {A : Type} (n : nat) (c : nat -> Rand A) (i : nat) : Rand (list A) :=
  match n with
  | O => ret []
  | S n' => bind (c i) (fun a => bind (repeatM n' c (S i)) (fun l => ret (a :: l)))
  end.

(** The numeric properties of a JavaScript object, by name.  A name is
    bound at most once: [set] replaces an existing binding in place and
    appends a new one at the end. *)
Definition Obj : Type := list (string * float).

Fixpoint get (k : string) (o : Obj) : option float :=
  match o with
  | [] => None
  | (k', v) :: rest => if String.eqb k k' then Some v else get k rest
  end.

Fixpoint set (k : string) (v : float) (o : Obj) : Obj :=
  match o with
  | [] => [(k, v)]
  | (k', v') :: rest =>
      if String.eqb k k' then (k, v) :: rest else (k', v') :: set k v rest
  end.

(** [o.k] read as a number: a missing property is [undefined], which
    arithmetic turns into [NaN]. *)
Definition prop (k : string) (o : Obj) : float := Js.num (get k o).

(** [haystack.includes(needle)] *)
Fixpoint includes (needle haystack : string) : bool :=
  String.prefix needle haystack ||
  match haystack with
  | EmptyString => false
  | String _ rest => includes needle rest
  end.

(** Statements on the numeric properties of one object, run in order. *)
Definition assign (k : string) (f : Obj -> float) : Obj -> Obj :=
  fun p => set k (f p) p.

Definition exec (stmts : list (Obj -> Obj)) (p : Obj) : Obj :=
  fold_left (fun acc st => st acc) stmts p.

(** [effect.k += f], [effect.k -= f], [effect.k *= f] *)
Definition addTo (k : string) (f : Obj -> float) : Obj -> Obj :=
  assign k (fun p => prop k p + f p)%float.
Definition subFrom (k : string) (f : Obj -> float) : Obj -> Obj :=
  assign k (fun p => prop k p - f p)%float.
Definition mulBy (k : string) (c : float) : Obj -> Obj :=
  assign k (fun p => prop k p * c)%float.

(** [if (c) effect.k = v] *)
Definition assignIf (c : Obj -> bool) (k : string) (f : Obj -> float) : Obj -> Obj :=
  fun p => if c p then set k (f p) p else p.

(** A statement that leaves property [k] as it found it. *)
Definition preserves (k : string) (st : Obj -> Obj) : Prop :=
  forall p, prop k (st p) = prop k p.

(** [list.forEach(f)] where [f] replaces each element and may call
    [Math.random()]. *)
Fixpoint mapRand {A B : Type} (f : A -> Rand B) (l : list A) : Rand (list B) :=
  match l with
  | [] => ret []
  | a :: rest =>
      bind (f a) (fun b => bind (mapRand f rest) (fun bs => ret (b :: bs)))
  end.

End Runtime.

(** ** EffectManager (magical-effects.js) *)

Module EffectManager.

Import Runtime.

(** The string [`effect_${++this.effectIdCounter}_${Date.now()}`], kept
    as its two numbers. *)
Record Id : Type := mkId {
  id_counter : Z;
  id_stamp : float
}.

(** A ripple or sparkle object: the non-numeric properties as fields,
    the numeric ones ([x], [y], [startTime], [duration], ...) by name. *)
Record Effect : Type := mkEffect {
  id : Id;
  type : string;
  color : option string;
  isActive : bool;
  props : Obj
}.

Record t : Type := mkManager {
  activeEffects : list Effect;
  effectIdCounter : Z;
  maxEffects : nat;
  lastCleanupTime : float;
  cleanupInterval : float;
  isAnimating : bool;
  reducedMotion : bool
}.

(** The fields set by [constructor(cursorTracker)]; [matches] is the
    result of the reduced-motion media query.  [init()] then starts the
    animation loop, whose frames are the [UpdateEffects] operations
    below. *)
Definition new (matches : bool) : t :=
  {| activeEffects := []; effectIdCounter := 0%Z; maxEffects := 50;
     lastCleanupTime := 0; cleanupInterval := 1000;
     isAnimating := true; reducedMotion := matches |}.

Definition with_effects (l : list Effect) (s : t) : t :=
  {| activeEffects := l; effectIdCounter := effectIdCounter s;
     maxEffects := maxEffects s; lastCleanupTime := lastCleanupTime s;
     cleanupInterval := cleanupInterval s; isAnimating := isAnimating s;
     reducedMotion := reducedMotion s |}.

(** [isValidPosition(x, y)] *)
Definition isValidPosition (win : Js.Window) (x y : Js.Value) : bool :=
  match x, y with
  | Js.Number xn, Js.Number yn =>
      Js.isFinite xn && Js.isFinite yn &&
      Js.ge xn 0 && Js.ge yn 0 &&
      Js.le xn (Js.innerWidth win * 2)%float &&
      Js.le yn (Js.innerHeight win * 2)%float
  | _, _ => false
  end.

(** [generateEffectId()] *)
Definition generateEffectId (dateNow : float) (s : t) : Id * t :=
  let c := (effectIdCounter s + 1)%Z in
  (mkId c dateNow,
   {| activeEffects := activeEffects s; effectIdCounter := c;
      maxEffects := maxEffects s; lastCleanupTime := lastCleanupTime s;
      cleanupInterval := cleanupInterval s; isAnimating := isAnimating s;
      reducedMotion := reducedMotion s |}).

(** [addEffect(effect)]: [shift()] when the list is at the limit, then
    [push(effect)]. *)
Definition addEffect (e : Effect) (s : t) : t :=
  let kept :=
    if (maxEffects s <=? List.length (activeEffects s))%nat
    then List.tl (activeEffects s)
    else activeEffects s in
  with_effects (kept ++ [e]) s.

(** The coordinate an emitter uses: the argument unless it is
    [undefined], and then the tracker's (or, without a tracker, the
    argument itself). *)
Definition effectCoordinate (arg : Js.Value) (tracked : option float) : Js.Value :=
  match arg with
  | Js.Undefined =>
      match tracked with
      | Some n => Js.Number n
      | None => arg
      end
  | _ => arg
  end.

(** [this.cursorTracker ? this.cursorTracker.getCurrentPosition() : {x, y}],
    with the tracker after the call. *)
Definition readPosition (win : Js.Window) (tr : option CursorTracker.t) :
    option CursorTracker.Position * option CursorTracker.t :=
  match tr with
  | Some c =>
      let (p, c') := CursorTracker.getCurrentPosition (Some win) c in
      (Some p, Some c')
  | None => (None, None)
  end.

Record RippleOptions : Type := mkRippleOptions {
  ro_duration : option float;
  ro_maxRadius : option float;
  ro_color : option string;
  ro_lineWidth : option float
}.

(** [o || d] on an optional string property: [undefined] and the empty
    string are falsy. *)
Definition str_or (o : option string) (d : string) : string :=
  match o with
  | Some EmptyString | None => d
  | Some s => s
  end.

(** [createRippleEffect(x, y, options)]: the returned id ([None] for
    [null]), the tracker and the manager after the call; [clk] is what
    the clocks read during the call. *)
Definition createRippleEffect (win : Js.Window) (clk : Clock)
    (x y : Js.Value) (options : RippleOptions)
    (tr : option CursorTracker.t) (s : t) :
    option Id * option CursorTracker.t * t :=
  if reducedMotion s then (None, tr, s)
  else
    let (position, tr') := readPosition win tr in
    let effectX := effectCoordinate x (option_map CursorTracker.pos_x position) in
    let effectY := effectCoordinate y (option_map CursorTracker.pos_y position) in
    if negb (isValidPosition win effectX effectY) then (None, tr', s)
    else
      match effectX, effectY with
      | Js.Number ex, Js.Number ey =>
          let (effectId, s1) := generateEffectId (dateNow clk) s in
          let rippleEffect :=
            {| id := effectId; type := "ripple";
               color := Some (str_or (ro_color options) "rgba(139, 92, 246, 0.6)");
               isActive := true;
               props := [("x", ex); ("y", ey); ("startTime", performanceNow clk);
                         ("duration", Js.or_default (ro_duration options) 800);
                         ("maxRadius", Js.or_default (ro_maxRadius options) 150);
                         ("lineWidth", Js.or_default (ro_lineWidth options) 3);
                         ("currentRadius", 0%float); ("opacity", 1%float);
                         ("lastUpdateTime", performanceNow clk)] |} in
          (Some effectId, tr', addEffect rippleEffect s1)
      | _, _ => (None, tr', s)
      end.

Record SparkleOptions : Type := mkSparkleOptions {
  so_count : option nat;
  so_duration : option float;
  so_distance : option float;
  so_size : option float;
  so_color : option string
}.

(** [o || d] where the default draws from [Math.random()] and is only
    evaluated when needed. *)
Definition or_else (o : option float) (d : Rand float) : Rand float :=
  match o with
  | Some n => if Js.truthy n then ret n else d
  | None => d
  end.

Definition sparkleColors : list string :=
  ["rgba(139, 92, 246, 0.8)"; "rgba(168, 85, 247, 0.8)";
   "rgba(59, 130, 246, 0.8)"; "rgba(147, 51, 234, 0.8)";
   "rgba(255, 255, 255, 0.8)"; "rgba(192, 132, 252, 0.8)"]%string.

(** [options.color || this.getRandomSparkleColor()] *)
Definition sparkleColor (o : option string) : Rand (option string) :=
  match o with
  | Some EmptyString | None => pick sparkleColors
  | Some c => ret (Some c)
  end.

(** [options.count || 6] *)
Definition count_or (o : option nat) (d : nat) : nat :=
  match o with
  | Some O | None => d
  | Some n => n
  end.

(** One iteration of the loop of [createSparkleEffect]. *)
Definition sparkleIteration (m : Math) (clk : Clock) (ex ey : float)
    (options : SparkleOptions) (sparkleCount i : nat) (s : t) :
    Rand (Id * t) :=
  let angle := (of_nat i / of_nat sparkleCount * PI * 2)%float in
  bind (or_else (so_distance options)
          (bind random (fun u => ret (30 + u * 20)%float))) (fun distance =>
  bind (or_else (so_size options)
          (bind random (fun u => ret (4 + u * 4)%float))) (fun sparkleSize =>
  let (effectId, s1) := generateEffectId (dateNow clk) s in
  bind (sparkleColor (so_color options)) (fun c =>
  bind random (fun u =>
  let sparkleEffect :=
    {| id := effectId; type := "sparkle"; color := c; isActive := true;
       props := [("x", ex); ("y", ey);
                 ("targetX", (ex + cos m angle * distance)%float);
                 ("targetY", (ey + sin m angle * distance)%float);
                 ("startTime", performanceNow clk);
                 ("duration", Js.or_default (so_duration options) 600);
                 ("size", sparkleSize);
                 ("currentX", ex); ("currentY", ey);
                 ("opacity", 1%float); ("rotation", angle);
                 ("rotationSpeed", ((u - 0.5) * 0.1)%float);
                 ("vx", (cos m angle * 2)%float);
                 ("vy", (sin m angle * 2)%float);
                 ("lastUpdateTime", performanceNow clk)] |} in
  ret (effectId, addEffect sparkleEffect s1))))).

(** The loop [for (let i = 0; i < sparkleCount; i++)], with [n]
    iterations left. *)
Fixpoint sparkleLoop (m : Math) (clk : Clock) (ex ey : float)
    (options : SparkleOptions) (sparkleCount n i : nat) (s : t) :
    Rand (list Id * t) :=
  match n with
  | O => ret ([], s)
  | S n' =>
      bind (sparkleIteration m clk ex ey options sparkleCount i s)
        (fun '(effectId, s1) =>
      bind (sparkleLoop m clk ex ey options sparkleCount n' (S i) s1)
        (fun '(ids, s2) => ret (effectId :: ids, s2)))
  end.

(** [createSparkleEffect(x, y, options)]: the returned array of ids, the
    tracker and the manager after the call. *)
Definition createSparkleEffect (m : Math) (win : Js.Window) (clk : Clock)
    (x y : Js.Value) (options : SparkleOptions)
    (tr : option CursorTracker.t) (s : t) :
    Rand (list Id * option CursorTracker.t * t) :=
  if reducedMotion s then ret ([], tr, s)
  else
    let (position, tr') := readPosition win tr in
    let effectX := effectCoordinate x (option_map CursorTracker.pos_x position) in
    let effectY := effectCoordinate y (option_map CursorTracker.pos_y position) in
    if negb (isValidPosition win effectX effectY) then ret ([], tr', s)
    else
      match effectX, effectY with
      | Js.Number ex, Js.Number ey =>
          let sparkleCount := count_or (so_count options) 6 in
          bind (sparkleLoop m clk ex ey options sparkleCount sparkleCount 0 s)
            (fun '(ids, s') => ret (ids, tr', s'))
      | _, _ => ret ([], tr', s)
      end.

Record ClickOptions : Type := mkClickOptions {
  co_rippleDuration : option float;
  co_rippleRadius : option float;
  co_rippleColor : option string;
  co_sparkleCount : option nat;
  co_sparkleDuration : option float;
  co_sparkleDistance : option float;
  co_sparkleColor : option string
}.

(** The object [{ ripple, sparkles }] returned by [createClickEffect]. *)
Record ClickResult : Type := mkClickResult {
  ripple : option Id;
  sparkles : list Id
}.

(** [createClickEffect(x, y, options)] *)
Definition createClickEffect (m : Math) (win : Js.Window) (clk : Clock)
    (x y : Js.Value) (options : ClickOptions)
    (tr : option CursorTracker.t) (s : t) :
    Rand (ClickResult * option CursorTracker.t * t) :=
  if reducedMotion s then ret (mkClickResult None [], tr, s)
  else
    let '(rippleId, tr1, s1) :=
      createRippleEffect win clk x y
        {| ro_duration := Some (Js.or_default (co_rippleDuration options) 800);
           ro_maxRadius := Some (Js.or_default (co_rippleRadius options) 150);
           ro_color := Some (str_or (co_rippleColor options) "rgba(139, 92, 246, 0.6)");
           ro_lineWidth := None |} tr s in
    bind (createSparkleEffect m win clk x y
            {| so_count := Some (count_or (co_sparkleCount options) 6);
               so_duration := Some (Js.or_default (co_sparkleDuration options) 600);
               so_distance := Some (Js.or_default (co_sparkleDistance options) 40);
               so_size := None;
               so_color := co_sparkleColor options |} tr1 s1)
      (fun '(sparkleIds, tr2, s2) =>
         ret (mkClickResult rippleId sparkleIds, tr2, s2)).

Definition with_props (p : Obj) (e : Effect) : Effect :=
  {| id := id e; type := type e; color := color e;
     isActive := isActive e; props := p |}.

Definition deactivate (e : Effect) : Effect :=
  {| id := id e; type := type e; color := color e;
     isActive := false; props := props e |}.

(** [updateRippleEffect(effect, progress)] *)
Definition updateRippleEffect (m : Math) (progress : float) (e : Effect) : Effect :=
  let easeOut := (1 - pow m (1 - progress) 3)%float in
  let p := props e in
  let p := set "currentRadius" (prop "maxRadius" p * easeOut)%float p in
  let p := set "opacity" (1 - progress)%float p in
  with_props p e.

(** [updateSparkleEffect(effect, progress)] *)
Definition updateSparkleEffect (m : Math) (progress : float) (e : Effect) : Effect :=
  let easeOut := (1 - pow m (1 - progress) 2)%float in
  let p := props e in
  let p := set "currentX"
             (prop "x" p + (prop "targetX" p - prop "x" p) * easeOut)%float p in
  let p := set "currentY"
             (prop "y" p + (prop "targetY" p - prop "y" p) * easeOut)%float p in
  let p := set "rotation" (prop "rotation" p + prop "rotationSpeed" p)%float p in
  let p := set "opacity" (1 - progress)%float p in
  with_props p e.

(** The callback of the [filter] in [updateEffects]: [None] when the
    effect is dropped, otherwise the effect as the callback left it. *)
Definition updateOne (m : Math) (currentTime : float) (e : Effect) : option Effect :=
  if negb (isActive e) then None
  else
    let elapsed := (currentTime - prop "startTime" (props e))%float in
    let progress := min (elapsed / prop "duration" (props e))%float 1 in
    let e1 :=
      if String.eqb (type e) "ripple" then updateRippleEffect m progress e
      else if String.eqb (type e) "sparkle" then updateSparkleEffect m progress e
      else e in
    let e2 := with_props (set "lastUpdateTime" currentTime (props e1)) e1 in
    if Js.ge progress 1 then None else Some e2.

Fixpoint filterMap {A B : Type} (f : A -> option B) (l : list A) : list B :=
  match l with
  | [] => []
  | a :: rest =>
      match f a with
      | Some b => b :: filterMap f rest
      | None => filterMap f rest
      end
  end.

(** [performCleanup()]; [currentTime] is what its own call of
    [performance.now()] returns. *)
Definition performCleanup (currentTime : float) (s : t) : t :=
  with_effects
    (List.filter
       (fun e => Js.lt (currentTime - prop "lastUpdateTime" (props e))%float 5000)
       (activeEffects s)) s.

(** [updateEffects()]; [currentTime] is what [performance.now()] returns
    at its first statement and [cleanupTime] what it returns when
    [performCleanup()] reads the clock again. *)
Definition updateEffects (m : Math) (currentTime cleanupTime : float) (s : t) : t :=
  let s1 := with_effects (filterMap (updateOne m currentTime) (activeEffects s)) s in
  if Js.gt (currentTime - lastCleanupTime s1)%float (cleanupInterval s1) then
    let s2 := performCleanup cleanupTime s1 in
    {| activeEffects := activeEffects s2; effectIdCounter := effectIdCounter s2;
       maxEffects := maxEffects s2; lastCleanupTime := currentTime;
       cleanupInterval := cleanupInterval s2; isAnimating := isAnimating s2;
       reducedMotion := reducedMotion s2 |}
  else s1.


(** [clearAllEffects()] *)
Definition clearAllEffects (s : t) : t := with_effects [] s.

Definition id_eqb (a b : Id) : bool :=
  Z.eqb (id_counter a) (id_counter b) && PrimFloat.eqb (id_stamp a) (id_stamp b).

Fixpoint removeFirst (effectId : Id) (l : list Effect) : option (list Effect) :=
  match l with
  | [] => None
  | e :: rest =>
      if id_eqb (id e) effectId then Some rest
      else option_map (cons e) (removeFirst effectId rest)
  end.

(** [removeEffect(effectId)] *)
Definition removeEffect (effectId : Id) (s : t) : bool * t :=
  match removeFirst effectId (activeEffects s) with
  | Some l => (true, with_effects l s)
  | None => (false, s)
  end.

(** The listener of the reduced-motion media query in [bindEvents]. *)
Definition onMotionChange (matches : bool) (s : t) : t :=
  let s1 :=
    {| activeEffects := activeEffects s; effectIdCounter := effectIdCounter s;
       maxEffects := maxEffects s; lastCleanupTime := lastCleanupTime s;
       cleanupInterval := cleanupInterval s; isAnimating := isAnimating s;
       reducedMotion := matches |} in
  if matches then clearAllEffects s1 else s1.

(** The calls a page can make on a manager, with the tracker it was
    given and the [Math.random] sequence threaded through. *)
Inductive Op : Type :=
| CreateRipple (clk : Clock) (x y : Js.Value) (options : RippleOptions)
| CreateSparkle (clk : Clock) (x y : Js.Value) (options : SparkleOptions)
| CreateClick (clk : Clock) (x y : Js.Value) (options : ClickOptions)
| UpdateEffects (currentTime cleanupTime : float)
| ClearAll
| Remove (effectId : Id)
| MotionChange (matches : bool).

Definition step (m : Math) (win : Js.Window) (tr : option CursorTracker.t)
    (o : Op) (s : t) : Rand t :=
  match o with
  | CreateRipple clk x y options =>
      ret (snd (createRippleEffect win clk x y options tr s))
  | CreateSparkle clk x y options =>
      bind (createSparkleEffect m win clk x y options tr s)
        (fun res => ret (snd res))
  | CreateClick clk x y options =>
      bind (createClickEffect m win clk x y options tr s)
        (fun res => ret (snd res))
  | UpdateEffects currentTime cleanupTime =>
      ret (updateEffects m currentTime cleanupTime s)
  | ClearAll => ret (clearAllEffects s)
  | Remove effectId => ret (snd (removeEffect effectId s))
  | MotionChange matches => ret (onMotionChange matches s)
  end.

Fixpoint run (m : Math) (win : Js.Window) (tr : option CursorTracker.t)
    (ops : list Op) (s : t) : Rand t :=
  match ops with
  | [] => ret s
  | o :: rest => bind (step m win tr o s) (run m win tr rest)
  end.

(** [getEffect(effectId)]; [None] is [undefined]. *)
Definition getEffect (effectId : Id) (s : t) : option Effect :=
  List.find (fun e => id_eqb (id e) effectId) (activeEffects s).



End EffectManager.

(** ** MagicalEffectsSystem (magical-effects.js) *)

Module MagicalEffectsSystem.

Import Runtime.

(** A particle of [this.effects]: its [type] and [color] strings and its
    numeric properties ([x], [y], [life], [maxLife], ...) by name. *)
Record Effect : Type := mkEffect {
  type : string;
  color : option string;
  props : Obj
}.

Definition life (e : Effect) : float := prop "life" (props e).
Definition maxLife (e : Effect) : float := prop "maxLife" (props e).

Record t : Type := mkSystem {
  effects : list Effect;
  reducedMotion : bool;
  mouseX : float;
  mouseY : float;
  lastMouseTime : float
}.

(** The fields set by [constructor()]; [matches] is the result of the
    reduced-motion media query. *)
Definition new (matches : bool) : t :=
  {| effects := []; reducedMotion := matches;
     mouseX := 0; mouseY := 0; lastMouseTime := 0 |}.

Definition with_effects (l : list Effect) (s : t) : t :=
  {| effects := l; reducedMotion := reducedMotion s;
     mouseX := mouseX s; mouseY := mouseY s;
     lastMouseTime := lastMouseTime s |}.

Definition push (e : Effect) (s : t) : t := with_effects (effects s ++ [e]) s.

Definition bubbleColors : list string :=
  ["rgba(88, 28, 135, 0.9)"; "rgba(30, 58, 138, 0.9)";
   "rgba(59, 130, 246, 0.9)"; "rgba(67, 56, 202, 0.9)";
   "rgba(37, 99, 235, 0.9)"; "rgba(147, 51, 234, 0.9)"].

(** The object pushed by the first loop of [createMagicalTrail]. *)
Definition trailBubble (x y : float) : Rand Effect :=
  bind random (fun u1 => let bubbleSize := (u1 * 8 + 4)%float in
  bind random (fun u2 => let offsetX := ((u2 - 0.5) * 25)%float in
  bind random (fun u3 => let offsetY := ((u3 - 0.5) * 25)%float in
  bind random (fun u4 =>
  bind random (fun u5 =>
  bind (pick bubbleColors) (fun c =>
  bind random (fun u6 =>
  bind random (fun u7 =>
  bind random (fun u8 =>
  bind random (fun u9 =>
  bind random (fun u10 =>
  bind random (fun u11 =>
  ret {| type := "trail-bubble"; color := c;
         props := [("x", (x + offsetX)%float); ("y", (y + offsetY)%float);
                   ("vx", ((u4 - 0.5) * 0.8)%float);
                   ("vy", ((u5 - 0.5) * 0.8 - 0.8)%float);
                   ("size", bubbleSize); ("opacity", 1%float);
                   ("life", 1%float); ("maxLife", (u6 * 60 + 40)%float);
                   ("rotation", (u7 * PI * 2)%float);
                   ("rotationSpeed", ((u8 - 0.5) * 0.05)%float);
                   ("initialSize", bubbleSize);
                   ("pulsePhase", (u9 * PI * 2)%float);
                   ("floatSpeed", (u10 * 0.03 + 0.02)%float);
                   ("sparklePhase", (u11 * PI * 2)%float)] |})))))))))))).

(** The object pushed by the second loop of [createMagicalTrail]. *)
Definition trailSparkle (x y : float) : Rand Effect :=
  bind random (fun u1 =>
  bind random (fun u2 =>
  bind random (fun u3 =>
  bind random (fun u4 =>
  bind random (fun u5 =>
  bind (pick bubbleColors) (fun c =>
  bind random (fun u6 =>
  bind random (fun u7 =>
  bind random (fun u8 =>
  bind random (fun u9 =>
  ret {| type := "trail-sparkle"; color := c;
         props := [("x", (x + (u1 - 0.5) * 20)%float);
                   ("y", (y + (u2 - 0.5) * 20)%float);
                   ("vx", ((u3 - 0.5) * 0.5)%float);
                   ("vy", ((u4 - 0.5) * 0.5 - 0.6)%float);
                   ("size", (u5 * 4 + 2)%float); ("opacity", 0.9%float);
                   ("life", 1%float); ("maxLife", (u6 * 40 + 30)%float);
                   ("rotation", (u7 * PI * 2)%float);
                   ("rotationSpeed", ((u8 - 0.5) * 0.1)%float);
                   ("twinkleSpeed", (u9 * 0.2 + 0.1)%float)] |})))))))))).

(** The object pushed by the last block of [createMagicalTrail]. *)
Definition largeBubble (x y : float) : Rand Effect :=
  bind random (fun u1 => let largeBubbleSize := (u1 * 12 + 10)%float in
  bind random (fun u2 =>
  bind random (fun u3 =>
  bind random (fun u4 =>
  bind random (fun u5 =>
  bind (pick bubbleColors) (fun c =>
  bind random (fun u6 =>
  bind random (fun u7 =>
  bind random (fun u8 =>
  bind random (fun u9 =>
  bind random (fun u10 =>
  ret {| type := "trail-bubble-large"; color := c;
         props := [("x", (x + (u2 - 0.5) * 15)%float);
                   ("y", (y + (u3 - 0.5) * 15)%float);
                   ("vx", ((u4 - 0.5) * 0.4)%float);
                   ("vy", ((u5 - 0.5) * 0.4 - 1.0)%float);
                   ("size", largeBubbleSize); ("opacity", 0.9%float);
                   ("life", 1%float); ("maxLife", (u6 * 80 + 60)%float);
                   ("rotation", 0%float);
                   ("rotationSpeed", ((u7 - 0.5) * 0.03)%float);
                   ("initialSize", largeBubbleSize);
                   ("pulsePhase", (u8 * PI * 2)%float);
                   ("floatSpeed", (u9 * 0.02 + 0.01)%float);
                   ("bouncePhase", (u10 * PI * 2)%float)] |}))))))))))).

(** [createMagicalTrail(x, y)]; [now] is what [Date.now()] returns. *)
Definition createMagicalTrail (now x y : float) (s : t) : Rand t :=
  if reducedMotion s then ret s
  else if Js.lt (now - lastMouseTime s)%float 40 then ret s
  else
    let s0 := {| effects := effects s; reducedMotion := reducedMotion s;
                 mouseX := mouseX s; mouseY := mouseY s;
                 lastMouseTime := now |} in
    bind (repeatM 4 (fun _ => trailBubble x y) 0) (fun bubbles =>
    bind (repeatM 2 (fun _ => trailSparkle x y) 0) (fun sparkles =>
    bind random (fun u =>
    if Js.lt u 0.4 then
      bind (largeBubble x y) (fun big =>
      ret (with_effects (effects s0 ++ bubbles ++ sparkles ++ [big]) s0))
    else
      ret (with_effects (effects s0 ++ bubbles ++ sparkles) s0)))).

(** The object pushed by iteration [i] of the ring loop of
    [createClickEffect]. *)
Definition clickBubble (m : Math) (x y : float) (i : nat) : Rand Effect :=
  let angle := (of_nat i / 6 * PI * 2)%float in
  bind random (fun u1 => let distance := (35 + u1 * 15)%float in
  bind random (fun u2 => let bubbleSize := (10 + u2 * 6)%float in
  bind random (fun u3 =>
  bind random (fun u4 =>
  ret {| type := "bubble-click";
         color := nth_error bubbleColors (i mod List.length bubbleColors);
         props := [("x", x); ("y", y);
                   ("vx", (cos m angle * 2.5)%float);
                   ("vy", (sin m angle * 2.5)%float);
                   ("targetX", (x + cos m angle * distance)%float);
                   ("targetY", (y + sin m angle * distance)%float);
                   ("size", bubbleSize); ("opacity", 1%float);
                   ("life", 1%float); ("maxLife", 30%float);
                   ("rotation", angle);
                   ("rotationSpeed", ((u3 - 0.5) * 0.08)%float);
                   ("initialSize", bubbleSize);
                   ("pulsePhase", (u4 * PI * 2)%float);
                   ("bouncePhase", 0%float)] |})))).

Definition expandingRing (x y : float) : Effect :=
  {| type := "expanding-ring-click"; color := Some "rgba(59, 130, 246, 0.7)";
     props := [("x", x); ("y", y); ("vx", 0%float); ("vy", 0%float);
               ("size", 5%float); ("opacity", 1%float);
               ("life", 1%float); ("maxLife", 25%float);
               ("rotation", 0%float); ("rotationSpeed", 0.1%float);
               ("maxSize", 70%float)] |}.

Definition centralGlow (x y : float) : Effect :=
  {| type := "glow-click"; color := Some "rgba(147, 51, 234, 0.5)";
     props := [("x", x); ("y", y); ("vx", 0%float); ("vy", 0%float);
               ("size", 12%float); ("opacity", 1%float);
               ("life", 1%float); ("maxLife", 20%float);
               ("rotation", 0%float); ("rotationSpeed", 0%float);
               ("pulsePhase", 0%float)] |}.

(** The particles [createClickEffect] pushes, in order. *)
Definition clickParticles (m : Math) (x y : float) : Rand (list Effect) :=
  bind (repeatM 6 (clickBubble m x y) 0) (fun ring =>
  ret (ring ++ [expandingRing x y; centralGlow x y])).

(** [createClickEffect(x, y)] *)
Definition createClickEffect (m : Math) (x y : float) (s : t) : Rand t :=
  if reducedMotion s then ret s
  else
    let kept := List.filter (fun e => negb (includes "-click" (type e)))
                            (effects s) in
    bind (clickParticles m x y) (fun created =>
    ret (with_effects (kept ++ created) s)).

(** What [element.getBoundingClientRect()] returns. *)
Record Rect : Type := mkRect {
  left : float;
  top : float;
  width : float;
  height : float
}.

Definition hoverSparkle (m : Math) (rect : Rect) (i : nat) : Rand Effect :=
  let centerX := (left rect + width rect / 2)%float in
  let centerY := (top rect + height rect / 2)%float in
  let angle := (of_nat i / 6 * PI * 2)%float in
  let radius := (max (width rect) (height rect) / 2 + 20)%float in
  bind random (fun u =>
  ret {| type := "sparkle"; color := Some "rgba(255, 255, 255, 0.7)";
         props := [("x", (centerX + cos m angle * radius)%float);
                   ("y", (centerY + sin m angle * radius)%float);
                   ("vx", (cos m angle * 0.5)%float);
                   ("vy", (sin m angle * 0.5)%float);
                   ("size", (u * 4 + 2)%float); ("opacity", 0.8%float);
                   ("life", 1%float); ("maxLife", 30%float);
                   ("rotation", angle); ("rotationSpeed", 0.1%float)] |}).

(** [createHoverEffect(element)] *)
Definition createHoverEffect (m : Math) (rect : Rect) (s : t) : Rand t :=
  if reducedMotion s then ret s
  else
    bind (repeatM 6 (hoverSparkle m rect) 0) (fun created =>
    ret (with_effects (effects s ++ created) s)).

(** [createAmbientSparkle()] *)
Definition createAmbientSparkle (win : Js.Window) (s : t) : Rand t :=
  if reducedMotion s then ret s
  else
    bind random (fun u1 => let x := (u1 * Js.innerWidth win)%float in
    bind random (fun u2 => let y := (u2 * Js.innerHeight win)%float in
    bind random (fun u3 =>
    bind random (fun u4 =>
    bind random (fun u5 =>
    bind random (fun u6 =>
    bind random (fun u7 =>
    bind random (fun u8 =>
    bind random (fun u9 =>
    bind random (fun u10 =>
    ret (push {| type := "ambient"; color := Some "rgba(255, 255, 255, 0.4)";
                 props := [("x", x); ("y", y);
                           ("vx", ((u3 - 0.5) * 0.3)%float);
                           ("vy", ((u4 - 0.5) * 0.3)%float);
                           ("size", (u5 * 3 + 1)%float); ("opacity", 0.6%float);
                           ("life", 1%float); ("maxLife", (u6 * 120 + 60)%float);
                           ("rotation", (u7 * PI * 2)%float);
                           ("rotationSpeed", ((u8 - 0.5) * 0.02)%float);
                           ("twinkle", (u9 * PI * 2)%float);
                           ("twinkleSpeed", (u10 * 0.03 + 0.01)%float)] |}
              s))))))))))).

(** The [setInterval] callback of [startAmbientSparkles]. *)
Definition ambientTick (win : Js.Window) (s : t) : Rand t :=
  if (List.length (effects s) <? 50)%nat then createAmbientSparkle win s
  else ret s.

(** The listener of the reduced-motion media query in [bindEvents]. *)
Definition onMotionChange (matches : bool) (s : t) : t :=
  {| effects := if matches then [] else effects s;
     reducedMotion := matches;
     mouseX := mouseX s; mouseY := mouseY s;
     lastMouseTime := lastMouseTime s |}.

(** The first statements of [updateEffect], common to every type. *)
Definition commonUpdate : list (Obj -> Obj) :=
  [ addTo "x" (prop "vx");
    addTo "y" (prop "vy");
    addTo "rotation" (prop "rotationSpeed");
    subFrom "life" (fun p => 1 / prop "maxLife" p)%float;
    assign "opacity" (prop "life") ].

(** The branch of [updateEffect] selected by [effect.type]; [now] is
    what [Date.now()] returns. *)
Definition typeUpdate (m : Math) (now : float) (ty : string) (p0 : Obj) :
    list (Obj -> Obj) :=
  if String.eqb ty "bubble-click" then
    [ addTo "bouncePhase" (fun _ => 0.15)%float;
      assign "x" (fun p => prop "x" p + (prop "targetX" p - prop "x" p) * 0.08)%float;
      assign "y" (fun p => prop "y" p + (prop "targetY" p - prop "y" p) * 0.08
                           + sin m (prop "bouncePhase" p) * 0.3 * prop "life" p)%float;
      addTo "pulsePhase" (fun _ => 0.2)%float;
      assign "size" (fun p => prop "initialSize" p
                              * (sin m (prop "pulsePhase" p) * 0.3 + 1)
                              * (0.5 + prop "life" p * 0.5))%float;
      assign "opacity" (fun p => prop "life" p * 0.95)%float ]
  else if String.eqb ty "sparkle-bubble-click" then
    [ assign "x" (fun p => prop "x" p + (prop "targetX" p - prop "x" p) * 0.06)%float;
      assign "y" (fun p => prop "y" p + (prop "targetY" p - prop "y" p) * 0.06)%float;
      addTo "pulsePhase" (prop "twinkleSpeed");
      assign "opacity" (fun p => prop "life" p
                                 * (sin m (prop "pulsePhase" p) * 0.4 + 0.6) * 0.8)%float;
      assign "size" (fun p => prop "initialSize" p
                              * (0.8 + sin m (prop "pulsePhase" p * 0.5) * 0.2))%float ]
  else if String.eqb ty "expanding-ring-click" then
    [ assign "size" (fun p => 8 + (prop "maxSize" p - 8) * (1 - prop "life" p))%float;
      addTo "pulseCount" (fun _ => 0.3)%float;
      assign "opacity" (fun p => prop "life" p * 0.7
                                 * (sin m (prop "pulseCount" p) * 0.2 + 0.8))%float;
      addTo "rotation" (prop "rotationSpeed") ]
  else if String.eqb ty "glow-click" then
    [ addTo "pulsePhase" (fun _ => 0.15)%float;
      assign "size" (fun p => 15 + (sin m (prop "pulsePhase" p) * 0.4 + 0.6) * 10)%float;
      assign "opacity" (fun p => prop "life" p * 0.4
                                 * (sin m (prop "pulsePhase" p) * 0.4 + 0.6))%float ]
  else if String.eqb ty "heart-bubble-click" then
    [ addTo "floatPhase" (fun _ => 0.1)%float;
      assign "x" (fun p => prop "x" p + (prop "targetX" p - prop "x" p) * 0.04)%float;
      assign "y" (fun p => prop "y" p + (prop "targetY" p - prop "y" p) * 0.04)%float;
      addTo "x" (fun p => sin m (prop "floatPhase" p) * 0.5)%float;
      addTo "y" (fun p => cos m (prop "floatPhase" p * 0.7) * 0.3)%float;
      assign "opacity" (fun p => prop "life" p * 0.7)%float ]
  else if String.eqb ty "bubble" then
    [ addTo "vy" (fun _ => 0.02)%float;
      mulBy "vx" 0.98; mulBy "vy" 0.98;
      addTo "pulsePhase" (fun _ => 0.1)%float;
      assign "size" (fun p => prop "initialSize" p
                              * (sin m (prop "pulsePhase" p) * 0.2 + 1))%float;
      addTo "x" (fun p => sin m (prop "pulsePhase" p * 0.5) * 0.5)%float;
      assign "opacity" (fun p => prop "life" p * 0.9)%float ]
  else if String.eqb ty "trail-bubble" || String.eqb ty "trail-bubble-large" then
    [ subFrom "vy" (fun _ => 0.015)%float;
      mulBy "vx" 0.98; mulBy "vy" 0.98;
      addTo "pulsePhase" (prop "floatSpeed");
      assign "size" (fun p => prop "initialSize" p
                              * (sin m (prop "pulsePhase" p) * 0.25 + 1))%float;
      addTo "x" (fun p => sin m (prop "pulsePhase" p * 0.4) * 0.6)%float;
      addTo "y" (fun p => cos m (prop "pulsePhase" p * 0.3) * 0.4)%float ]
    ++ (match get "sparklePhase" p0 with
        | Some _ =>
            [ addTo "sparklePhase" (fun _ => 0.1)%float;
              assign "opacity" (fun p => prop "life" p
                                 * (sin m (prop "sparklePhase" p) * 0.3 + 0.7))%float ]
        | None =>
            [ assign "opacity" (fun p => prop "life" p * 0.9)%float ]
        end)
    ++ (match String.eqb ty "trail-bubble-large", get "bouncePhase" p0 with
        | true, Some _ =>
            [ addTo "bouncePhase" (fun _ => 0.08)%float;
              addTo "x" (fun p => sin m (prop "bouncePhase" p) * 0.8)%float ]
        | _, _ => []
        end)
  else if String.eqb ty "trail-sparkle" then
    [ subFrom "vy" (fun _ => 0.01)%float;
      mulBy "vx" 0.99; mulBy "vy" 0.99;
      assign "opacity" (fun p => prop "life" p
                                 * (sin m (now * prop "twinkleSpeed" p) * 0.5 + 0.5))%float;
      addTo "rotation" (prop "rotationSpeed") ]
  else if String.eqb ty "sparkle-bubble" then
    [ addTo "vy" (fun _ => 0.03)%float;
      mulBy "vx" 0.97; mulBy "vy" 0.97;
      assign "opacity" (fun p => (sin m (now * 0.01 + prop "rotation" p) + 1)
                                 * 0.3 + 0.2)%float ]
  else if String.eqb ty "expanding-ring" then
    [ assign "size" (fun p => 5 + (prop "maxSize" p - 5) * (1 - prop "life" p))%float;
      assign "opacity" (fun p => prop "life" p * 0.6)%float ]
  else if String.eqb ty "ambient" then
    [ addTo "twinkle" (prop "twinkleSpeed");
      assign "opacity" (fun p => (sin m (prop "twinkle" p) + 1) * 0.2 + 0.1)%float;
      addTo "y" (fun p => sin m (now * 0.001 + prop "x" p * 0.01) * 0.1)%float;
      addTo "x" (fun p => cos m (now * 0.001 + prop "y" p * 0.01) * 0.05)%float ]
  else if String.eqb ty "burst" || String.eqb ty "trail" then
    [ addTo "vy" (fun _ => 0.05)%float;
      mulBy "vx" 0.99; mulBy "vy" 0.99 ]
  else if String.eqb ty "glow" then
    [ mulBy "size" 1.03;
      assign "opacity" (fun p => prop "life" p * 0.3)%float ]
  else [].

(** [updateEffect(effect)]: the effect as the call leaves it and the
    returned boolean [effect.life > 0]. *)
Definition updateEffect (m : Math) (now : float) (e : Effect) : Effect * bool :=
  let p := exec (commonUpdate ++ typeUpdate m now (type e) (props e)) (props e) in
  let e' := {| type := type e; color := color e; props := p |} in
  (e', Js.gt (life e') 0).

(** One frame of [animate()]: the callback of [this.effects.filter]
    updates each effect, calls [drawEffect] on it when it is alive, and
    keeps it when it is alive.  The result is the kept effects and the
    arguments of the [drawEffect] calls, both in order. *)
Fixpoint animateEffects (m : Math) (now : float) (l : list Effect) :
    list Effect * list Effect :=
  match l with
  | [] => ([], [])
  | e :: rest =>
      let (e', alive) := updateEffect m now e in
      let (kept, drawn) := animateEffects m now rest in
      if alive then (e' :: kept, e' :: drawn) else (kept, drawn)
  end.

(** [animate()]: the [drawEffect] calls of the frame and the system
    after it. *)
Definition animate (m : Math) (now : float) (s : t) : list Effect * t :=
  let (kept, drawn) := animateEffects m now (effects s) in
  (drawn, with_effects kept s).

End MagicalEffectsSystem.

(** ** ParticleSystem (particle-system.js) *)

Module ParticleSystem.

Import Runtime.

Record Particle : Type := mkParticle {
  type : string;
  color : option string;
  props : Obj
}.

Definition life (p : Particle) : float := prop "life" (props p).

Record t : Type := mkSystem {
  particles : list Particle;
  particleCount : nat;
  colors : list string;
  isHeroHovered : bool;
  reducedMotion : bool;
  optionsCount : option nat;
  canvasWidth : float;
  canvasHeight : float
}.

(** [options.count || 50] *)
Definition configuredCount (o : option nat) : nat :=
  match o with
  | Some O | None => 50
  | Some n => n
  end.

(** [Math.floor(count * factor)] *)
Definition scaled (count : nat) (factor : float) : nat :=
  floor_count (of_nat count * factor)%float.

(** [createParticle()] *)
Definition createParticle (s : t) : Rand Particle :=
  bind random (fun particleType =>
  bind random (fun u1 =>
  bind random (fun u2 =>
  bind random (fun u3 =>
  bind random (fun u4 =>
  bind random (fun u5 =>
  if Js.lt particleType 0.7 then
    bind (pick (colors s)) (fun c =>
    bind random (fun u6 =>
    bind random (fun u7 =>
    bind random (fun u8 =>
    ret {| type := "regular"; color := c;
           props := [("x", (u1 * canvasWidth s)%float);
                     ("y", (u2 * canvasHeight s)%float);
                     ("vx", ((u3 - 0.5) * 0.5)%float);
                     ("vy", ((u4 - 0.5) * 0.5)%float);
                     ("size", (u5 * 3 + 1)%float);
                     ("opacity", (u6 * 0.5 + 0.2)%float);
                     ("originalVx", ((u7 - 0.5) * 0.5)%float);
                     ("originalVy", ((u8 - 0.5) * 0.5)%float);
                     ("life", 1%float); ("maxLife", 1%float)] |}))))
  else if Js.lt particleType 0.85 then
    bind (pick (colors s)) (fun c =>
    bind random (fun u6 =>
    bind random (fun u7 =>
    bind random (fun u8 =>
    bind random (fun u9 =>
    ret {| type := "glow"; color := c;
           props := [("x", (u1 * canvasWidth s)%float);
                     ("y", (u2 * canvasHeight s)%float);
                     ("vx", ((u3 - 0.5) * 0.3)%float);
                     ("vy", ((u4 - 0.5) * 0.3)%float);
                     ("size", (u5 * 5 + 2)%float);
                     ("opacity", (u6 * 0.8 + 0.4)%float);
                     ("originalVx", ((u7 - 0.5) * 0.3)%float);
                     ("originalVy", ((u8 - 0.5) * 0.3)%float);
                     ("life", 1%float); ("maxLife", 1%float);
                     ("glowIntensity", (u9 * 0.5 + 0.5)%float)] |})))))
  else
    bind random (fun u6 =>
    bind random (fun u7 =>
    bind random (fun u8 =>
    bind random (fun u9 =>
    bind random (fun u10 =>
    ret {| type := "sparkle"; color := Some "#ffd700";
           props := [("x", (u1 * canvasWidth s)%float);
                     ("y", (u2 * canvasHeight s)%float);
                     ("vx", ((u3 - 0.5) * 0.2)%float);
                     ("vy", ((u4 - 0.5) * 0.2)%float);
                     ("size", (u5 * 2 + 0.5)%float);
                     ("opacity", (u6 * 0.6 + 0.3)%float);
                     ("originalVx", ((u7 - 0.5) * 0.2)%float);
                     ("originalVy", ((u8 - 0.5) * 0.2)%float);
                     ("life", 1%float); ("maxLife", 1%float);
                     ("twinkle", (u9 * PI * 2)%float);
                     ("twinkleSpeed", (u10 * 0.05 + 0.02)%float)] |})))))
  )))))).

Definition with_particles (l : list Particle) (s : t) : t :=
  {| particles := l; particleCount := particleCount s; colors := colors s;
     isHeroHovered := isHeroHovered s; reducedMotion := reducedMotion s;
     optionsCount := optionsCount s;
     canvasWidth := canvasWidth s; canvasHeight := canvasHeight s |}.

(** [createParticles()] *)
Definition createParticles (s : t) : Rand t :=
  bind (repeatM (particleCount s) (fun _ => createParticle s) 0)
    (fun l => ret (with_particles l s)).

Definition with_motion (matches : bool) (count : nat) (s : t) : t :=
  {| particles := particles s; particleCount := count; colors := colors s;
     isHeroHovered := isHeroHovered s; reducedMotion := matches;
     optionsCount := optionsCount s;
     canvasWidth := canvasWidth s; canvasHeight := canvasHeight s |}.

(** [constructor(canvas, options)] followed by the part of [init()]
    that touches the particle list: [resizeCanvas()] and
    [createParticles()]. *)
Definition new (win : Js.Window) (options : option nat) (matches : bool) : Rand t :=
  let count := configuredCount options in
  createParticles
    {| particles := [];
       particleCount := if matches then scaled count 0.1 else count;
       colors := ["#8b5cf6"; "#c084fc"; "#d8b4fe"];
       isHeroHovered := false; reducedMotion := matches;
       optionsCount := options;
       canvasWidth := Js.innerWidth win; canvasHeight := Js.innerHeight win |}.

(** The media-query listener registered in the constructor. *)
Definition constructorListener (matches : bool) (s : t) : Rand t :=
  createParticles
    (with_motion matches
       (if matches then scaled (configuredCount (optionsCount s)) 0.1
        else configuredCount (optionsCount s)) s).

(** The media-query listener registered in [bindEvents]. *)
Definition bindEventsListener (matches : bool) (s : t) : Rand t :=
  createParticles
    (with_motion matches
       (if matches then scaled (particleCount s) 0.3 else 50) s).

(** A change of the reduced-motion preference: both listeners run, in
    the order of their registration. *)
Definition onMotionChange (matches : bool) (s : t) : Rand t :=
  bind (constructorListener matches s) (bindEventsListener matches).

(** [updateParticle(particle)]; [now] is what [Date.now()] returns. *)
Definition updateParticle (m : Math) (win : Js.Window) (now : float)
    (s : t) (p : Particle) : Particle :=
  let hover :=
    if isHeroHovered s then
      [ assign "vx" (fun o => prop "originalVx" o * 2)%float;
        assign "vy" (fun o => prop "originalVy" o * 2)%float;
        assign "opacity" (fun o => min (prop "opacity" o * 1.5)%float 1) ]
    else
      [ assign "vx" (prop "originalVx");
        assign "vy" (prop "originalVy");
        assign "opacity" (fun o => max (prop "opacity" o / 1.5)%float 0.2) ] in
  let special :=
    if String.eqb (type p) "sparkle" then
      [ addTo "twinkle" (prop "twinkleSpeed");
        assign "opacity" (fun o => (sin m (prop "twinkle" o) + 1) * 0.3 + 0.2)%float ]
    else if String.eqb (type p) "glow" then
      [ assign "glowIntensity"
          (fun o => sin m (now * 0.001 + prop "x" o * 0.01) * 0.3 + 0.7)%float ]
    else [] in
  let stmts :=
    [ addTo "x" (fun o => prop "vx" o + Js.scrollY win * 0.3 * 0.001)%float;
      addTo "y" (fun o => prop "vy" o - Js.scrollY win * 0.3 * 0.002)%float ]
    ++ hover ++ special ++
    [ addTo "y" (fun o => sin m (now * 0.001 + prop "x" o * 0.01) * 0.1)%float;
      addTo "x" (fun o => cos m (now * 0.001 + prop "y" o * 0.01) * 0.05)%float;
      assignIf (fun o => Js.lt (prop "x" o) (-50)) "x"
               (fun _ => canvasWidth s + 50)%float;
      assignIf (fun o => Js.gt (prop "x" o) (canvasWidth s + 50)%float) "x"
               (fun _ => (-50)%float);
      assignIf (fun o => Js.lt (prop "y" o) (-50)) "y"
               (fun _ => canvasHeight s + 50)%float;
      assignIf (fun o => Js.gt (prop "y" o) (canvasHeight s + 50)%float) "y"
               (fun _ => (-50)%float) ] in
  {| type := type p; color := color p; props := exec stmts (props p) |}.

(** [animate()]: the arguments of the [drawParticle] calls of the frame
    and the system after it. *)
Definition animate (m : Math) (win : Js.Window) (now : float) (s : t) :
    list Particle * t :=
  if negb (reducedMotion s) then
    let l := List.map (updateParticle m win now s) (particles s) in
    (l, with_particles l s)
  else (particles s, s).

(** [setHeroHover(isHovered)] *)
Definition setHeroHover (isHovered : bool) (s : t) : t :=
  {| particles := particles s; particleCount := particleCount s;
     colors := colors s; isHeroHovered := isHovered;
     reducedMotion := reducedMotion s; optionsCount := optionsCount s;
     canvasWidth := canvasWidth s; canvasHeight := canvasHeight s |}.

(** [updateTheme(theme)].  The field [currentTheme], which the source
    writes here and never reads, is not part of the state. *)
Definition updateTheme (theme : string) (s : t) : Rand t :=
  let palette :=
    if String.eqb theme "light" then ["#6d28d9"; "#8b5cf6"; "#a78bfa"]
    else ["#8b5cf6"; "#c084fc"; "#d8b4fe"] in
  let s1 :=
    {| particles := particles s; particleCount := particleCount s;
       colors := palette; isHeroHovered := isHeroHovered s;
       reducedMotion := reducedMotion s; optionsCount := optionsCount s;
       canvasWidth := canvasWidth s; canvasHeight := canvasHeight s |} in
  bind (mapRand
          (fun p => bind (pick palette) (fun c =>
                    ret {| type := type p; color := c; props := props p |}))
          (particles s))
    (fun l => ret (with_particles l s1)).

(** The resize listener of [bindEvents]: [resizeCanvas()] and
    [createParticles()]. *)
Definition onResize (win : Js.Window) (s : t) : Rand t :=
  createParticles
    {| particles := particles s; particleCount := particleCount s;
       colors := colors s; isHeroHovered := isHeroHovered s;
       reducedMotion := reducedMotion s; optionsCount := optionsCount s;
       canvasWidth := Js.innerWidth win; canvasHeight := Js.innerHeight win |}.

(** What can happen to a particle system after its construction. *)
Inductive Op : Type :=
| Resize (win : Js.Window)
| MotionChange (matches : bool)
| Frame (win : Js.Window) (now : float)
| Theme (theme : string)
| HeroHover (isHovered : bool).

Definition step (m : Math) (o : Op) (s : t) : Rand t :=
  match o with
  | Resize win => onResize win s
  | MotionChange matches => onMotionChange matches s
  | Frame win now => ret (snd (animate m win now s))
  | Theme theme => updateTheme theme s
  | HeroHover isHovered => ret (setHeroHover isHovered s)
  end.

Fixpoint run (m : Math) (ops : list Op) (s : t) : Rand t :=
  match ops with
  | [] => ret s
  | o :: rest => bind (step m o s) (run m rest)
  end.

End ParticleSystem.

(** ** ScreenSparklesSystem (screen-sparkles.js) *)

Module ScreenSparklesSystem.

Import Runtime.

Record Sparkle : Type := mkSparkle {
  color : option string;
  props : Obj
}.

Definition life (p : Sparkle) : float := prop "life" (props p).

Record t : Type := mkSystem {
  sparkles : list Sparkle;
  sparkleCount : nat;
  reducedMotion : bool;
  canvasWidth : float;
  canvasHeight : float
}.

Definition sparkleColors : list string :=
  ["rgba(255, 255, 255, 0.4)"; "rgba(192, 192, 192, 0.3)";
   "rgba(139, 92, 246, 0.3)"; "rgba(168, 85, 247, 0.3)";
   "rgba(196, 181, 253, 0.3)"; "rgba(220, 220, 220, 0.2)";
   "rgba(124, 58, 237, 0.3)"; "rgba(147, 51, 234, 0.3)"].

(** [createSparkle()]; [now] is what [Date.now()] returns. *)
Definition createSparkle (now : float) (s : t) : Rand Sparkle :=
  bind random (fun u1 =>
  bind random (fun u2 =>
  bind random (fun u3 =>
  bind random (fun u4 =>
  bind random (fun u5 =>
  bind random (fun u6 =>
  bind random (fun u7 =>
  bind random (fun u8 =>
  bind (pick sparkleColors) (fun c =>
  bind random (fun u9 =>
  ret {| color := c;
         props := [("x", (u1 * canvasWidth s)%float);
                   ("y", (u2 * canvasHeight s)%float);
                   ("size", (u3 * 2 + 1)%float);
                   ("opacity", (u4 * 0.5 + 0.2)%float);
                   ("twinkle", (u5 * PI * 2)%float);
                   ("twinkleSpeed", (u6 * 0.02 + 0.01)%float);
                   ("driftX", ((u7 - 0.5) * 0.1)%float);
                   ("driftY", ((u8 - 0.5) * 0.1)%float);
                   ("life", (u9 * 300 + 200)%float);
                   ("maxLife", 0%float);
                   ("birthTime", now)] |})))))))))).

Definition with_sparkles (l : list Sparkle) (s : t) : t :=
  {| sparkles := l; sparkleCount := sparkleCount s;
     reducedMotion := reducedMotion s;
     canvasWidth := canvasWidth s; canvasHeight := canvasHeight s |}.

(** [createSparkles()] *)
Definition createSparkles (now : float) (s : t) : Rand t :=
  bind (repeatM (sparkleCount s) (fun _ => createSparkle now s) 0)
    (fun l => ret (with_sparkles l s)).

(** [constructor()] followed by [createSparkles()] of [init()]. *)
Definition new (win : Js.Window) (now : float) (matches : bool) : Rand t :=
  createSparkles now
    {| sparkles := []; sparkleCount := if matches then 0 else 12;
       reducedMotion := matches;
       canvasWidth := Js.innerWidth win; canvasHeight := Js.innerHeight win |}.

(** The listener of the reduced-motion media query in [bindEvents]. *)
Definition onMotionChange (now : float) (matches : bool) (s : t) : Rand t :=
  createSparkles now
    {| sparkles := sparkles s; sparkleCount := if matches then 0 else 12;
       reducedMotion := matches;
       canvasWidth := canvasWidth s; canvasHeight := canvasHeight s |}.

(** The temporary sparkle of the click listener. *)
Definition tempSparkle (now : float) (s : t) : Rand Sparkle :=
  bind (createSparkle now s) (fun sp =>
  ret {| color := color sp;
         props := mulBy "twinkleSpeed" 2 (set "life" 60 (props sp)) |}).

(** The click listener of [bindEvents]. *)
Definition onClick (now : float) (s : t) : Rand t :=
  if negb (reducedMotion s) && (List.length (sparkles s) <? 20)%nat then
    bind (repeatM 3 (fun _ => tempSparkle now s) 0)
      (fun l => ret (with_sparkles (sparkles s ++ l) s))
  else ret s.

(** The [setTimeout] callback of the click listener. *)
Definition onClickTimeout (s : t) : t :=
  with_sparkles (List.firstn (sparkleCount s) (sparkles s)) s.

(** The resize listener of [bindEvents]. *)
Definition onResize (win : Js.Window) (now : float) (s : t) : Rand t :=
  createSparkles now
    {| sparkles := sparkles s; sparkleCount := sparkleCount s;
       reducedMotion := reducedMotion s;
       canvasWidth := Js.innerWidth win; canvasHeight := Js.innerHeight win |}.

(** [updateSparkle(sparkle)] *)
Definition updateSparkle (m : Math) (now : float) (s : t) (sp : Sparkle) :
    Rand Sparkle :=
  if reducedMotion s then ret sp
  else
    let time := fun o => ((now - prop "birthTime" o) * 0.001)%float in
    let p :=
      exec
        [ addTo "twinkle" (prop "twinkleSpeed");
          assign "opacity" (fun o => (sin m (prop "twinkle" o) + 1) * 0.3 + 0.1)%float;
          addTo "x" (prop "driftX");
          addTo "y" (prop "driftY");
          addTo "y" (fun o => sin m (time o + prop "x" o * 0.01) * 0.05)%float;
          addTo "x" (fun o => cos m (time o + prop "y" o * 0.01) * 0.03)%float;
          assignIf (fun o => Js.lt (prop "x" o) (-10)) "x"
            (fun _ => canvasWidth s + 10)%float;
          assignIf
            (fun o => Js.gt (prop "x" o) (canvasWidth s + 10)%float) "x"
            (fun _ => (-10)%float);
          assignIf (fun o => Js.lt (prop "y" o) (-10)) "y"
            (fun _ => canvasHeight s + 10)%float;
          assignIf
            (fun o => Js.gt (prop "y" o) (canvasHeight s + 10)%float) "y"
            (fun _ => (-10)%float);
          subFrom "life" (fun _ => 1%float) ]
        (props sp) in
    if Js.le (prop "life" p) 0 then
      bind (createSparkle now s) (fun fresh =>
      ret {| color := color fresh;
             props := fold_left (fun acc kv => set (fst kv) (snd kv) acc)
                                (props fresh) p |})
    else ret {| color := color sp; props := p |}.

Fixpoint mapM {A B : Type} (f : A -> Rand B) (l : list A) : Rand (list B) :=
  match l with
  | [] => ret []
  | a :: rest => bind (f a) (fun b => bind (mapM f rest) (fun bs => ret (b :: bs)))
  end.

(** [animate()]: the arguments of the [drawSparkle] calls of the frame
    and the system after it. *)
Definition animate (m : Math) (now : float) (s : t) : Rand (list Sparkle * t) :=
  if negb (reducedMotion s) then
    bind (mapM (updateSparkle m now s) (sparkles s))
      (fun l => ret (l, with_sparkles l s))
  else ret ([], s).

(** What can happen to a sparkle system after its construction. *)
Inductive Op : Type :=
| Click (now : float)
| ClickTimeout
| Resize (win : Js.Window) (now : float)
| MotionChange (now : float) (matches : bool)
| Frame (now : float).

Definition step (m : Math) (o : Op) (s : t) : Rand t :=
  match o with
  | Click now => onClick now s
  | ClickTimeout => ret (onClickTimeout s)
  | Resize win now => onResize win now s
  | MotionChange now matches => onMotionChange now matches s
  | Frame now => bind (animate m now s) (fun res => ret (snd res))
  end.

Fixpoint run (m : Math) (ops : list Op) (s : t) : Rand t :=
  match ops with
  | [] => ret s
  | o :: rest => bind (step m o s) (run m rest)
  end.

End ScreenSparklesSystem.

(** ** CuteCursor: the sparkle pool (cursor-system.js) *)

Module CuteCursor.

Import Runtime.

(** An entry of [this.sparkles]; its DOM element is not modelled. *)
Record Sparkle : Type := mkSparkle {
  x : float;
  y : float;
  active : bool;
  life : float
}.

(** [createSparkles()]: twelve inactive entries are pushed. *)
Definition createSparkles (pool : list Sparkle) : list Sparkle :=
  pool ++ List.repeat (mkSparkle 0 0 false 0) 12.

(** [getAvailableSparkle()]; [None] is [undefined]. *)
Definition getAvailableSparkle (pool : list Sparkle) : option Sparkle :=
  List.find (fun sp => negb (active sp)) pool.

(** The pool after the object found by [getAvailableSparkle] has been
    replaced by [sp']. *)
Fixpoint replaceAvailable (sp' : Sparkle) (pool : list Sparkle) : list Sparkle :=
  match pool with
  | [] => []
  | sp :: rest =>
      if negb (active sp) then sp' :: rest
      else sp :: replaceAvailable sp' rest
  end.

(** The [setTimeout] callback of iteration [i] of
    [createClickSparkles(x, y)]. *)
Definition spawnSparkle (m : Math) (i : nat) (cx cy : float)
    (pool : list Sparkle) : Rand (list Sparkle) :=
  match getAvailableSparkle pool with
  | Some _ =>
      let angle := (of_nat i / 6 * PI * 2)%float in
      bind random (fun u =>
      let distance := (30 + u * 20)%float in
      ret (replaceAvailable
             {| x := (cx + cos m angle * distance)%float;
                y := (cy + sin m angle * distance)%float;
                active := true; life := 60 |} pool))
  | None => ret pool
  end.

(** The callback of [this.sparkles.forEach] in [updateSparkles]. *)
Definition updateSparkle (sp : Sparkle) : Rand Sparkle :=
  if active sp then
    let life' := (life sp - 1)%float in
    if Js.le life' 0 then
      ret {| x := x sp; y := y sp; active := false; life := life' |}
    else
      bind random (fun u1 =>
      bind random (fun u2 =>
      ret {| x := (x sp + (u1 - 0.5) * 2)%float;
             y := (y sp + (u2 - 0.5) * 2)%float;
             active := true; life := life' |}))
  else ret sp.

(** [updateSparkles()] *)
Definition updateSparkles (pool : list Sparkle) : Rand (list Sparkle) :=
  mapRand updateSparkle pool.

(** [n] animation frames. *)
Fixpoint frames (n : nat) (pool : list Sparkle) : Rand (list Sparkle) :=
  match n with
  | O => ret pool
  | S n' => bind (updateSparkles pool) (frames n')
  end.

(** The calls that touch the pool after [createSparkles()]. *)
Inductive Op : Type :=
| Spawn (i : nat) (cx cy : float)
| Update.

Definition step (m : Math) (o : Op) (pool : list Sparkle) : Rand (list Sparkle) :=
  match o with
  | Spawn i cx cy => spawnSparkle m i cx cy pool
  | Update => updateSparkles pool
  end.

Fixpoint run (m : Math) (ops : list Op) (pool : list Sparkle) : Rand (list Sparkle) :=
  match ops with
  | [] => ret pool
  | o :: rest => bind (step m o pool) (run m rest)
  end.

End CuteCursor.

(** ** Reading of the specification's words *)

Module Spec.

(** A coordinate the specification calls rejected: not a number,
    non-finite, negative, or beyond the bound. *)
Definition rejected_coordinate (bound : float) (v : Js.Value) : Prop :=
  match v with
  | Js.Number n =>
      Js.isFinite n = false \/ Js.lt n 0 = true \/ Js.gt n bound = true
  | _ => True
  end.

(** No operation of the sequence is an update that the tracker accepts,
    starting from [s]. *)
Fixpoint noneAccepted (w : option Js.Window) (ops : list CursorTracker.Op)
    (s : CursorTracker.t) : bool :=
  match ops with
  | [] => true
  | o :: rest =>
      negb (CursorTracker.accepted w o s) &&
      noneAccepted w rest (CursorTracker.step w o s)
  end.

(** The positions a run hands to [updatePosition] and sees accepted,
    most recent first, collected in front of [acc]. *)
Fixpoint acceptedPositions (w : option Js.Window) (ops : list CursorTracker.Op)
    (s : CursorTracker.t) (acc : list (float * float)) : list (float * float) :=
  match ops with
  | [] => acc
  | o :: rest =>
      acceptedPositions w rest (CursorTracker.step w o s)
        (match o with
         | CursorTracker.Update _ (Js.Number x) (Js.Number y) =>
             if CursorTracker.accepted w o s then (x, y) :: acc else acc
         | _ => acc
         end)
  end.

(** The distance the specification words for [getMovementDistance]:
    the one between the two most recently accepted positions, when
    there are two. *)
Definition distanceOfLastTwo (l : list (float * float)) : option float :=
  match l with
  | (x2, y2) :: (x1, y1) :: _ =>
      Some (PrimFloat.sqrt ((x2 - x1) * (x2 - x1) + (y2 - y1) * (y2 - y1)))%float
  | _ => None
  end.

(** The window and tracker used in the worked scenarios: a 1280x720
    viewport and a tracker that accepted (10, 20) at time 16. *)
Definition win0 : Js.Window := Js.mkWindow 1280 720 0.

Definition window0 : option Js.Window := Some win0.

Definition clock0 : Runtime.Clock := Runtime.mkClock 32 1700000000000.

Definition tracker0 : CursorTracker.t :=
  snd (CursorTracker.updatePosition window0 16
         (Js.Number 10) (Js.Number 20) CursorTracker.new).

(** The relation between the version counter and the stored snapshot in
    every tracker reachable from the constructor. *)
Definition version_inv (s : CursorTracker.t) : Prop :=
  match CursorTracker.lastValidState s with
  | None => CursorTracker.stateVersion s = 0%Z
  | Some lv =>
      (CursorTracker.vs_version lv <= CursorTracker.stateVersion s
       <= CursorTracker.vs_version lv + 1)%Z
  end.

(** A concrete [Math] for the worked scenarios: truncated Taylor series
    for [sin] and [cos], repeated multiplication for [pow] with a small
    integer exponent.  The theorems below hold for every [Math]. *)
Definition seriesSin (x : float) : float :=
  (x - x * x * x / 6 + x * x * x * x * x / 120)%float.

Definition seriesCos (x : float) : float :=
  (1 - x * x / 2 + x * x * x * x / 24)%float.

Fixpoint powNat (a : float) (n : nat) : float :=
  match n with
  | O => 1%float
  | S n' => (a * powNat a n')%float
  end.

Definition math0 : Runtime.Math :=
  {| Runtime.sin := seriesSin;
     Runtime.cos := seriesCos;
     Runtime.pow := fun a b => powNat a (Runtime.floor_count b) |}.

(** A [Math.random] that returns 0.5 on every call, and one that cycles
    through 0.0, 0.1, ..., 0.9. *)
Definition rngHalf : Runtime.Rng :=
  Runtime.mkRng (fun _ => 0.5%float) 0.

Definition rngCycle : Runtime.Rng :=
  Runtime.mkRng (fun n => (Runtime.of_nat (n mod 10) / 10)%float) 0.


(** [k] animation frames, 16 ms apart, starting at time [now]. *)
Fixpoint frames (m : Runtime.Math) (now : float) (k : nat)
    (s : MagicalEffectsSystem.t) : MagicalEffectsSystem.t :=
  match k with
  | O => s
  | S k' =>
      frames m (now + 16)%float k' (snd (MagicalEffectsSystem.animate m now s))
  end.


(** The manager's invariant: the limit is the constructor's 50 and the
    list respects it. *)
Definition within_limit (s : EffectManager.t) : Prop :=
  EffectManager.maxEffects s = 50 /\
  List.length (EffectManager.activeEffects s) <= 50.



(** The coordinates an emitter of the manager works with: each
    argument, or the tracker's coordinate in place of an [undefined]
    argument when the manager has a tracker. *)
Definition usedX (win : Js.Window) (tr : option CursorTracker.t)
    (x : Js.Value) : Js.Value :=
  EffectManager.effectCoordinate x
    (option_map CursorTracker.pos_x (fst (EffectManager.readPosition win tr))).

Definition usedY (win : Js.Window) (tr : option CursorTracker.t)
    (y : Js.Value) : Js.Value :=
  EffectManager.effectCoordinate y
    (option_map CursorTracker.pos_y (fst (EffectManager.readPosition win tr))).

(** An emitter call of the manager that the specification calls a
    failure: motion is reduced, or a coordinate the emitter works with
    is rejected (not a number, non-finite, negative, or beyond twice
    the viewport). *)
Definition refused (win : Js.Window) (tr : option CursorTracker.t)
    (s : EffectManager.t) (x y : Js.Value) : Prop :=
  EffectManager.reducedMotion s = true \/
  rejected_coordinate (Js.innerWidth win * 2)%float (usedX win tr x) \/
  rejected_coordinate (Js.innerHeight win * 2)%float (usedY win tr y).

(** A particle system built with the default options while motion is
    allowed, and the same system after the reduced-motion preference
    switched on. *)
Definition particles0 : ParticleSystem.t :=
  fst (ParticleSystem.new win0 None false rngHalf).

Definition particlesReduced : ParticleSystem.t :=
  fst (Runtime.bind (ParticleSystem.new win0 None false)
         (ParticleSystem.onMotionChange true) rngHalf).

(** The particles a click at (100, 100) creates. *)
Definition clickAt100 : list MagicalEffectsSystem.Effect :=
  fst (MagicalEffectsSystem.clickParticles math0 100 100 rngHalf).

(** The successive values of [life] that [updateEffect] gives an effect,
    up to and including the first one that ends it, or [n] frames. *)
Fixpoint lifeTrace (m : Runtime.Math) (now : float) (n : nat)
    (e : MagicalEffectsSystem.Effect) : list float :=
  match n with
  | O => []
  | S n' =>
      let (e', alive) := MagicalEffectsSystem.updateEffect m now e in
      MagicalEffectsSystem.life e' ::
      (if alive then lifeTrace m now n' e' else [])
  end.

Fixpoint strictlyDecreasing (l : list float) : bool :=
  match l with
  | a :: (b :: _) as rest => Js.lt b a && strictlyDecreasing rest
  | _ => true
  end.

End Spec.

(** ** Invariants of the objects reached through their methods *)

Module Invariants.

(** A tracker whose live state agrees with its stored snapshot: with a
    snapshot it is initialized and position, previous position and
    velocity are the snapshot's; without one it is at the origin.  The
    version is never negative. *)
Definition settled (s : CursorTracker.t) : Prop :=
  (0 <= CursorTracker.stateVersion s)%Z /\
  match CursorTracker.lastValidState s with
  | Some lv =>
      CursorTracker.isInitialized s = true /\
      CursorTracker.vs_x lv = CursorTracker.mouseX s /\
      CursorTracker.vs_y lv = CursorTracker.mouseY s /\
      CursorTracker.vs_previousX lv = CursorTracker.previousX s /\
      CursorTracker.vs_previousY lv = CursorTracker.previousY s /\
      CursorTracker.vs_velocity lv = CursorTracker.velocity s /\
      (0 <= CursorTracker.vs_version lv)%Z
  | None =>
      CursorTracker.isInitialized s = false /\
      CursorTracker.mouseX s = 0%float /\
      CursorTracker.mouseY s = 0%float /\
      CursorTracker.previousX s = 0%float /\
      CursorTracker.previousY s = 0%float /\
      CursorTracker.velocity s = CursorTracker.mkVelocity 0 0
  end.

(** Current and previous position pass [isValidPosition]. *)
Definition wellPlaced (w : option Js.Window) (s : CursorTracker.t) : Prop :=
  CursorTracker.isValidPosition w
    (Js.Number (CursorTracker.mouseX s)) (Js.Number (CursorTracker.mouseY s)) = true /\
  CursorTracker.isValidPosition w
    (Js.Number (CursorTracker.previousX s)) (Js.Number (CursorTracker.previousY s)) = true.

(** A run in which every call reads the viewport as it is at that
    moment: each operation comes with the [window] its
    [isValidPosition] sees. *)
Definition runIn (wops : list (option Js.Window * CursorTracker.Op))
    (s : CursorTracker.t) : CursorTracker.t :=
  fold_left (fun acc wo => CursorTracker.step (fst wo) (snd wo) acc) wops s.

(** The viewport [w'] is not smaller than [w]: every position that
    [isValidPosition] accepts when it reads [w] it accepts when it reads
    [w']. *)
Definition notSmaller (w w' : option Js.Window) : Prop :=
  forall x y,
    CursorTracker.isValidPosition w x y = true ->
    CursorTracker.isValidPosition w' x y = true.

(** The velocity test of [validateState]. *)
Definition extremeVelocity (s : CursorTracker.t) : bool :=
  Js.gt (PrimFloat.abs (CursorTracker.vel_x (CursorTracker.velocity s))) 10 ||
  Js.gt (PrimFloat.abs (CursorTracker.vel_y (CursorTracker.velocity s))) 10.

(** The sequence numbers of the ids in [activeEffects], in list order. *)
Definition counters (l : list EffectManager.Effect) : list Z :=
  List.map (fun e => EffectManager.id_counter (EffectManager.id e)) l.

(** Strictly increasing, hence pairwise different. *)
Fixpoint increasing (l : list Z) : Prop :=
  match l with
  | [] => True
  | a :: rest => Forall (fun b => (a < b)%Z) rest /\ increasing rest
  end.

(** The ids of a manager: issued in list order, none above the counter. *)
Definition ids_ordered (s : EffectManager.t) : Prop :=
  increasing (counters (EffectManager.activeEffects s)) /\
  Forall (fun c => (c <= EffectManager.effectIdCounter s)%Z)
         (counters (EffectManager.activeEffects s)).

(** Every effect of the list is active and is a ripple or a sparkle. *)
Definition all_live (s : EffectManager.t) : Prop :=
  Forall (fun e => EffectManager.isActive e = true /\
                   (EffectManager.type e = "ripple" \/
                    EffectManager.type e = "sparkle"))
         (EffectManager.activeEffects s).

(** The manager's invariant: ordered ids and live effects. *)
Definition managed (s : EffectManager.t) : Prop :=
  ids_ordered s /\ all_live s.

(** A list obtained from another by dropping effects and rewriting the
    kept ones without touching their id, type and [isActive] flag. *)
Inductive thinned : list EffectManager.Effect -> list EffectManager.Effect -> Prop :=
| thinned_nil : thinned [] []
| thinned_drop e l l' : thinned l l' -> thinned (e :: l) l'
| thinned_keep e e' l l' :
    EffectManager.id e' = EffectManager.id e ->
    EffectManager.type e' = EffectManager.type e ->
    EffectManager.isActive e' = EffectManager.isActive e ->
    thinned l l' -> thinned (e :: l) (e' :: l').

(** The particles of a [ParticleSystem]: as many as [particleCount],
    each with life 1. *)
Definition particles_steady (s : ParticleSystem.t) : Prop :=
  List.length (ParticleSystem.particles s) = ParticleSystem.particleCount s /\
  Forall (fun p => ParticleSystem.life p = 1%float) (ParticleSystem.particles s).

(** The sparkles of a [ScreenSparklesSystem]: the configured count is 0
    under reduced motion and 12 otherwise, the list is empty under
    reduced motion and never longer than 22. *)
Definition sparkles_bounded (s : ScreenSparklesSystem.t) : Prop :=
  ScreenSparklesSystem.sparkleCount s =
    (if ScreenSparklesSystem.reducedMotion s then 0 else 12) /\
  (ScreenSparklesSystem.reducedMotion s = true ->
   ScreenSparklesSystem.sparkles s = []) /\
  List.length (ScreenSparklesSystem.sparkles s) <= 22.

(** Every number [Math.random()] returns is in [0, 1). *)
Definition unitDraws (r : Runtime.Rng) : Prop :=
  forall n,
    Js.ge (Runtime.draws r n) 0 = true /\ Js.lt (Runtime.draws r n) 1 = true.

(** A particle in the course of its life: [life] in (0, 1] and
    [maxLife] between 1 and 256. *)
Definition lively (e : MagicalEffectsSystem.Effect) : bool :=
  Js.gt (MagicalEffectsSystem.life e) 0 &&
  Js.le (MagicalEffectsSystem.life e) 1 &&
  Js.ge (MagicalEffectsSystem.maxLife e) 1 &&
  Js.le (MagicalEffectsSystem.maxLife e) 256.

(** Every particle of the list is in the course of its life. *)
Definition all_lively (s : MagicalEffectsSystem.t) : Prop :=
  Forall (fun e => lively e = true) (MagicalEffectsSystem.effects s).

(** Whether a particle carries the substring [-click] in its type. *)
Definition isClick (e : MagicalEffectsSystem.Effect) : bool :=
  Runtime.includes "-click" (MagicalEffectsSystem.type e).

(** The pair ([active], [life]) of a cursor sparkle after one
    [updateSparkle], which does not depend on [Math.random()]. *)
Definition lifeStep (al : bool * float) : bool * float :=
  let (a, l) := al in
  if a then
    let l' := (l - 1)%float in
    if Js.le l' 0 then (false, l') else (true, l')
  else (a, l).

Fixpoint lifeSteps (n : nat) (al : bool * float) : list bool :=
  match n with
  | O => []
  | S n' => fst (lifeStep al) :: lifeSteps n' (lifeStep al)
  end.

(** The [active] flag of a cursor sparkle after each of [n] successive
    [updateSparkle] calls. *)
Fixpoint activeTrace (n : nat) (sp : CuteCursor.Sparkle) :
    Runtime.Rand (list bool) :=
  match n with
  | O => Runtime.ret []
  | S n' =>
      Runtime.bind (CuteCursor.updateSparkle sp) (fun sp' =>
      Runtime.bind (activeTrace n' sp') (fun l =>
      Runtime.ret (CuteCursor.active sp' :: l)))
  end.

End Invariants.

(** * Verification *)

(** ** Comparison of doubles *)

Lemma SFcompare_Lt_swap (a b : spec_float) :
  SFcompare a b = Some Lt -> SFcompare b a = Some Gt.
Proof.
  destruct a as [sa|sa| |sa ma ea], b as [sb|sb| |sb mb eb]; simpl;
    try discriminate; try (destruct sa; discriminate);
    try (destruct sb; discriminate);
    try (destruct sa, sb; simpl; congruence).
  pose proof (Pos.compare_cont_antisym ma mb Eq) as H; simpl in H.
  destruct sa, sb; try discriminate; try reflexivity;
    rewrite (Z.compare_antisym ea eb); destruct (ea ?= eb)%Z; simpl;
    try discriminate; try reflexivity;
    rewrite <- H;
    destruct (Pos.compare_cont Eq ma mb); simpl; congruence.
Qed.

(** [a < b] excludes [b <= a], also for infinities; [NaN] satisfies
    neither. *)
Lemma ltb_not_leb (a b : float) :
  (a <? b)%float = true -> (b <=? a)%float = false.
Proof.
  rewrite ltb_spec, leb_spec. unfold SFltb, SFleb.
  destruct (SFcompare (Prim2SF a) (Prim2SF b)) as [[]|] eqn:E;
    try discriminate.
  intros _. now rewrite (SFcompare_Lt_swap _ _ E).
Qed.

(** ** Doubles: rounding, and the arithmetic of [life] and [maxLife] *)

Section Rounding.

Local Open Scope Z_scope.

Lemma digits2_bounds (p : positive) :
  2 ^ (Z.pos (digits2_pos p) - 1) <= Z.pos p < 2 ^ Z.pos (digits2_pos p).
Proof.
  induction p as [p IH|p IH|]; cbn [digits2_pos].
  - rewrite Pos2Z.inj_succ.
    replace (Z.succ (Z.pos (digits2_pos p)) - 1) with (Z.pos (digits2_pos p)) by lia.
    rewrite Z.pow_succ_r by lia.
    replace (Z.pos (digits2_pos p)) with (Z.succ (Z.pos (digits2_pos p) - 1)) at 1 by lia.
    rewrite Z.pow_succ_r by lia. lia.
  - rewrite Pos2Z.inj_succ.
    replace (Z.succ (Z.pos (digits2_pos p)) - 1) with (Z.pos (digits2_pos p)) by lia.
    rewrite Z.pow_succ_r by lia.
    replace (Z.pos (digits2_pos p)) with (Z.succ (Z.pos (digits2_pos p) - 1)) at 1 by lia.
    rewrite Z.pow_succ_r by lia. lia.
  - cbn. lia.
Qed.

Lemma shr_1_m (mrs : shr_record) :
  0 <= shr_m mrs -> shr_m (shr_1 mrs) = shr_m mrs / 2.
Proof.
  destruct mrs as [m r s]. cbn [shr_m]. intros H.
  destruct m as [|p|p]; [reflexivity| |lia].
  destruct p as [p|p|]; cbn [shr_1 shr_m].
  - rewrite Pos2Z.inj_xI. apply Z.div_unique with (r := 1); lia.
  - rewrite Pos2Z.inj_xO. apply Z.div_unique with (r := 0); lia.
  - reflexivity.
Qed.

Lemma iter_shr_1_m (p : positive) (mrs : shr_record) :
  0 <= shr_m mrs ->
  shr_m (SpecFloat.iter_pos shr_1 p mrs) = shr_m mrs / 2 ^ Z.pos p.
Proof.
  revert mrs. induction p as [p IH|p IH|]; intros mrs H; cbn [SpecFloat.iter_pos].
  - assert (H1 : 0 <= shr_m (shr_1 mrs))
      by (rewrite shr_1_m by exact H; apply Z.div_pos; lia).
    assert (H2 : 0 <= shr_m (SpecFloat.iter_pos shr_1 p (shr_1 mrs)))
      by (rewrite IH by exact H1; apply Z.div_pos; lia).
    rewrite IH by exact H2. rewrite IH by exact H1. rewrite shr_1_m by exact H.
    rewrite !Z.div_div by lia. f_equal.
    replace (Z.pos p~1) with (1 + Z.pos p + Z.pos p) by lia.
    rewrite !Z.pow_add_r by lia. change (2 ^ 1) with 2. ring.
  - assert (H2 : 0 <= shr_m (SpecFloat.iter_pos shr_1 p mrs))
      by (rewrite IH by exact H; apply Z.div_pos; lia).
    rewrite IH by exact H2. rewrite IH by exact H.
    rewrite !Z.div_div by lia. f_equal.
    replace (Z.pos p~0) with (Z.pos p + Z.pos p) by lia.
    rewrite Z.pow_add_r by lia. ring.
  - rewrite shr_1_m by exact H. reflexivity.
Qed.


Lemma shr_record_of_loc_m (m : Z) (l : location) :
  shr_m (shr_record_of_loc m l) = m.
Proof. destruct l as [|c]; [|destruct c]; reflexivity. Qed.

Lemma shr_fexp_m (m e : Z) (l : location) :
  0 <= m ->
  let e' := Z.max e (fexp prec emax (Zdigits2 m + e)) in
  snd (shr_fexp prec emax m e l) = e' /\
  shr_m (fst (shr_fexp prec emax m e l)) = m / 2 ^ (e' - e).
Proof.
  intros Hm. cbv zeta. unfold shr_fexp, shr.
  destruct (fexp prec emax (Zdigits2 m + e) - e) as [|p|p] eqn:E;
    cbn [fst snd].
  - replace (Z.max e (fexp prec emax (Zdigits2 m + e))) with e by lia.
    rewrite Z.sub_diag, Z.div_1_r. split; [reflexivity|].
    apply shr_record_of_loc_m.
  - replace (Z.max e (fexp prec emax (Zdigits2 m + e))) with (e + Z.pos p) by lia.
    split; [reflexivity|].
    rewrite iter_shr_1_m by (rewrite shr_record_of_loc_m; exact Hm).
    rewrite shr_record_of_loc_m. f_equal. f_equal. lia.
  - replace (Z.max e (fexp prec emax (Zdigits2 m + e))) with e by lia.
    rewrite Z.sub_diag, Z.div_1_r. split; [reflexivity|].
    apply shr_record_of_loc_m.
Qed.

Lemma round_nearest_even_bounds (m : Z) (l : location) :
  m <= round_nearest_even m l <= m + 1.
Proof.
  destruct l as [|[| |]]; cbn [round_nearest_even]; try lia.
  destruct (Z.even m); lia.
Qed.

(** The shape of a rounding: a first shift to the target exponent, a
    step of at most one unit, a second shift. *)
Lemma binary_round_aux_shape (sx : bool) (mx ex : Z) (lx : location) :
  0 <= mx ->
  exists m2 : Z,
    let e1 := Z.max ex (fexp prec emax (Zdigits2 mx + ex)) in
    let e2 := Z.max e1 (fexp prec emax (Zdigits2 m2 + e1)) in
    mx / 2 ^ (e1 - ex) <= m2 <= mx / 2 ^ (e1 - ex) + 1 /\
    binary_round_aux prec emax sx mx ex lx =
      match m2 / 2 ^ (e2 - e1) with
      | Z0 => S754_zero sx
      | Zpos p =>
          if e2 <=? emax - prec then S754_finite sx p e2
          else S754_infinity sx
      | Zneg _ => S754_nan
      end.
Proof.
  intros Hm. unfold binary_round_aux.
  destruct (shr_fexp_m mx ex lx Hm) as [He1 Hm1].
  destruct (shr_fexp prec emax mx ex lx) as [mrs' e'].
  cbn [fst snd] in He1, Hm1. subst e'.
  set (e1 := Z.max ex (fexp prec emax (Zdigits2 mx + ex))) in *.
  set (m2 := round_nearest_even (shr_m mrs') (loc_of_shr_record mrs')).
  pose proof (round_nearest_even_bounds (shr_m mrs') (loc_of_shr_record mrs'))
    as Hb. fold m2 in Hb. rewrite Hm1 in Hb.
  assert (H2 : 0 <= m2).
  { assert (0 <= mx / 2 ^ (e1 - ex)) by (apply Z.div_pos; [lia|apply Z.pow_pos_nonneg; lia]).
    lia. }
  destruct (shr_fexp_m m2 e1 loc_Exact H2) as [He2 Hm3].
  destruct (shr_fexp prec emax m2 e1 loc_Exact) as [mrs'' e''].
  cbn [fst snd] in He2, Hm3. subst e''.
  exists m2. cbv zeta. split; [exact Hb|].
  rewrite Hm3. reflexivity.
Qed.

End Rounding.

Section Values.

Local Open Scope R_scope.

Import Doubles.

Lemma bpow_pos (e : Z) : 0 < bpow e.
Proof. apply powerRZ_lt. lra. Qed.

Lemma bpow_add (a b : Z) : bpow (a + b) = bpow a * bpow b.
Proof. apply powerRZ_add. lra. Qed.

Lemma bpow_succ (e : Z) : bpow (e + 1) = 2 * bpow e.
Proof. rewrite bpow_add. change (bpow 1) with (2 * 1). ring. Qed.

Lemma bpow_IZR (n : Z) : (0 <= n)%Z -> bpow n = IZR (2 ^ n).
Proof.
  intros H. unfold bpow. rewrite <- (Z2Nat.id n H).
  rewrite <- pow_powerRZ. apply pow_IZR.
Qed.

Lemma bpow_le (a b : Z) : (a <= b)%Z -> bpow a <= bpow b.
Proof.
  intros H. replace b with (a + (b - a))%Z by lia. rewrite bpow_add.
  assert (1 <= bpow (b - a)).
  { rewrite bpow_IZR by lia. apply IZR_le.
    assert (0 < 2 ^ (b - a))%Z by (apply Z.pow_pos_nonneg; lia). lia. }
  pose proof (bpow_pos a). nra.
Qed.

Lemma bpow_lt (a b : Z) : (a < b)%Z -> bpow a < bpow b.
Proof.
  intros H. replace b with (a + 1 + (b - a - 1))%Z by lia.
  rewrite !bpow_add.
  assert (1 <= bpow (b - a - 1)).
  { rewrite bpow_IZR by lia. apply IZR_le.
    assert (0 < 2 ^ (b - a - 1))%Z by (apply Z.pow_pos_nonneg; lia). lia. }
  pose proof (bpow_pos a). change (bpow 1) with (2 * 1). nra.
Qed.

Lemma bpow_lt_inv (a b : Z) : bpow a < bpow b -> (a < b)%Z.
Proof.
  intros H. destruct (Z_lt_le_dec a b) as [Hl|Hl]; [exact Hl|].
  apply bpow_le in Hl. lra.
Qed.

Lemma bpow_le_inv (a b : Z) : bpow a <= bpow b -> (a <= b)%Z.
Proof.
  intros H. destruct (Z_lt_le_dec b a) as [Hl|Hl]; [|exact Hl].
  apply bpow_lt in Hl. lra.
Qed.

(** Shifting right by [n] bits loses less than one unit of the new
    last place. *)
Lemma shift_bounds (m e n : Z) :
  (0 <= n)%Z ->
  IZR (m / 2 ^ n) * bpow (e + n) <= IZR m * bpow e /\
  IZR m * bpow e < (IZR (m / 2 ^ n) + 1) * bpow (e + n).
Proof.
  intros Hn. rewrite bpow_add, (bpow_IZR n Hn).
  assert (Hp : (0 < 2 ^ n)%Z) by (apply Z.pow_pos_nonneg; lia).
  pose proof (Z.mul_div_le m (2 ^ n) Hp) as H1.
  pose proof (Z.mul_succ_div_gt m (2 ^ n) Hp) as H2.
  apply IZR_le in H1. apply IZR_lt in H2.
  rewrite mult_IZR in H1. rewrite mult_IZR, succ_IZR in H2.
  pose proof (bpow_pos e). split; nra.
Qed.


Lemma fexp_mono (a b : Z) :
  (a <= b)%Z -> (fexp prec emax a <= fexp prec emax b)%Z.
Proof. unfold fexp, emin. lia. Qed.

Lemma fexp_eq (a : Z) : fexp prec emax a = Z.max (a - 53) (-1074).
Proof. reflexivity. Qed.

(** A positive integer reaches the power of two below its length. *)
Lemma digits_bpow (p : positive) :
  bpow (Z.pos (digits2_pos p) - 1) <= IZR (Z.pos p) /\
  IZR (Z.pos p) < bpow (Z.pos (digits2_pos p)).
Proof.
  destruct (digits2_bounds p) as [H1 H2].
  rewrite !bpow_IZR by lia. split; [now apply IZR_le | now apply IZR_lt].
Qed.

(** What a rounding returns, with the real numbers it lies between. *)
Lemma binary_round_aux_bounds (sx : bool) (mx ex : Z) (lx : location) :
  (0 <= mx)%Z ->
  exists m3 e1 e2 : Z,
    e1 = Z.max ex (fexp prec emax (Zdigits2 mx + ex)) /\
    (e1 <= e2)%Z /\ (0 <= m3)%Z /\
    (forall k, IZR mx * bpow ex + bpow e1 <= bpow k ->
               (e2 <= Z.max e1 (fexp prec emax (k + 1)))%Z) /\
    IZR m3 * bpow e2 <= IZR mx * bpow ex + bpow e1 /\
    IZR mx * bpow ex - bpow e1 - bpow e2 < IZR m3 * bpow e2 /\
    binary_round_aux prec emax sx mx ex lx =
      match m3 with
      | Z0 => S754_zero sx
      | Zpos p =>
          if (e2 <=? emax - prec)%Z then S754_finite sx p e2
          else S754_infinity sx
      | Zneg _ => S754_nan
      end.
Proof.
  intros Hm.
  destruct (binary_round_aux_shape sx mx ex lx Hm) as (m2 & Hb & Hres).
  cbv zeta in Hb, Hres.
  set (e1 := Z.max ex (fexp prec emax (Zdigits2 mx + ex))) in *.
  set (e2 := Z.max e1 (fexp prec emax (Zdigits2 m2 + e1))) in *.
  set (m1 := (mx / 2 ^ (e1 - ex))%Z) in *.
  assert (Hm1 : (0 <= m1)%Z)
    by (apply Z.div_pos; [lia | apply Z.pow_pos_nonneg; lia]).
  assert (Hm2 : (0 <= m2)%Z) by lia.
  destruct (shift_bounds mx ex (e1 - ex)) as [S1 S2]; [lia|].
  replace (ex + (e1 - ex))%Z with e1 in S1, S2 by lia. fold m1 in S1, S2.
  destruct (shift_bounds m2 e1 (e2 - e1)) as [S3 S4]; [lia|].
  replace (e1 + (e2 - e1))%Z with e2 in S3, S4 by lia.
  assert (B1 : IZR m1 <= IZR m2 <= IZR m1 + 1).
  { destruct Hb as [Hb1 Hb2]. apply IZR_le in Hb1, Hb2.
    rewrite plus_IZR in Hb2. lra. }
  pose proof (bpow_pos e1) as P1. pose proof (bpow_pos e2) as P2.
  assert (U2 : IZR m2 * bpow e1 <= IZR mx * bpow ex + bpow e1) by nra.
  exists (m2 / 2 ^ (e2 - e1))%Z, e1, e2.
  split; [reflexivity|]. split; [lia|]. split.
  { apply Z.div_pos; [lia | apply Z.pow_pos_nonneg; lia]. }
  split.
  { intros k Hk. apply Z.max_lub; [lia|].
    etransitivity; [|apply Z.le_max_r]. apply fexp_mono.
    destruct m2 as [|p|p]; [| |lia].
    - cbn [Zdigits2].
      assert (bpow e1 <= bpow k).
      { assert (0 <= IZR mx * bpow ex)
          by (apply Rmult_le_pos; [now apply IZR_le | apply Rlt_le, bpow_pos]).
        lra. }
      apply bpow_le_inv in H. lia.
    - cbn [Zdigits2]. destruct (digits_bpow p) as [D1 _].
      assert (bpow (Z.pos (digits2_pos p) - 1 + e1) <= bpow k).
      { rewrite bpow_add. nra. }
      apply bpow_le_inv in H. lia. }
  split; [nra|]. split; [nra|]. exact Hres.
Qed.

Lemma bounded_facts (m : positive) (e : Z) :
  SpecFloat.bounded prec emax m e = true ->
  (Z.pos (digits2_pos m) <= 53)%Z /\ (-1074 <= e <= 971)%Z /\
  ((-1074 < e)%Z -> Z.pos (digits2_pos m) = 53%Z).
Proof.
  unfold SpecFloat.bounded, canonical_mantissa. rewrite fexp_eq.
  intros H. apply andb_prop in H as [H1 H2].
  apply Z.eqb_eq in H1. apply Z.leb_le in H2.
  change (emax - prec)%Z with 971%Z in H2. lia.
Qed.

(** On valid positive doubles the comparison of [SFcompare] is the
    comparison of the reals they stand for. *)
Lemma compare_values (m1 : positive) (e1 : Z) (m2 : positive) (e2 : Z) :
  SpecFloat.bounded prec emax m1 e1 = true ->
  SpecFloat.bounded prec emax m2 e2 = true ->
  match SFcompare (S754_finite false m1 e1) (S754_finite false m2 e2) with
  | Some Lt => value (S754_finite false m1 e1) < value (S754_finite false m2 e2)
  | Some Eq => value (S754_finite false m1 e1) = value (S754_finite false m2 e2)
  | Some Gt => value (S754_finite false m2 e2) < value (S754_finite false m1 e1)
  | None => False
  end.
Proof.
  intros B1 B2.
  destruct (bounded_facts m1 e1 B1) as (D1 & R1 & N1).
  destruct (bounded_facts m2 e2 B2) as (D2 & R2 & N2).
  destruct (digits_bpow m1) as [L1 U1]. destruct (digits_bpow m2) as [L2 U2].
  pose proof (bpow_pos e1) as P1. pose proof (bpow_pos e2) as P2.
  assert (U1' : IZR (Z.pos m1) < bpow 53)
    by (eapply Rlt_le_trans; [exact U1 | apply bpow_le; lia]).
  assert (U2' : IZR (Z.pos m2) < bpow 53)
    by (eapply Rlt_le_trans; [exact U2 | apply bpow_le; lia]).
  cbn [SFcompare value]. fold (bpow e1) (bpow e2).
  destruct (Z.compare_spec e1 e2) as [He|He|He].
  - subst e2. rewrite Pos.compare_cont_spec.
    destruct (Pos.compare_spec m1 m2) as [Hm|Hm|Hm]; cbn.
    + now subst.
    + apply Pos2Z.pos_lt_pos, IZR_lt in Hm. nra.
    + apply Pos2Z.pos_lt_pos, IZR_lt in Hm. nra.
  - rewrite (N2 ltac:(lia)) in L2.
    assert (bpow (e1 + 1) <= bpow e2) by (apply bpow_le; lia).
    rewrite bpow_succ in H.
    change 53%Z with (52 + 1)%Z in U1'. rewrite bpow_succ in U1'.
    change (53 - 1)%Z with 52%Z in L2.
    pose proof (bpow_pos 52). nra.
  - rewrite (N1 ltac:(lia)) in L1.
    assert (bpow (e2 + 1) <= bpow e1) by (apply bpow_le; lia).
    rewrite bpow_succ in H.
    change 53%Z with (52 + 1)%Z in U2'. rewrite bpow_succ in U2'.
    change (53 - 1)%Z with 52%Z in L1.
    pose proof (bpow_pos 52). nra.
Qed.


Lemma iter_xO (m d : positive) :
  Z.pos (Pos.iter xO m d) = (Z.pos m * 2 ^ Z.pos d)%Z.
Proof.
  induction d as [|d IH] using Pos.peano_ind.
  - cbn [Pos.iter]. rewrite Pos2Z.inj_xO. change (2 ^ 1)%Z with 2%Z. lia.
  - rewrite Pos.iter_succ, Pos2Z.inj_xO, IH, Pos2Z.inj_succ.
    rewrite Z.pow_succ_r by lia. ring.
Qed.

(** [shl_align] lowers the exponent to the requested one without
    changing the number. *)
Lemma shl_align_spec (mx : positive) (ex ex' : Z) :
  snd (shl_align mx ex ex') = Z.min ex ex' /\
  IZR (Z.pos (fst (shl_align mx ex ex'))) * bpow (Z.min ex ex') =
    IZR (Z.pos mx) * bpow ex.
Proof.
  unfold shl_align. destruct (ex' - ex)%Z as [|d|d] eqn:E; cbn [fst snd].
  - replace (Z.min ex ex') with ex by lia. split; reflexivity.
  - replace (Z.min ex ex') with ex by lia. split; reflexivity.
  - replace (Z.min ex ex') with ex' by lia. split; [reflexivity|].
    rewrite iter_xO, mult_IZR, <- bpow_IZR by lia.
    rewrite Rmult_assoc, <- bpow_add. f_equal. f_equal. lia.
Qed.

Lemma value_finite (m : positive) (e : Z) :
  value (S754_finite false m e) = IZR (Z.pos m) * bpow e.
Proof. reflexivity. Qed.

(** A valid positive double that is at most 1 has an exponent of at
    most -52. *)
Lemma exponent_le_1 (m : positive) (e : Z) :
  SpecFloat.bounded prec emax m e = true ->
  IZR (Z.pos m) * bpow e <= 1 -> (e <= -52)%Z.
Proof.
  intros B H. destruct (bounded_facts m e B) as (_ & _ & N).
  destruct (Z_le_gt_dec e (-52)) as [Hl|Hg]; [exact Hl|].
  destruct (digits_bpow m) as [L _]. rewrite (N ltac:(lia)) in L.
  change (53 - 1)%Z with 52%Z in L.
  assert (bpow (52 + e) <= bpow 0).
  { rewrite bpow_add. pose proof (bpow_pos e). change (bpow 0) with 1. nra. }
  apply bpow_le_inv in H0. lia.
Qed.

(** A rounded number keeps the sign it was given. *)
Lemma binary_round_aux_sign (sx : bool) (mx ex : Z) (lx : location) :
  (0 <= mx)%Z ->
  match binary_round_aux prec emax sx mx ex lx with
  | S754_zero s | S754_infinity s | S754_finite s _ _ => s = sx
  | S754_nan => False
  end.
Proof.
  intros Hm.
  destruct (binary_round_aux_bounds sx mx ex lx Hm)
    as (m3 & e1 & e2 & _ & _ & H3 & _ & _ & _ & ->).
  destruct m3 as [|p|p]; [reflexivity| |lia].
  destruct (e2 <=? emax - prec)%Z; reflexivity.
Qed.

(** Subtracting a double of at least [2^-9] from a positive double of at
    most 1 gives a smaller double. *)
Lemma SFsub_smaller (ma : positive) (ea : Z) (md : positive) (ed : Z) :
  SpecFloat.bounded prec emax ma ea = true ->
  IZR (Z.pos ma) * bpow ea <= 1 ->
  bpow (-9) <= IZR (Z.pos md) * bpow ed ->
  valid_binary
    (SFsub prec emax (S754_finite false ma ea) (S754_finite false md ed)) = true ->
  SFltb (SFsub prec emax (S754_finite false ma ea) (S754_finite false md ed))
        (S754_finite false ma ea) = true.
Proof.
  intros Ba Ha Hd Hv. revert Hv. cbn [SFsub cond_Zopp].
  set (ez := Z.min ea ed).
  destruct (shl_align_spec ma ea ez) as [_ Va].
  destruct (shl_align_spec md ed ez) as [_ Vd].
  replace (Z.min ea ez) with ez in Va by lia.
  replace (Z.min ed ez) with ez in Vd by lia.
  set (A := Z.pos (fst (shl_align ma ea ez))) in *.
  set (D := Z.pos (fst (shl_align md ed ez))) in *.
  pose proof (exponent_le_1 ma ea Ba Ha) as Hea.
  assert (VM : IZR (A - D) * bpow ez =
               IZR (Z.pos ma) * bpow ea - IZR (Z.pos md) * bpow ed)
    by (rewrite minus_IZR; lra).
  destruct (A - D)%Z as [|p|p] eqn:EM; cbn [binary_normalize].
  - intros _. reflexivity.
  - unfold binary_round.
    destruct (shl_align_spec p ez (fexp prec emax (Z.pos (digits2_pos p) + ez)))
      as [Hez' Vz].
    destruct (shl_align p ez (fexp prec emax (Z.pos (digits2_pos p) + ez)))
      as [mz ez'].
    cbn [fst snd] in Hez', Vz. rewrite <- Hez' in Vz.
    destruct (binary_round_aux_bounds false (Z.pos mz) ez' loc_Exact)
      as (m3 & e1 & e2 & He1 & H12 & H3 & Hk & Up & _ & ->); [lia|].
    assert (X1 : IZR (Z.pos mz) * bpow ez' < 1).
    { rewrite Vz, VM. pose proof (bpow_pos (-9)). lra. }
    assert (Dz : (Zdigits2 (Z.pos mz) + ez' <= 0)%Z).
    { cbn [Zdigits2]. destruct (digits_bpow mz) as [L _].
      assert (bpow (Z.pos (digits2_pos mz) - 1 + ez') < bpow 0).
      { rewrite bpow_add. pose proof (bpow_pos ez').
        change (bpow 0) with 1. nra. }
      apply bpow_lt_inv in H. lia. }
    assert (E1 : (e1 <= -52)%Z).
    { rewrite He1. apply Z.max_lub; [lia|].
      rewrite fexp_eq. lia. }
    assert (B1 : bpow e1 <= bpow (-52)) by (apply bpow_le; exact E1).
    assert (E2 : (e2 <= -51)%Z).
    { specialize (Hk 1%Z). rewrite fexp_eq in Hk. cbn in Hk.
      assert (IZR (Z.pos mz) * bpow ez' + bpow e1 <= bpow 1).
      { change (bpow 1) with (2 * 1). 
        assert (bpow (-52) <= bpow 0) by (apply bpow_le; lia).
        change (bpow 0) with 1 in H. lra. }
      specialize (Hk H). lia. }
    assert (Small : bpow (-52) < bpow (-9)) by (apply bpow_lt; lia).
    destruct m3 as [|p3|p3]; [intros _; reflexivity| |lia].
    replace (e2 <=? emax - prec)%Z with true
      by (symmetry; apply Z.leb_le; change (emax - prec)%Z with 971%Z; lia).
    cbn [valid_binary]. intros Bv.
    pose proof (compare_values p3 e2 ma ea Bv Ba) as C.
    rewrite !value_finite in C. unfold SFltb.
    destruct (SFcompare (S754_finite false p3 e2) (S754_finite false ma ea))
      as [[| |]|]; [exfalso; lra | reflexivity | exfalso; lra | contradiction].
  - intros _. unfold binary_round.
    destruct (shl_align p ez (fexp prec emax (Z.pos (digits2_pos p) + ez)))
      as [mz ez'].
    pose proof (binary_round_aux_sign true (Z.pos mz) ez' loc_Exact ltac:(lia))
      as Hs.
    destruct (binary_round_aux prec emax true (Z.pos mz) ez' loc_Exact)
      as [s|s| |s m e]; try subst s; try reflexivity. contradiction.
Qed.


Lemma value_one : IZR 4503599627370496 * bpow (-52) = 1.
Proof.
  change 4503599627370496%Z with (2 ^ 52)%Z.
  rewrite <- bpow_IZR, <- bpow_add by lia. reflexivity.
Qed.

Lemma value_256 : IZR 4503599627370496 * bpow (-44) = bpow 8.
Proof.
  change 4503599627370496%Z with (2 ^ 52)%Z.
  rewrite <- bpow_IZR, <- bpow_add by lia. reflexivity.
Qed.

(** The double [1 / y] for a valid double [y] between 1 and 256 is a
    positive double of at least [2^-9]. *)
Lemma SFdiv_one_lower (my : positive) (ey : Z) :
  SpecFloat.bounded prec emax my ey = true ->
  1 <= IZR (Z.pos my) * bpow ey ->
  IZR (Z.pos my) * bpow ey <= bpow 8 ->
  exists md ed,
    SFdiv prec emax (S754_finite false 4503599627370496 (-52))
                    (S754_finite false my ey) = S754_finite false md ed /\
    bpow (-9) <= IZR (Z.pos md) * bpow ed.
Proof.
  intros B Hl Hu.
  destruct (bounded_facts my ey B) as (D53 & _ & _).
  destruct (digits_bpow my) as [L U].
  set (pd := digits2_pos my) in *.
  set (d2 := Z.pos pd) in *.
  assert (Ed2 : d2 = Z.pos pd) by reflexivity.
  pose proof (bpow_pos ey) as Pey.
  assert (Dlo : (1 <= d2 + ey)%Z).
  { assert (bpow 0 < bpow (d2 + ey)).
    { rewrite bpow_add. change (bpow 0) with 1. nra. }
    apply bpow_lt_inv in H. lia. }
  assert (Dhi : (d2 + ey <= 9)%Z).
  { assert (bpow (d2 - 1 + ey) <= bpow 8).
    { rewrite bpow_add. nra. }
    apply bpow_le_inv in H. lia. }
  assert (Hd2 : (1 <= d2)%Z) by lia.
  clearbody d2.
  cbn [SFdiv xorb]. unfold SFdiv_core_binary.
  change (Zdigits2 (Z.pos 4503599627370496)) with 53%Z.
  cbn [Zdigits2]. fold pd. rewrite <- Ed2.
  rewrite fexp_eq.
  replace (Z.min (Z.max (53 + -52 - (d2 + ey) - 53) (-1074)) (-52 - ey))
    with (-52 - (d2 + ey))%Z by lia.
  replace (-52 - ey - (-52 - (d2 + ey)))%Z with (Z.pos pd) by lia.
  set (e' := (-52 - (d2 + ey))%Z).
  replace (Z.shiftl 4503599627370496 (Z.pos pd))
    with (2 ^ 52 * 2 ^ d2)%Z
    by (rewrite Z.shiftl_mul_pow2 by lia; rewrite Ed2; reflexivity).
  set (m' := (2 ^ 52 * 2 ^ d2)%Z).
  pose proof (Z.div_eucl_eq m' (Z.pos my) ltac:(lia)) as Heq.
  pose proof (Z.mod_pos_bound m' (Z.pos my) ltac:(lia)) as Hmod.
  unfold Z.modulo in Hmod.
  destruct (Z.div_eucl m' (Z.pos my)) as [q r].
  assert (Pm' : (0 < m')%Z)
    by (subst m'; apply Z.mul_pos_pos; apply Z.pow_pos_nonneg; lia).
  assert (Hq0 : (0 <= q)%Z) by nia.
  (* the quotient as a real number *)
  assert (Vm' : IZR m' * bpow e' * bpow ey = 1).
  { subst m' e'. rewrite mult_IZR, <- !bpow_IZR by lia.
    rewrite <- !bpow_add. replace (52 + d2 + (-52 - (d2 + ey)) + ey)%Z with 0%Z by lia.
    reflexivity. }
  pose proof (bpow_pos e') as Pe'.
  assert (Q1 : IZR q * IZR (Z.pos my) <= IZR m').
  { rewrite <- mult_IZR. apply IZR_le. lia. }
  assert (Q2 : IZR m' < (IZR q + 1) * IZR (Z.pos my)).
  { rewrite <- (plus_IZR q 1), <- mult_IZR. apply IZR_lt. lia. }
  assert (Py : 0 < IZR (Z.pos my)) by (apply IZR_lt; lia).
  set (y := IZR (Z.pos my) * bpow ey) in *.
  set (v := IZR q * bpow e').
  assert (V1 : v * y <= 1).
  { subst v y. rewrite <- Vm'.
    replace (IZR q * bpow e' * (IZR (Z.pos my) * bpow ey))
      with (IZR q * IZR (Z.pos my) * (bpow e' * bpow ey)) by ring.
    replace (IZR m' * bpow e' * bpow ey) with (IZR m' * (bpow e' * bpow ey)) by ring.
    apply Rmult_le_compat_r; [|exact Q1].
    apply Rlt_le, Rmult_lt_0_compat; assumption. }
  assert (V2 : 1 < (v + bpow e') * y).
  { subst v y. rewrite <- Vm' at 1.
    replace ((IZR q * bpow e' + bpow e') * (IZR (Z.pos my) * bpow ey))
      with ((IZR q + 1) * IZR (Z.pos my) * (bpow e' * bpow ey)) by ring.
    replace (IZR m' * bpow e' * bpow ey) with (IZR m' * (bpow e' * bpow ey)) by ring.
    apply Rmult_lt_compat_r; [|exact Q2].
    apply Rmult_lt_0_compat; assumption. }
  assert (Pv : 0 <= v)
    by (apply Rmult_le_pos; [now apply IZR_le | now apply Rlt_le]).
  assert (V1' : v <= 1) by nra.
  assert (E' : (e' <= -53)%Z) by (subst e'; lia).
  assert (B53 : bpow e' <= bpow (-53)) by (apply bpow_le; exact E').
  assert (B8 : bpow 8 * bpow (-8) = 1)
    by (rewrite <- bpow_add; reflexivity).
  pose proof (bpow_pos 8) as P8. pose proof (bpow_pos (-8)) as P8'.
  assert (V2' : bpow (-8) < v + bpow e').
  { assert (0 < v + bpow e') by lra. nra. }
  destruct (binary_round_aux_bounds false q e' (new_location (Z.pos my) r) Hq0)
    as (m3 & e1 & e2 & He1 & H12 & H3 & Hk & _ & Lo & ->).
  fold v in Hk, Lo.
  assert (Dq : (Zdigits2 q + e' <= 1)%Z).
  { destruct q as [|pq|pq]; [cbn [Zdigits2]; lia| |lia].
    cbn [Zdigits2]. destruct (digits_bpow pq) as [Lq _].
    assert (bpow (Z.pos (digits2_pos pq) - 1 + e') <= bpow 0).
    { rewrite bpow_add. change (bpow 0) with 1. subst v. nra. }
    apply bpow_le_inv in H. lia. }
  assert (E1 : (e1 <= -52)%Z).
  { rewrite He1. apply Z.max_lub; [lia|]. rewrite fexp_eq. lia. }
  assert (B1 : bpow e1 <= bpow (-52)) by (apply bpow_le; exact E1).
  assert (B0 : bpow (-52) <= bpow 0) by (apply bpow_le; lia).
  change (bpow 0) with 1 in B0.
  assert (E2 : (e2 <= -51)%Z).
  { specialize (Hk 1%Z). rewrite fexp_eq in Hk. cbn in Hk.
    assert (v + bpow e1 <= bpow 1) by (change (bpow 1) with (2 * 1); lra).
    specialize (Hk H). lia. }
  assert (B2 : bpow e2 <= bpow (-51)) by (apply bpow_le; exact E2).
  assert (N51 : 4 * bpow (-51) <= bpow (-9)).
  { replace (4 * bpow (-51)) with (bpow (-51 + 1 + 1))
      by (rewrite !bpow_succ; ring).
    apply bpow_le. lia. }
  assert (N53 : bpow (-53) <= bpow (-51)) by (apply bpow_le; lia).
  assert (N52 : bpow (-52) <= bpow (-51)) by (apply bpow_le; lia).
  assert (N8 : bpow (-8) = 2 * bpow (-9))
    by (change (-8)%Z with (-9 + 1)%Z; apply bpow_succ).
  pose proof (bpow_pos (-51)) as P51.
  assert (Big : bpow (-9) < IZR m3 * bpow e2) by lra.
  pose proof (bpow_pos (-9)) as P9. pose proof (bpow_pos e2) as Pe2.
  destruct m3 as [|p3|p3]; [lra| |lia].
  replace (e2 <=? emax - prec)%Z with true
    by (symmetry; apply Z.leb_le; change (emax - prec)%Z with 971%Z; lia).
  exists p3, e2. split; [reflexivity | lra].
Qed.


(** A valid positive double of at most [2^j] has an exponent of at most
    [j - 52]. *)
Lemma exponent_le (m : positive) (e j : Z) :
  (-1022 <= j)%Z ->
  SpecFloat.bounded prec emax m e = true ->
  IZR (Z.pos m) * bpow e <= bpow j -> (e <= j - 52)%Z.
Proof.
  intros Hj B H. destruct (bounded_facts m e B) as (_ & R & N).
  destruct (Z_le_gt_dec e (j - 52)) as [Hl|Hg]; [exact Hl|].
  destruct (digits_bpow m) as [L _]. rewrite (N ltac:(lia)) in L.
  change (53 - 1)%Z with 52%Z in L.
  assert (bpow (52 + e) <= bpow j).
  { rewrite bpow_add. pose proof (bpow_pos e). nra. }
  apply bpow_le_inv in H0. lia.
Qed.

(** The product of a double below 1 and a double of at most 128 is +0
    or a positive double of at most [128 + 2^-45]. *)
Lemma SFmul_bounds (mu : positive) (eu : Z) (mc : positive) (ec : Z) :
  SpecFloat.bounded prec emax mu eu = true ->
  SpecFloat.bounded prec emax mc ec = true ->
  IZR (Z.pos mu) * bpow eu <= 1 ->
  IZR (Z.pos mc) * bpow ec <= bpow 7 ->
  SFmul prec emax (S754_finite false mu eu) (S754_finite false mc ec) =
    S754_zero false \/
  exists mp ep,
    SFmul prec emax (S754_finite false mu eu) (S754_finite false mc ec) =
      S754_finite false mp ep /\
    IZR (Z.pos mp) * bpow ep <= bpow 7 + bpow (-45).
Proof.
  intros Bu Bc Hu Hc. cbn [SFmul xorb].
  pose proof (exponent_le mu eu 0 ltac:(lia) Bu Hu) as Eu.
  pose proof (exponent_le mc ec 7 ltac:(lia) Bc Hc) as Ec.
  assert (Pu : 0 < IZR (Z.pos mu) * bpow eu)
    by (apply Rmult_lt_0_compat; [apply IZR_lt; lia | apply bpow_pos]).
  assert (Pc : 0 < IZR (Z.pos mc) * bpow ec)
    by (apply Rmult_lt_0_compat; [apply IZR_lt; lia | apply bpow_pos]).
  assert (V : IZR (Z.pos (mu * mc)) * bpow (eu + ec) =
              (IZR (Z.pos mu) * bpow eu) * (IZR (Z.pos mc) * bpow ec))
    by (rewrite Pos2Z.inj_mul, mult_IZR, bpow_add; ring).
  assert (Vle : IZR (Z.pos (mu * mc)) * bpow (eu + ec) <= bpow 7)
    by (rewrite V; nra).
  destruct (binary_round_aux_bounds false (Z.pos (mu * mc)) (eu + ec) loc_Exact)
    as (m3 & e1 & e2 & He1 & H12 & H3 & Hk & Up & _ & ->); [lia|].
  assert (Dz : (Zdigits2 (Z.pos (mu * mc)) + (eu + ec) <= 8)%Z).
  { cbn [Zdigits2]. destruct (digits_bpow (mu * mc)) as [L _].
    assert (bpow (Z.pos (digits2_pos (mu * mc)) - 1 + (eu + ec)) <= bpow 7).
    { rewrite bpow_add. pose proof (bpow_pos (eu + ec)). nra. }
    apply bpow_le_inv in H. lia. }
  assert (E1 : (e1 <= -45)%Z).
  { rewrite He1. apply Z.max_lub; [lia|]. rewrite fexp_eq. lia. }
  assert (B1 : bpow e1 <= bpow (-45)) by (apply bpow_le; exact E1).
  assert (E2 : (e2 <= -44)%Z).
  { specialize (Hk 8%Z). rewrite fexp_eq in Hk. cbn in Hk.
    assert (IZR (Z.pos (mu * mc)) * bpow (eu + ec) + bpow e1 <= bpow 8).
    { change 8%Z with (7 + 1)%Z. rewrite bpow_succ.
      assert (bpow (-45) <= bpow 7) by (apply bpow_le; lia). lra. }
    specialize (Hk H). lia. }
  destruct m3 as [|p3|p3]; [now left| |lia]. right.
  replace (e2 <=? emax - prec)%Z with true
    by (symmetry; apply Z.leb_le; change (emax - prec)%Z with 971%Z; lia).
  exists p3, e2. split; [reflexivity|].
  lra.
Qed.


Lemma bpow_quarter : 4 * bpow (-2) = 1.
Proof.
  replace (4 * bpow (-2)) with (bpow (-2 + 1 + 1)) by (rewrite !bpow_succ; ring).
  reflexivity.
Qed.

Lemma bpow_nat (n : Z) : (0 <= n)%Z -> bpow n = IZR (2 ^ n).
Proof. apply bpow_IZR. Qed.

(** Adding a double between 2 and 64 to a positive double of at most
    [128 + 2^-45] gives a double between 1 and 256. *)
Lemma SFadd_bounds (mp : positive) (ep : Z) (mk : positive) (ek : Z) :
  SpecFloat.bounded prec emax mk ek = true ->
  IZR (Z.pos mp) * bpow ep <= bpow 7 + bpow (-45) ->
  2 <= IZR (Z.pos mk) * bpow ek ->
  IZR (Z.pos mk) * bpow ek <= bpow 6 ->
  exists mr er,
    SFadd prec emax (S754_finite false mp ep) (S754_finite false mk ek) =
      S754_finite false mr er /\
    1 < IZR (Z.pos mr) * bpow er /\ IZR (Z.pos mr) * bpow er < bpow 8.
Proof.
  intros Bk Hp Hk2 Hk6. cbn [SFadd cond_Zopp].
  set (ez := Z.min ep ek).
  destruct (shl_align_spec mp ep ez) as [_ Va].
  destruct (shl_align_spec mk ek ez) as [_ Vd].
  replace (Z.min ep ez) with ez in Va by lia.
  replace (Z.min ek ez) with ez in Vd by lia.
  set (A := fst (shl_align mp ep ez)) in *.
  set (D := fst (shl_align mk ek ez)) in *.
  pose proof (exponent_le mk ek 6 ltac:(lia) Bk Hk6) as Hek.
  cbn [Z.add binary_normalize].
  assert (VS : IZR (Z.pos (A + D)) * bpow ez =
               IZR (Z.pos mp) * bpow ep + IZR (Z.pos mk) * bpow ek)
    by (rewrite Pos2Z.inj_add, plus_IZR; lra).
  assert (Pp : 0 < IZR (Z.pos mp) * bpow ep)
    by (apply Rmult_lt_0_compat; [apply IZR_lt; lia | apply bpow_pos]).
  assert (N45 : bpow (-45) <= bpow (-2)) by (apply bpow_le; lia).
  assert (N44 : bpow (-44) <= bpow (-2)) by (apply bpow_le; lia).
  pose proof bpow_quarter as Q. pose proof (bpow_pos (-2)) as P2.
  assert (N6 : bpow 6 = 64) by (rewrite bpow_nat by lia; reflexivity).
  assert (N7 : bpow 7 = 128) by (rewrite bpow_nat by lia; reflexivity).
  assert (N8 : bpow 8 = 256) by (rewrite bpow_nat by lia; reflexivity).
  unfold binary_round.
  destruct (shl_align_spec (A + D) ez
              (fexp prec emax (Z.pos (digits2_pos (A + D)) + ez)))
    as [Hez' Vz].
  destruct (shl_align (A + D) ez
              (fexp prec emax (Z.pos (digits2_pos (A + D)) + ez)))
    as [mz ez'].
  cbn [fst snd] in Hez', Vz. rewrite <- Hez' in Vz.
  destruct (binary_round_aux_bounds false (Z.pos mz) ez' loc_Exact)
    as (m3 & e1 & e2 & He1 & H12 & H3 & Hk & Up & Lo & ->); [lia|].
  rewrite Vz, VS in Up, Lo, Hk.
  assert (X8 : IZR (Z.pos mz) * bpow ez' < bpow 8) by (rewrite Vz, VS; lra).
  assert (Dz : (Zdigits2 (Z.pos mz) + ez' <= 8)%Z).
  { cbn [Zdigits2]. destruct (digits_bpow mz) as [L _].
    assert (bpow (Z.pos (digits2_pos mz) - 1 + ez') < bpow 8).
    { rewrite bpow_add. pose proof (bpow_pos ez'). nra. }
    apply bpow_lt_inv in H. lia. }
  assert (E1 : (e1 <= -45)%Z).
  { rewrite He1. apply Z.max_lub; [lia|]. rewrite fexp_eq. lia. }
  assert (B1 : bpow e1 <= bpow (-45)) by (apply bpow_le; exact E1).
  assert (E2 : (e2 <= -44)%Z).
  { specialize (Hk 8%Z). rewrite fexp_eq in Hk. cbn in Hk.
    assert (IZR (Z.pos mp) * bpow ep + IZR (Z.pos mk) * bpow ek + bpow e1
            <= bpow 8) by lra.
    specialize (Hk H). lia. }
  assert (B2 : bpow e2 <= bpow (-44)) by (apply bpow_le; exact E2).
  pose proof (bpow_pos e2) as Pe2.
  destruct m3 as [|p3|p3]; [lra| |lia].
  replace (e2 <=? emax - prec)%Z with true
    by (symmetry; apply Z.leb_le; change (emax - prec)%Z with 971%Z; lia).
  exists p3, e2. split; [reflexivity|]. split; lra.
Qed.


Lemma value_pow2 (e : Z) : IZR 4503599627370496 * bpow e = bpow (52 + e).
Proof.
  change 4503599627370496%Z with (2 ^ 52)%Z.
  rewrite <- bpow_IZR, <- bpow_add by lia. reflexivity.
Qed.

Lemma value_const (e j : Z) :
  j = (52 + e)%Z -> IZR 4503599627370496 * bpow e = bpow j.
Proof. intros ->. apply value_pow2. Qed.

Lemma SFleb_value (m1 : positive) (e1 : Z) (m2 : positive) (e2 : Z) :
  SpecFloat.bounded prec emax m1 e1 = true ->
  SpecFloat.bounded prec emax m2 e2 = true ->
  (SFleb (S754_finite false m1 e1) (S754_finite false m2 e2) = true <->
   IZR (Z.pos m1) * bpow e1 <= IZR (Z.pos m2) * bpow e2).
Proof.
  intros B1 B2. pose proof (compare_values m1 e1 m2 e2 B1 B2) as C.
  rewrite !value_finite in C. unfold SFleb.
  destruct (SFcompare (S754_finite false m1 e1) (S754_finite false m2 e2))
    as [[| |]|]; [| | |contradiction]; split; intros H;
    try reflexivity; try discriminate; lra.
Qed.

Lemma SFltb_value (m1 : positive) (e1 : Z) (m2 : positive) (e2 : Z) :
  SpecFloat.bounded prec emax m1 e1 = true ->
  SpecFloat.bounded prec emax m2 e2 = true ->
  (SFltb (S754_finite false m1 e1) (S754_finite false m2 e2) = true <->
   IZR (Z.pos m1) * bpow e1 < IZR (Z.pos m2) * bpow e2).
Proof.
  intros B1 B2. pose proof (compare_values m1 e1 m2 e2 B1 B2) as C.
  rewrite !value_finite in C. unfold SFltb.
  destruct (SFcompare (S754_finite false m1 e1) (S754_finite false m2 e2))
    as [[| |]|]; [| | |contradiction]; split; intros H;
    try reflexivity; try discriminate; lra.
Qed.

End Values.

Section Decrease.

Import Doubles.
Local Open Scope float_scope.

(** The decrement of [life]: for a life in (0, 1] and a [maxLife]
    between 1 and 256, [life - 1 / maxLife] is smaller than [life]. *)
Lemma sub_div_smaller (life maxLife : float) :
  (0 <? life) = true -> (life <=? 1) = true ->
  (1 <=? maxLife) = true -> (maxLife <=? 256) = true ->
  (life - 1 / maxLife <? life) = true.
Proof.
  rewrite !ltb_spec, !leb_spec, sub_spec, div_spec.
  pose proof (Prim2SF_valid life) as Vl.
  pose proof (Prim2SF_valid maxLife) as Vm.
  pose proof (Prim2SF_valid (life - 1 / maxLife)) as Vr.
  rewrite sub_spec, div_spec in Vr.
  change (Prim2SF 0) with (S754_zero false).
  change (Prim2SF 1) with (S754_finite false 4503599627370496 (-52)) in *.
  change (Prim2SF 256) with (S754_finite false 4503599627370496 (-44)).
  assert (B1 : SpecFloat.bounded prec emax 4503599627370496 (-52) = true)
    by reflexivity.
  assert (B256 : SpecFloat.bounded prec emax 4503599627370496 (-44) = true)
    by reflexivity.
  destruct (Prim2SF life) as [sl|sl| |sl ml el];
    try (intros H; discriminate H).
  { destruct sl; intros H; [discriminate H|]. intros H1; discriminate H1. }
  destruct sl; [intros H; discriminate H|]. intros _ Hl1.
  destruct (Prim2SF maxLife) as [sm|sm| |sm mm em];
    try (intros H; discriminate H).
  { destruct sm; intros H; [discriminate H|]. intros H1; discriminate H1. }
  destruct sm; [intros H; discriminate H|]. intros Hm1 Hm256.
  cbn [valid_binary] in Vl, Vm.
  assert (Rl : (IZR (Z.pos ml) * bpow el <= 1)%R).
  { pose proof (compare_values ml el 4503599627370496 (-52) Vl B1) as C.
    rewrite !value_finite, value_one in C. unfold SFleb in Hl1.
    destruct (SFcompare (S754_finite false ml el)
                (S754_finite false 4503599627370496 (-52))) as [[| |]|];
      try discriminate; lra. }
  assert (Rm1 : (1 <= IZR (Z.pos mm) * bpow em)%R).
  { pose proof (compare_values 4503599627370496 (-52) mm em B1 Vm) as C.
    rewrite !value_finite, value_one in C. unfold SFleb in Hm1.
    destruct (SFcompare (S754_finite false 4503599627370496 (-52))
                (S754_finite false mm em)) as [[| |]|];
      try discriminate; lra. }
  assert (Rm256 : (IZR (Z.pos mm) * bpow em <= bpow 8)%R).
  { pose proof (compare_values mm em 4503599627370496 (-44) Vm B256) as C.
    rewrite !value_finite, value_256 in C. unfold SFleb in Hm256.
    destruct (SFcompare (S754_finite false mm em)
                (S754_finite false 4503599627370496 (-44))) as [[| |]|];
      try discriminate; lra. }
  destruct (SFdiv_one_lower mm em Vm Rm1 Rm256) as (md & ed & Ed & Rd).
  unfold SF64sub, SF64div in *. rewrite Ed in *.
  now apply SFsub_smaller.
Qed.

(** A positive double below a double that is at most 1 is at most 1. *)
Lemma below_one (a b : float) :
  (0 <? a) = true -> (a <? b) = true -> (b <=? 1) = true ->
  (a <=? 1) = true.
Proof.
  rewrite !ltb_spec, !leb_spec.
  pose proof (Prim2SF_valid a) as Va. pose proof (Prim2SF_valid b) as Vb.
  change (Prim2SF 0) with (S754_zero false).
  change (Prim2SF 1) with (S754_finite false 4503599627370496 (-52)).
  assert (B1 : SpecFloat.bounded prec emax 4503599627370496 (-52) = true)
    by reflexivity.
  destruct (Prim2SF a) as [sa|sa| |sa ma ea];
    try (intros H; discriminate H).
  { destruct sa; intros H; [discriminate H|].
    destruct (Prim2SF b) as [sb|[|]| |sb mb eb]; intros H1; discriminate H1. }
  destruct sa; [intros H; discriminate H|]. intros _.
  destruct (Prim2SF b) as [sb|sb| |sb mb eb];
    try (intros H; discriminate H).
  { destruct sb; intros H; [discriminate H|]. intros H1; discriminate H1. }
  destruct sb; [intros H; discriminate H|].
  cbn [valid_binary] in Va, Vb.
  rewrite (SFltb_value ma ea mb eb Va Vb).
  rewrite (SFleb_value mb eb _ _ Vb B1), (SFleb_value ma ea _ _ Va B1).
  intros H1 H2. lra.
Qed.

(** [u * c + k] for a draw [u] of [Math.random()] and constants [c]
    between 1 and 128 and [k] between 2 and 64 is a double between 1
    and 256. *)
Lemma affine_bounds (u c k : float) :
  (0 <=? u) = true -> (u <? 1) = true ->
  (1 <=? c) = true -> (c <=? 128) = true ->
  (2 <=? k) = true -> (k <=? 64) = true ->
  (1 <=? u * c + k) = true /\ (u * c + k <=? 256) = true.
Proof.
  rewrite !ltb_spec, !leb_spec, add_spec, mul_spec.
  pose proof (Prim2SF_valid u) as Vu. pose proof (Prim2SF_valid c) as Vc.
  pose proof (Prim2SF_valid k) as Vk.
  pose proof (Prim2SF_valid (u * c + k)) as Vr.
  rewrite add_spec, mul_spec in Vr.
  change (Prim2SF 0) with (S754_zero false).
  change (Prim2SF 1) with (S754_finite false 4503599627370496 (-52)).
  change (Prim2SF 2) with (S754_finite false 4503599627370496 (-51)).
  change (Prim2SF 64) with (S754_finite false 4503599627370496 (-46)).
  change (Prim2SF 128) with (S754_finite false 4503599627370496 (-45)).
  change (Prim2SF 256) with (S754_finite false 4503599627370496 (-44)).
  assert (B : forall e, (-1074 < e <= 971)%Z ->
            SpecFloat.bounded prec emax 4503599627370496 e = true).
  { intros e He. unfold SpecFloat.bounded, canonical_mantissa.
    rewrite fexp_eq. change (Z.pos (digits2_pos 4503599627370496)) with 53%Z.
    apply andb_true_intro. split; [apply Z.eqb_eq; lia|].
    apply Z.leb_le. change (emax - prec)%Z with 971%Z. lia. }
  pose proof (B (-52)%Z ltac:(lia)) as B52.
  pose proof (B (-51)%Z ltac:(lia)) as B51.
  pose proof (B (-46)%Z ltac:(lia)) as B46.
  pose proof (B (-45)%Z ltac:(lia)) as B45.
  pose proof (B (-44)%Z ltac:(lia)) as B44.
  intros Hu0 Hu1 Hc1 Hc128 Hk2 Hk64.
  (* the constants *)
  destruct (Prim2SF c) as [sc|sc| |sc mc ec];
    try discriminate Hc1; try discriminate Hc128.
  { destruct sc; discriminate. }
  destruct sc; [discriminate Hc1|].
  destruct (Prim2SF k) as [sk|sk| |sk mk ek];
    try discriminate Hk2; try discriminate Hk64.
  { destruct sk; discriminate. }
  destruct sk; [discriminate Hk2|].
  cbn [valid_binary] in Vc, Vk.
  rewrite (SFleb_value _ _ mc ec B52 Vc), (value_const (-52) 0 eq_refl) in Hc1.
  rewrite (SFleb_value mc ec _ _ Vc B45), (value_const (-45) 7 eq_refl) in Hc128.
  rewrite (SFleb_value _ _ mk ek B51 Vk), (value_const (-51) 1 eq_refl) in Hk2.
  rewrite (SFleb_value mk ek _ _ Vk B46), (value_const (-46) 6 eq_refl) in Hk64.
  assert (N1 : bpow 1 = 2%R) by (rewrite bpow_nat by lia; reflexivity).
  assert (N0 : bpow 0 = 1%R) by reflexivity.
  assert (N6 : bpow 6 = 64%R) by (rewrite bpow_nat by lia; reflexivity).
  assert (N8 : bpow 8 = 256%R) by (rewrite bpow_nat by lia; reflexivity).
  assert (Kfin : (SFleb (S754_finite false 4503599627370496 (-52))
                        (S754_finite false mk ek) = true /\
                  SFleb (S754_finite false mk ek)
                        (S754_finite false 4503599627370496 (-44)) = true)).
  { rewrite (SFleb_value _ _ mk ek B52 Vk), (value_const (-52) 0 eq_refl).
    rewrite (SFleb_value mk ek _ _ Vk B44), (value_const (-44) 8 eq_refl).
    lra. }
  destruct (Prim2SF u) as [su|su| |su mu eu];
    try discriminate Hu0; try discriminate Hu1.
  - (* u is a zero *) cbn [SFmul SF64mul SF64add SFadd] in *.
    unfold SF64add, SF64mul. cbn [SFmul SFadd]. exact Kfin.
  - destruct su; discriminate.
  - destruct su; [discriminate Hu0|]. cbn [valid_binary] in Vu.
    rewrite (SFltb_value mu eu _ _ Vu B52), (value_const (-52) 0 eq_refl) in Hu1.
    unfold SF64add, SF64mul in *.
    destruct (SFmul_bounds mu eu mc ec Vu Vc ltac:(lra) Hc128)
      as [Ez | (mp & ep & Ep & Hp)].
    + rewrite Ez in *. cbn [SFadd]. exact Kfin.
    + rewrite Ep in *.
      destruct (SFadd_bounds mp ep mk ek Vk Hp ltac:(lra) ltac:(lra))
        as (mr & er & Er & R1 & R8).
      rewrite Er in *. cbn [valid_binary] in Vr.
      rewrite (SFleb_value _ _ mr er B52 Vr), (value_const (-52) 0 eq_refl).
      rewrite (SFleb_value mr er _ _ Vr B44), (value_const (-44) 8 eq_refl).
      lra.
Qed.

End Decrease.

Section Order.

Import Doubles.
Local Open Scope float_scope.

(** [<=] on doubles is transitive from a double that is not negative. *)
Lemma leb_trans_nonneg (a b c : float) :
  (0 <=? a) = true -> (a <=? b) = true -> (b <=? c) = true ->
  (a <=? c) = true.
Proof.
  rewrite !leb_spec.
  pose proof (Prim2SF_valid a) as Va. pose proof (Prim2SF_valid b) as Vb.
  pose proof (Prim2SF_valid c) as Vc.
  change (Prim2SF 0) with (S754_zero false).
  destruct (Prim2SF a) as [sa|sa| |sa ma ea];
    destruct (Prim2SF b) as [sb|sb| |sb mb eb];
    destruct (Prim2SF c) as [sc|sc| |sc mc ec];
    try (destruct sa); try (destruct sb); try (destruct sc);
    cbn [valid_binary] in *;
    try (intros H1 H2 H3; reflexivity || discriminate H1 || discriminate H2
                          || discriminate H3).
  intros _.
  rewrite (SFleb_value ma ea mb eb Va Vb), (SFleb_value mb eb mc ec Vb Vc),
    (SFleb_value ma ea mc ec Va Vc).
  intros H1 H2. lra.
Qed.

End Order.

(** ** The runtime on samples *)

Example floor_index_samples :
  List.map Runtime.floor_index [5; 1.5; 0.3; 0; 2.9999999999999996; -1; PrimFloat.nan]%float =
  [Some 5; Some 1; Some 0; Some 0; Some 2; None; None].
Proof. vm_compute. reflexivity. Qed.

Example reduced_counts :
  ParticleSystem.scaled 50 0.1 = 5 /\ ParticleSystem.scaled 5 0.3 = 1.
Proof. vm_compute. split; reflexivity. Qed.

Example includes_samples :
  List.map (Runtime.includes "-click")
    ["bubble-click"; "expanding-ring-click"; "glow-click"; "trail-bubble";
     "sparkle"; "ambient"] =
  [true; true; true; false; false; false].
Proof. reflexivity. Qed.

Example min_max_samples :
  Runtime.min 0.4 1 = 0.4%float /\ Runtime.min 2 1 = 1%float /\
  Runtime.max 0.1 0.2 = 0.2%float /\
  PrimFloat.is_nan (Runtime.min PrimFloat.nan 1) = true.
Proof. vm_compute. repeat split. Qed.

(** ** CursorTracker *)

Section TrackerFacts.

Import CursorTracker.

Variable w : option Js.Window.

Lemma rejected_x_invalid (x y : Js.Value) :
  Spec.rejected_coordinate (maxWidth w) x -> isValidPosition w x y = false.
Proof.
  destruct x as [xn| | | |]; simpl; try reflexivity.
  destruct y as [yn| | | |]; try reflexivity.
  unfold isValidNumbers, Js.lt, Js.gt, Js.ge, Js.le.
  intros [H | [H | H]].
  - rewrite H. reflexivity.
  - rewrite (ltb_not_leb _ _ H).
    now rewrite !andb_false_r.
  - rewrite (ltb_not_leb _ _ H).
    now rewrite !andb_false_r.
Qed.

Lemma rejected_y_invalid (x y : Js.Value) :
  Spec.rejected_coordinate (maxHeight w) y -> isValidPosition w x y = false.
Proof.
  destruct x as [xn| | | |]; simpl; try reflexivity.
  destruct y as [yn| | | |]; try reflexivity.
  unfold isValidNumbers, Js.lt, Js.gt, Js.ge, Js.le.
  intros [H | [H | H]].
  - rewrite H. now rewrite andb_false_r.
  - rewrite (ltb_not_leb _ _ H).
    now rewrite !andb_false_r.
  - rewrite (ltb_not_leb _ _ H).
    now rewrite !andb_false_r.
Qed.

(** What an accepted update looks like. *)
Lemma updatePosition_accepted (currentTime : float) (x y : Js.Value) (s : t) :
  fst (updatePosition w currentTime x y s) = true ->
  exists xn yn,
    x = Js.Number xn /\ y = Js.Number yn /\
    isTracking s = true /\ isValidNumbers w xn yn = true /\
    let s' := snd (updatePosition w currentTime x y s) in
    mouseX s' = xn /\ mouseY s' = yn /\
    previousX s' = mouseX s /\ previousY s' = mouseY s /\
    isInitialized s' = true /\
    stateVersion s' = (stateVersion s + 1)%Z /\
    exists lv, lastValidState s' = Some lv /\ vs_version lv = stateVersion s'.
Proof.
  unfold updatePosition.
  destruct (isTracking s) eqn:Ht; simpl; [|discriminate].
  destruct x as [xn| | | |], y as [yn| | | |]; simpl; try discriminate.
  destruct (isValidNumbers w xn yn) eqn:Hv; simpl; [|discriminate].
  intros _. exists xn, yn.
  do 4 (split; [reflexivity || assumption|]).
  cbv zeta. do 6 (split; [reflexivity|]).
  eexists. split; reflexivity.
Qed.

(** A refused update returns the tracker it was given. *)
Lemma updatePosition_refused (currentTime : float) (x y : Js.Value) (s : t) :
  fst (updatePosition w currentTime x y s) = false ->
  snd (updatePosition w currentTime x y s) = s.
Proof.
  unfold updatePosition.
  destruct (isTracking s); simpl; [|reflexivity].
  destruct (isValidPosition w x y) eqn:Hv; simpl; [|reflexivity].
  destruct x as [xn| | | |], y as [yn| | | |]; simpl; try reflexivity.
  discriminate.
Qed.

End TrackerFacts.

Section TrackerClaims.

Import CursorTracker.

(** C2. For every tracker state and every input pair in which x or y is
    not a number, is non-finite, is negative or exceeds the bound of
    [isValidPosition] (twice the viewport dimension), [updatePosition]
    returns [false] and the tracker after the call equals the tracker
    before it, field for field. *)
Theorem C2_updatePosition_rejects_without_mutation
    (w : option Js.Window) (currentTime : float) (x y : Js.Value) (s : t) :
  Spec.rejected_coordinate (maxWidth w) x \/
  Spec.rejected_coordinate (maxHeight w) y ->
  updatePosition w currentTime x y s = (false, s).
Proof.
  intros H. unfold updatePosition.
  destruct (isTracking s); simpl; [|reflexivity].
  destruct H as [H | H].
  - now rewrite (rejected_x_invalid w x y H).
  - now rewrite (rejected_y_invalid w x y H).
Qed.

(** C2, scenario: [updatePosition(NaN, 50)] on a tracker at (10, 20)
    returns [false] and the position remains (10, 20). *)
Lemma C2_update_NaN_50 :
  updatePosition Spec.window0 32 (Js.Number PrimFloat.nan) (Js.Number 50)
    Spec.tracker0 = (false, Spec.tracker0) /\
  mouseX Spec.tracker0 = 10%float /\ mouseY Spec.tracker0 = 20%float.
Proof.
  split.
  - apply C2_updatePosition_rejects_without_mutation.
    left. simpl. left. reflexivity.
  - split; reflexivity.
Defined.

Lemma version_inv_step (w : option Js.Window) (o : Op) (s : t) :
  Spec.version_inv s -> Spec.version_inv (step w o s).
Proof.
  intros Hinv. destruct o as [ct x y|now| |en]; simpl.
  - destruct (fst (updatePosition w ct x y s)) eqn:Hr.
    + destruct (updatePosition_accepted w ct x y s Hr)
        as (xn & yn & _ & _ & _ & _ & Hs).
      cbv zeta in Hs.
      destruct Hs as (_ & _ & _ & _ & _ & _ & lv & Hlv & Hver).
      unfold Spec.version_inv. rewrite Hlv. lia.
    + now rewrite (updatePosition_refused w ct x y s Hr).
  - unfold recoverState, Spec.version_inv in *.
    destruct (lastValidState s) as [lv|]; simpl; [lia | reflexivity].
  - reflexivity.
  - exact Hinv.
Qed.

Lemma version_inv_run (w : option Js.Window) (ops : list Op) (s : t) :
  Spec.version_inv s -> Spec.version_inv (run w ops s).
Proof.
  revert s. induction ops as [|o ops IH]; intros s Hinv; simpl.
  - exact Hinv.
  - apply IH. now apply version_inv_step.
Qed.

Lemma version_monotone_step (w : option Js.Window) (o : Op) (s : t) :
  Spec.version_inv s -> o <> Reset ->
  (stateVersion s <= stateVersion (step w o s))%Z.
Proof.
  intros Hinv Hne. destruct o as [ct x y|now| |en]; simpl.
  - destruct (fst (updatePosition w ct x y s)) eqn:Hr.
    + destruct (updatePosition_accepted w ct x y s Hr)
        as (xn & yn & _ & _ & _ & _ & Hs).
      cbv zeta in Hs.
      destruct Hs as (_ & _ & _ & _ & _ & Hv & _). lia.
    + rewrite (updatePosition_refused w ct x y s Hr). lia.
  - unfold recoverState, Spec.version_inv in *.
    destruct (lastValidState s) as [lv|]; simpl; lia.
  - now contradict Hne.
  - lia.
Qed.

(** C7, as the claim states it, fails: an accepted update brings the
    version to 1 and [resetToOrigin] then sets it back to 0. *)
Lemma C7_reset_decreases_version :
  stateVersion (run Spec.window0
                  [Update 16 (Js.Number 10) (Js.Number 20)] new) = 1%Z /\
  stateVersion (run Spec.window0
                  [Update 16 (Js.Number 10) (Js.Number 20); Reset] new) = 0%Z.
Proof. split; reflexivity. Qed.

(** C7, amended. Every accepted [updatePosition] call increments
    [stateVersion] by exactly 1; in every tracker reached from the
    constructor by any sequence of operations, an update, a recovery or a
    tracking switch never decreases the version; [resetToOrigin] sets the
    version to 0. *)
Theorem C7_version_monotone_except_reset :
  (forall w currentTime x y s,
      fst (updatePosition w currentTime x y s) = true ->
      stateVersion (snd (updatePosition w currentTime x y s)) =
      (stateVersion s + 1)%Z) /\
  (forall w ops o,
      o <> Reset ->
      (stateVersion (run w ops new) <=
       stateVersion (step w o (run w ops new)))%Z) /\
  (forall s, stateVersion (resetToOrigin s) = 0%Z).
Proof.
  split; [|split].
  - intros w ct x y s Hr.
    destruct (updatePosition_accepted w ct x y s Hr)
      as (xn & yn & _ & _ & _ & _ & Hs).
    cbv zeta in Hs. tauto.
  - intros w ops o Hne. apply version_monotone_step; [|exact Hne].
    apply version_inv_run. reflexivity.
  - reflexivity.
Qed.

(** C7, amended, on the scenario of the counterexample without its
    reset: two accepted updates and a recovery give versions 1, 2, 3. *)
Lemma C7_version_monotone_witness :
  stateVersion (snd (updatePosition Spec.window0 32
                       (Js.Number 30) (Js.Number 40) Spec.tracker0)) =
  (stateVersion Spec.tracker0 + 1)%Z /\
  (stateVersion (run Spec.window0
                   [Update 16 (Js.Number 10) (Js.Number 20);
                    Update 32 (Js.Number 30) (Js.Number 40)] new) <=
   stateVersion (step Spec.window0 (Recover 48)
                   (run Spec.window0
                      [Update 16 (Js.Number 10) (Js.Number 20);
                       Update 32 (Js.Number 30) (Js.Number 40)] new)))%Z.
Proof.
  split.
  - apply (proj1 C7_version_monotone_except_reset). reflexivity.
  - apply (proj1 (proj2 C7_version_monotone_except_reset)). discriminate.
Defined.

(** C8. When a last-valid snapshot exists, [recoverState] returns [true]
    and the current position, previous position and velocity are exactly
    the snapshot's; when none exists it returns [false] and the tracker
    is at the origin with zero velocity and version 0. *)
Theorem C8_recoverState (now : float) (s : t) :
  (forall lv, lastValidState s = Some lv ->
     fst (recoverState now s) = true /\
     mouseX (snd (recoverState now s)) = vs_x lv /\
     mouseY (snd (recoverState now s)) = vs_y lv /\
     previousX (snd (recoverState now s)) = vs_previousX lv /\
     previousY (snd (recoverState now s)) = vs_previousY lv /\
     velocity (snd (recoverState now s)) = vs_velocity lv) /\
  (lastValidState s = None ->
     fst (recoverState now s) = false /\
     mouseX (snd (recoverState now s)) = 0%float /\
     mouseY (snd (recoverState now s)) = 0%float /\
     previousX (snd (recoverState now s)) = 0%float /\
     previousY (snd (recoverState now s)) = 0%float /\
     velocity (snd (recoverState now s)) = mkVelocity 0 0 /\
     stateVersion (snd (recoverState now s)) = 0%Z).
Proof.
  unfold recoverState. split.
  - intros lv Hlv. rewrite Hlv. simpl.
    destruct (vs_velocity lv). repeat split.
  - intros Hlv. rewrite Hlv. simpl. repeat split.
Qed.

(** C8 on two concrete trackers: one holding the snapshot of (10, 20),
    and the freshly constructed one, which holds none. *)
Lemma C8_recoverState_witness :
  (fst (recoverState 48 Spec.tracker0) = true /\
   mouseX (snd (recoverState 48 Spec.tracker0)) = 10%float /\
   mouseY (snd (recoverState 48 Spec.tracker0)) = 20%float) /\
  (fst (recoverState 48 new) = false /\
   stateVersion (snd (recoverState 48 new)) = 0%Z).
Proof.
  split.
  - destruct (proj1 (C8_recoverState 48 Spec.tracker0) _ eq_refl)
      as (H1 & H2 & H3 & _).
    auto.
  - destruct (proj2 (C8_recoverState 48 new) eq_refl)
      as (H1 & _ & _ & _ & _ & _ & H2).
    auto.
Defined.

(** C9. [getCurrentPosition] and [createStateSnapshot] return the
    current position and leave the tracker exactly as it was. *)
Theorem C9_readers_do_not_mutate (w : option Js.Window) (s : t) :
  snd (getCurrentPosition w s) = s /\
  pos_x (fst (getCurrentPosition w s)) = mouseX s /\
  pos_y (fst (getCurrentPosition w s)) = mouseY s /\
  snd (createStateSnapshot s) = s /\
  snap_position (fst (createStateSnapshot s)) = (mouseX s, mouseY s).
Proof. repeat split. Qed.

Lemma noneAccepted_not_initialized (w : option Js.Window) (ops : list Op) (s : t) :
  isInitialized s = false ->
  Spec.noneAccepted w ops s = true ->
  isInitialized (run w ops s) = false.
Proof.
  revert s. induction ops as [|o ops IH]; intros s Hi Hn; simpl in *.
  - exact Hi.
  - apply andb_prop in Hn. destruct Hn as [Ha Hn].
    apply IH; [|exact Hn].
    destruct o as [ct x y|now| |en]; simpl in *.
    + apply negb_true_iff in Ha.
      now rewrite (updatePosition_refused w ct x y s Ha).
    + unfold recoverState. destruct (lastValidState s); simpl; auto.
    + reflexivity.
    + exact Hi.
Qed.

(** C10, as the claim states it, fails: [getMovementDistance] measures
    from the position held before the call, which is not always an
    accepted position.  After the accepted updates (10, 20) and
    (13, 24) with a [resetToOrigin] between them, the two most recently
    accepted positions are 5 apart, but the method returns the distance
    of (13, 24) from the origin, more than 27; and after a single
    accepted update to (3, 4) on a new tracker, where no two accepted
    positions exist, it returns 5. *)
Lemma C10_distance_measured_from_origin :
  (let ops := [Update 16 (Js.Number 10) (Js.Number 20); Reset;
               Update 32 (Js.Number 13) (Js.Number 24)] in
   Spec.acceptedPositions Spec.window0 ops new [] =
     [(13, 24); (10, 20)]%float /\
   Spec.distanceOfLastTwo (Spec.acceptedPositions Spec.window0 ops new []) =
     Some 5%float /\
   getMovementDistance (run Spec.window0 ops new) =
     PrimFloat.sqrt (13 * 13 + 24 * 24)%float /\
   Js.gt (getMovementDistance (run Spec.window0 ops new)) 27 = true) /\
  (let ops := [Update 16 (Js.Number 3) (Js.Number 4)] in
   Spec.acceptedPositions Spec.window0 ops new [] = [(3, 4)]%float /\
   Spec.distanceOfLastTwo (Spec.acceptedPositions Spec.window0 ops new []) =
     None /\
   getMovementDistance (run Spec.window0 ops new) = 5%float).
Proof. vm_compute. repeat split. Qed.

(** C10, amended. After an accepted [updatePosition(x, y)] the previous
    position is the position held before the call and
    [getMovementDistance] returns sqrt((x - previousX)^2 +
    (y - previousY)^2), the distance of the new position from that
    previous position.  After two accepted updates in a row this is
    the distance between the two accepted positions; for an update
    accepted by a new tracker or right after [resetToOrigin] the
    previous position is the origin and the distance is measured from
    (0, 0); and a tracker that has not accepted any update since its
    construction reports distance 0. *)
Theorem C10_previous_and_distance (w : option Js.Window) :
  (forall currentTime x y s,
      fst (updatePosition w currentTime x y s) = true ->
      let s' := snd (updatePosition w currentTime x y s) in
      previousX s' = mouseX s /\ previousY s' = mouseY s /\
      exists xn yn,
        x = Js.Number xn /\ y = Js.Number yn /\
        getMovementDistance s' =
        PrimFloat.sqrt ((xn - previousX s') * (xn - previousX s') +
                        (yn - previousY s') * (yn - previousY s'))%float) /\
  (forall t1 t2 x1 y1 x2 y2 s,
      fst (updatePosition w t1 (Js.Number x1) (Js.Number y1) s) = true ->
      let s1 := snd (updatePosition w t1 (Js.Number x1) (Js.Number y1) s) in
      fst (updatePosition w t2 (Js.Number x2) (Js.Number y2) s1) = true ->
      getMovementDistance
        (snd (updatePosition w t2 (Js.Number x2) (Js.Number y2) s1)) =
      PrimFloat.sqrt ((x2 - x1) * (x2 - x1) + (y2 - y1) * (y2 - y1))%float) /\
  (forall ops,
      Spec.noneAccepted w ops new = true ->
      getMovementDistance (run w ops new) = 0%float) /\
  (forall currentTime x y s0,
      s0 = new \/ (exists s, s0 = resetToOrigin s) ->
      fst (updatePosition w currentTime x y s0) = true ->
      let s' := snd (updatePosition w currentTime x y s0) in
      previousX s' = 0%float /\ previousY s' = 0%float /\
      exists xn yn,
        x = Js.Number xn /\ y = Js.Number yn /\
        getMovementDistance s' =
        PrimFloat.sqrt ((xn - 0) * (xn - 0) + (yn - 0) * (yn - 0))%float).
Proof.
  split; [|split; [|split]].
  - intros ct x y s Hr s'.
    destruct (updatePosition_accepted w ct x y s Hr)
      as (xn & yn & Hx & Hy & _ & _ & Hs).
    fold s' in Hs. cbv zeta in Hs.
    destruct Hs as (Hmx & Hmy & Hpx & Hpy & Hi & _).
    split; [exact Hpx|]. split; [exact Hpy|].
    exists xn, yn. split; [exact Hx|]. split; [exact Hy|].
    unfold getMovementDistance. rewrite Hi, Hmx, Hmy. reflexivity.
  - intros t1 t2 x1 y1 x2 y2 s H1 s1 H2.
    destruct (updatePosition_accepted w t1 _ _ s H1)
      as (a & b & Ha & Hb & _ & _ & Hs1).
    fold s1 in Hs1. cbv zeta in Hs1.
    destruct Hs1 as (Hmx1 & Hmy1 & _).
    injection Ha as <-. injection Hb as <-.
    destruct (updatePosition_accepted w t2 _ _ s1 H2)
      as (c & d & Hc & Hd & _ & _ & Hs2).
    cbv zeta in Hs2.
    destruct Hs2 as (Hmx2 & Hmy2 & Hpx2 & Hpy2 & Hi2 & _).
    injection Hc as <-. injection Hd as <-.
    unfold getMovementDistance.
    rewrite Hi2, Hmx2, Hmy2, Hpx2, Hpy2, Hmx1, Hmy1. reflexivity.
  - intros ops Hn. unfold getMovementDistance.
    now rewrite (noneAccepted_not_initialized w ops new eq_refl Hn).
  - intros ct x y s0 H0 Hr s'.
    assert (Hx0 : mouseX s0 = 0%float /\ mouseY s0 = 0%float)
      by (destruct H0 as [-> | [s ->]]; split; reflexivity).
    destruct Hx0 as [Hx0 Hy0].
    destruct (updatePosition_accepted w ct x y s0 Hr)
      as (xn & yn & Hx & Hy & _ & _ & Hs).
    fold s' in Hs. cbv zeta in Hs.
    destruct Hs as (Hmx & Hmy & Hpx & Hpy & Hi & _).
    rewrite Hx0 in Hpx. rewrite Hy0 in Hpy.
    split; [exact Hpx|]. split; [exact Hpy|].
    exists xn, yn. split; [exact Hx|]. split; [exact Hy|].
    unfold getMovementDistance. rewrite Hi, Hmx, Hmy, Hpx, Hpy. reflexivity.
Qed.

(** C10 on the scenario tracker: from (10, 20) an accepted update to
    (13, 24) leaves (10, 20) as previous position and a distance of 5;
    a refused update on a new tracker leaves the distance at 0. *)
Lemma C10_distance_witness :
  (previousX (snd (updatePosition Spec.window0 32
                     (Js.Number 13) (Js.Number 24) Spec.tracker0)) = 10%float /\
   getMovementDistance (snd (updatePosition Spec.window0 32
                     (Js.Number 13) (Js.Number 24) Spec.tracker0)) = 5%float) /\
  getMovementDistance
    (run Spec.window0 [Update 16 (Js.Number (-1)) (Js.Number 5)] new) = 0%float.
Proof.
  split.
  - destruct (proj1 (C10_previous_and_distance Spec.window0)
                32%float (Js.Number 13) (Js.Number 24) Spec.tracker0 eq_refl)
      as (Hp & _ & xn & yn & Hx & Hy & Hd).
    split; [exact Hp|].
    injection Hx as <-. injection Hy as <-.
    rewrite Hd. reflexivity.
  - apply (proj1 (proj2 (proj2 (C10_previous_and_distance Spec.window0)))).
    reflexivity.
Defined.

End TrackerClaims.

(** ** Lists and the [Math.random] sequence *)

Lemma repeatM_length {A : Type} (n : nat) (c : nat -> Runtime.Rand A)
    (i : nat) (r : Runtime.Rng) :
  List.length (fst (Runtime.repeatM n c i r)) = n.
Proof.
  revert i r. induction n as [|n IH]; intros i r; simpl.
  - reflexivity.
  - unfold Runtime.bind, Runtime.ret.
    destruct (c i r) as [a r1].
    specialize (IH (S i) r1).
    destruct (Runtime.repeatM n c (S i) r1) as [l r2].
    simpl in *. now rewrite IH.
Qed.

Lemma repeatM_Forall {A : Type} (P : A -> Prop) (n : nat)
    (c : nat -> Runtime.Rand A) (i : nat) (r : Runtime.Rng) :
  (forall j r', P (fst (c j r'))) ->
  Forall P (fst (Runtime.repeatM n c i r)).
Proof.
  intros H. revert i r. induction n as [|n IH]; intros i r; simpl.
  - constructor.
  - unfold Runtime.bind, Runtime.ret.
    pose proof (H i r) as Ha. destruct (c i r) as [a r1].
    specialize (IH (S i) r1).
    destruct (Runtime.repeatM n c (S i) r1) as [l r2].
    constructor; assumption.
Qed.


(** ** EffectManager: the limit of 50 *)

Section ManagerLimit.

Import EffectManager.

Variable m : Runtime.Math.
Variable win : Js.Window.
Variable tr : option CursorTracker.t.



Lemma generateEffectId_within_limit (dateNow : float) (s : t) :
  Spec.within_limit s -> Spec.within_limit (snd (generateEffectId dateNow s)).
Proof. intros H. exact H. Qed.










End ManagerLimit.

(** ** MagicalEffectsSystem: emitters *)

Section MagicalEmitters.

Import MagicalEffectsSystem.



(** With reduced motion active every emitter returns at once. *)
Lemma magical_emitters_reduced (m : Runtime.Math) (win : Js.Window)
    (now x y : float) (rect : Rect) (s : t) (r : Runtime.Rng) :
  reducedMotion s = true ->
  createMagicalTrail now x y s r = (s, r) /\
  createClickEffect m x y s r = (s, r) /\
  createHoverEffect m rect s r = (s, r) /\
  createAmbientSparkle win s r = (s, r) /\
  ambientTick win s r = (s, r).
Proof.
  intros Hr.
  unfold createMagicalTrail, createClickEffect, createHoverEffect,
    ambientTick, createAmbientSparkle.
  rewrite Hr. repeat split.
  destruct (List.length (effects s) <? 50)%nat; reflexivity.
Qed.

End MagicalEmitters.

Section CapacityClaim.




End CapacityClaim.

(** ** Object properties *)

Section Properties.

Import Runtime.

Lemma get_set_same (k : string) (v : float) (p : Obj) :
  get k (set k v p) = Some v.
Proof.
  induction p as [|[k' v'] p IH]; simpl.
  - now rewrite String.eqb_refl.
  - destruct (String.eqb k k') eqn:E; simpl.
    + now rewrite String.eqb_refl.
    + now rewrite E.
Qed.

Lemma get_set_other (k k' : string) (v : float) (p : Obj) :
  String.eqb k k' = false -> get k (set k' v p) = get k p.
Proof.
  intros Hne. induction p as [|[k0 v0] p IH]; simpl.
  - now rewrite Hne.
  - destruct (String.eqb k' k0) eqn:E; simpl.
    + apply String.eqb_eq in E. subst k0. now rewrite Hne.
    + now rewrite IH.
Qed.

Lemma prop_set_same (k : string) (v : float) (p : Obj) :
  prop k (set k v p) = v.
Proof. unfold prop. now rewrite get_set_same. Qed.

Lemma prop_set_other (k k' : string) (v : float) (p : Obj) :
  String.eqb k k' = false -> prop k (set k' v p) = prop k p.
Proof. intros H. unfold prop. now rewrite get_set_other. Qed.

Lemma assign_preserves (k k' : string) (f : Obj -> float) :
  String.eqb k k' = false -> preserves k (assign k' f).
Proof. intros H p. unfold assign. now apply prop_set_other. Qed.

Lemma addTo_preserves (k k' : string) (f : Obj -> float) :
  String.eqb k k' = false -> preserves k (addTo k' f).
Proof. intros H. now apply assign_preserves. Qed.

Lemma subFrom_preserves (k k' : string) (f : Obj -> float) :
  String.eqb k k' = false -> preserves k (subFrom k' f).
Proof. intros H. now apply assign_preserves. Qed.

Lemma mulBy_preserves (k k' : string) (c : float) :
  String.eqb k k' = false -> preserves k (mulBy k' c).
Proof. intros H. now apply assign_preserves. Qed.

Lemma assignIf_preserves (k k' : string) (c : Obj -> bool) (f : Obj -> float) :
  String.eqb k k' = false -> preserves k (assignIf c k' f).
Proof.
  intros H p. unfold assignIf. destruct (c p); [|reflexivity].
  now apply prop_set_other.
Qed.

Lemma exec_app (a b : list (Obj -> Obj)) (p : Obj) :
  exec (a ++ b) p = exec b (exec a p).
Proof. unfold exec. apply fold_left_app. Qed.

Lemma exec_preserves (k : string) (stmts : list (Obj -> Obj)) (p : Obj) :
  Forall (preserves k) stmts -> prop k (exec stmts p) = prop k p.
Proof.
  intros H. revert p. induction H as [|st stmts Hst _ IH]; intros p.
  - reflexivity.
  - unfold exec in *. simpl. rewrite IH. apply Hst.
Qed.

End Properties.

Ltac preserved :=
  repeat first
    [ apply Forall_nil
    | apply Forall_cons
    | apply Forall_app; split
    | apply addTo_preserves; reflexivity
    | apply subFrom_preserves; reflexivity
    | apply mulBy_preserves; reflexivity
    | apply assignIf_preserves; reflexivity
    | apply assign_preserves; reflexivity ].

(** ** MagicalEffectsSystem: the frame updater *)

Section MagicalFrames.

Import MagicalEffectsSystem.

Variable m : Runtime.Math.
Variable now : float.

Lemma typeUpdate_preserves (k : string) (ty : string) (p0 : Runtime.Obj) :
  k = "life" \/ k = "maxLife" ->
  Forall (Runtime.preserves k) (typeUpdate m now ty p0).
Proof.
  intros Hk. unfold typeUpdate.
  repeat match goal with
         | |- context [if ?c then _ else _] => destruct c
         end;
    try (destruct (Runtime.get "sparklePhase" p0));
    try (destruct (Runtime.get "bouncePhase" p0));
    destruct Hk as [-> | ->]; preserved.
Qed.

Lemma commonUpdate_life (p : Runtime.Obj) :
  Runtime.prop "life" (Runtime.exec commonUpdate p) =
  (Runtime.prop "life" p - 1 / Runtime.prop "maxLife" p)%float.
Proof.
  unfold commonUpdate, Runtime.exec, Runtime.addTo, Runtime.subFrom,
    Runtime.assign. simpl.
  rewrite prop_set_other by reflexivity.
  rewrite prop_set_same.
  now rewrite !prop_set_other by reflexivity.
Qed.

Lemma commonUpdate_maxLife (p : Runtime.Obj) :
  Runtime.prop "maxLife" (Runtime.exec commonUpdate p) =
  Runtime.prop "maxLife" p.
Proof. apply exec_preserves. unfold commonUpdate. preserved. Qed.

Lemma updateEffect_life (e : Effect) :
  life (fst (updateEffect m now e)) = (life e - 1 / maxLife e)%float.
Proof.
  unfold updateEffect, life, maxLife. cbn [fst props].
  rewrite exec_app, exec_preserves.
  - apply commonUpdate_life.
  - apply typeUpdate_preserves. now left.
Qed.

Lemma updateEffect_maxLife (e : Effect) :
  maxLife (fst (updateEffect m now e)) = maxLife e.
Proof.
  unfold updateEffect, maxLife. cbn [fst props].
  rewrite exec_app, exec_preserves.
  - apply commonUpdate_maxLife.
  - apply typeUpdate_preserves. now right.
Qed.

Lemma animateEffects_spec (l : list Effect) :
  fst (animateEffects m now l) =
    List.map fst (List.filter snd (List.map (updateEffect m now) l)) /\
  snd (animateEffects m now l) = fst (animateEffects m now l).
Proof.
  induction l as [|e l [IH1 IH2]].
  - split; reflexivity.
  - cbn [animateEffects List.map List.filter].
    destruct (updateEffect m now e) as [e' alive].
    destruct (animateEffects m now l) as [kept drawn].
    cbn [fst snd] in *. subst.
    destruct alive; split; reflexivity.
Qed.

Lemma animateEffects_alive (l : list Effect) :
  Forall (fun d => Js.gt (life d) 0 = true) (snd (animateEffects m now l)).
Proof.
  induction l as [|e l IH].
  - constructor.
  - cbn [animateEffects].
    destruct (updateEffect m now e) as [e' alive] eqn:E.
    destruct (animateEffects m now l) as [kept drawn].
    cbn [fst snd] in *. destruct alive; [|exact IH].
    constructor; [|exact IH].
    unfold updateEffect in E. injection E as <- Ha. exact Ha.
Qed.

End MagicalFrames.

(** ** ParticleSystem *)

Section ParticleFacts.

Import ParticleSystem.

Lemma updateParticle_life (m : Runtime.Math) (win : Js.Window) (now : float)
    (s : t) (p : Particle) :
  life (updateParticle m win now s p) = life p.
Proof.
  unfold updateParticle, life. cbn [props].
  apply exec_preserves.
  destruct (isHeroHovered s);
    destruct (String.eqb (type p) "sparkle");
    destruct (String.eqb (type p) "glow"); preserved.
Qed.

Lemma createParticles_length (s : t) (r : Runtime.Rng) :
  List.length (particles (fst (createParticles s r))) = particleCount s /\
  particleCount (fst (createParticles s r)) = particleCount s /\
  reducedMotion (fst (createParticles s r)) = reducedMotion s.
Proof.
  unfold createParticles, Runtime.bind, Runtime.ret.
  pose proof (repeatM_length (particleCount s) (fun _ => createParticle s) 0 r) as H.
  destruct (Runtime.repeatM (particleCount s) (fun _ => createParticle s) 0 r)
    as [l r1].
  simpl in *. auto.
Qed.

(** The two listeners of a change into reduced motion, one after the
    other: the count becomes the configured one scaled by 0.1 and then
    by 0.3, and the list is rebuilt from [createParticle] calls. *)
Lemma onMotionChange_reduced_rebuild (s : t) (r : Runtime.Rng) :
  let s' := fst (onMotionChange true s r) in
  particleCount s' =
    scaled (scaled (configuredCount (optionsCount s)) 0.1) 0.3 /\
  exists s1 r1,
    particles s' =
      fst (Runtime.repeatM (particleCount s') (fun _ => createParticle s1) 0 r1).
Proof.
  cbv zeta. unfold onMotionChange, Runtime.bind.
  assert (H1 : particleCount (fst (constructorListener true s r)) =
               scaled (configuredCount (optionsCount s)) 0.1).
  { unfold constructorListener, createParticles, Runtime.bind, Runtime.ret.
    destruct (Runtime.repeatM _ _ 0 r) as [l r1]. reflexivity. }
  destruct (constructorListener true s r) as [s1 r1]. cbn [fst] in H1.
  unfold bindEventsListener, createParticles, Runtime.bind, Runtime.ret.
  match goal with
  | |- context [Runtime.repeatM ?n ?f 0 r1] =>
      destruct (Runtime.repeatM n f 0 r1) as [l r2] eqn:E
  end.
  cbn [fst particleCount particles with_particles with_motion].
  split; [now rewrite H1|].
  exists (with_motion true (scaled (particleCount s1) 0.3) s1), r1.
  symmetry. exact (f_equal fst E).
Qed.

Lemma onMotionChange_rebuilds (matches : bool) (s : t) (r : Runtime.Rng) :
  let s' := fst (onMotionChange matches s r) in
  reducedMotion s' = matches /\
  List.length (particles s') = particleCount s'.
Proof.
  unfold onMotionChange, Runtime.bind.
  destruct (constructorListener matches s r) as [s1 r1].
  unfold bindEventsListener.
  destruct (createParticles_length
              (with_motion matches
                 (if matches then scaled (particleCount s1) 0.3 else 50) s1) r1)
    as (Hl & Hc & Hm).
  cbv zeta. rewrite Hl, Hc, Hm. split; reflexivity.
Qed.

End ParticleFacts.

(** ** EffectManager: refused emitter calls *)

Section ManagerRefusals.

Import EffectManager.

Variable m : Runtime.Math.
Variable win : Js.Window.

Lemma isValidPosition_tracker (x y : Js.Value) :
  isValidPosition win x y = CursorTracker.isValidPosition (Some win) x y.
Proof. reflexivity. Qed.

Lemma readPosition_tracker (tr : option CursorTracker.t) :
  snd (readPosition win tr) = tr.
Proof. destruct tr; reflexivity. Qed.

Lemma effectCoordinate_given (v : Js.Value) (tracked : option float) :
  v <> Js.Undefined -> effectCoordinate v tracked = v.
Proof. intros H. destruct v; try reflexivity. now contradict H. Qed.

Lemma used_rejected_invalid (tr : option CursorTracker.t) (x y : Js.Value) :
  Spec.rejected_coordinate (Js.innerWidth win * 2)%float (Spec.usedX win tr x) \/
  Spec.rejected_coordinate (Js.innerHeight win * 2)%float (Spec.usedY win tr y) ->
  isValidPosition win (Spec.usedX win tr x) (Spec.usedY win tr y) = false.
Proof.
  rewrite isValidPosition_tracker.
  intros [H | H]; [now apply rejected_x_invalid | now apply rejected_y_invalid].
Qed.

Lemma createRippleEffect_refused (clk : Runtime.Clock) (x y : Js.Value)
    (options : RippleOptions) (tr : option CursorTracker.t) (s : t) :
  Spec.refused win tr s x y ->
  createRippleEffect win clk x y options tr s = (None, tr, s).
Proof.
  intros H. unfold createRippleEffect.
  destruct (reducedMotion s) eqn:Hr; [reflexivity|].
  destruct H as [H | H]; [congruence|].
  pose proof (readPosition_tracker tr) as Ht.
  pose proof (used_rejected_invalid tr x y H) as Hv.
  unfold Spec.usedX, Spec.usedY in Hv.
  destruct (readPosition win tr) as [position tr']. simpl in Ht. subst tr'.
  cbn [fst] in Hv. now rewrite Hv.
Qed.

Lemma createSparkleEffect_refused (clk : Runtime.Clock) (x y : Js.Value)
    (options : SparkleOptions) (tr : option CursorTracker.t) (s : t)
    (r : Runtime.Rng) :
  Spec.refused win tr s x y ->
  createSparkleEffect m win clk x y options tr s r = (([], tr, s), r).
Proof.
  intros H. unfold createSparkleEffect.
  destruct (reducedMotion s) eqn:Hr; [reflexivity|].
  destruct H as [H | H]; [congruence|].
  pose proof (readPosition_tracker tr) as Ht.
  pose proof (used_rejected_invalid tr x y H) as Hv.
  unfold Spec.usedX, Spec.usedY in Hv.
  destruct (readPosition win tr) as [position tr']. simpl in Ht. subst tr'.
  cbn [fst] in Hv. now rewrite Hv.
Qed.

Lemma createClickEffect_refused (clk : Runtime.Clock) (x y : Js.Value)
    (options : ClickOptions) (tr : option CursorTracker.t) (s : t)
    (r : Runtime.Rng) :
  Spec.refused win tr s x y ->
  createClickEffect m win clk x y options tr s r =
  ((mkClickResult None [], tr, s), r).
Proof.
  intros H. unfold createClickEffect.
  destruct (reducedMotion s) eqn:Hr; [reflexivity|].
  rewrite (createRippleEffect_refused clk x y _ tr s H).
  unfold Runtime.bind.
  now rewrite (createSparkleEffect_refused clk x y _ tr s r H).
Qed.

(** What the emitters work with: a given argument as it is; without a
    tracker an [undefined] argument stays [undefined]; with a tracker
    it becomes the tracker's coordinate. *)
Lemma used_coordinates (tr : option CursorTracker.t) (v : Js.Value) :
  (v <> Js.Undefined ->
   Spec.usedX win tr v = v /\ Spec.usedY win tr v = v) /\
  (tr = None ->
   Spec.usedX win tr v = v /\ Spec.usedY win tr v = v) /\
  (forall c, tr = Some c ->
   Spec.usedX win tr Js.Undefined = Js.Number (CursorTracker.mouseX c) /\
   Spec.usedY win tr Js.Undefined = Js.Number (CursorTracker.mouseY c)).
Proof.
  unfold Spec.usedX, Spec.usedY. split; [|split].
  - intros H. split; now apply effectCoordinate_given.
  - intros ->. destruct v; split; reflexivity.
  - intros c ->. split; reflexivity.
Qed.

End ManagerRefusals.

(** ** ScreenSparklesSystem *)

Section SparkleFacts.

Import ScreenSparklesSystem.

Lemma createSparkles_length (now : float) (s : t) (r : Runtime.Rng) :
  List.length (sparkles (fst (createSparkles now s r))) = sparkleCount s /\
  sparkleCount (fst (createSparkles now s r)) = sparkleCount s /\
  reducedMotion (fst (createSparkles now s r)) = reducedMotion s.
Proof.
  unfold createSparkles, Runtime.bind, Runtime.ret.
  pose proof (repeatM_length (sparkleCount s) (fun _ => createSparkle now s) 0 r) as H.
  destruct (Runtime.repeatM (sparkleCount s) (fun _ => createSparkle now s) 0 r)
    as [l r1].
  simpl in *. auto.
Qed.

Lemma onMotionChange_reduced (now : float) (s : t) (r : Runtime.Rng) :
  onMotionChange now true s r =
  ({| sparkles := []; sparkleCount := 0; reducedMotion := true;
      canvasWidth := canvasWidth s; canvasHeight := canvasHeight s |}, r).
Proof. reflexivity. Qed.

End SparkleFacts.

Section ReducedMotionClaim.

(** C3, as the claim states it, fails for [ParticleSystem]: a system
    built with the default options holds 50 particles, and after the
    reduced-motion preference switches on its list is rebuilt with one
    newly created particle instead of being emptied. *)
Lemma C3_particle_system_not_cleared :
  List.length (ParticleSystem.particles Spec.particles0) = 50 /\
  ParticleSystem.reducedMotion Spec.particlesReduced = true /\
  List.length (ParticleSystem.particles Spec.particlesReduced) = 1.
Proof. vm_compute. repeat split. Qed.

(** C3, amended. In [MagicalEffectsSystem], [EffectManager] and
    [ScreenSparklesSystem], while the reduced-motion flag is set every
    emitter call returns without touching the particle list (or the
    [Math.random] sequence), and the listener that sets the flag empties
    the list.  [ParticleSystem] does not empty its list by assignment:
    its two listeners rebuild it with newly created particles, as many
    as the configured count scaled by 0.1 and then by 0.3 with each
    product rounded down, which is 1 for a system built without options
    (as the page builds it) and 0 for a configured count from 1 to 39;
    under reduced motion [animate] then draws these particles without
    updating them. *)
Theorem C3_reduced_motion_gate :
  (forall m win now x y rect s r,
      MagicalEffectsSystem.reducedMotion s = true ->
      MagicalEffectsSystem.createMagicalTrail now x y s r = (s, r) /\
      MagicalEffectsSystem.createClickEffect m x y s r = (s, r) /\
      MagicalEffectsSystem.createHoverEffect m rect s r = (s, r) /\
      MagicalEffectsSystem.createAmbientSparkle win s r = (s, r) /\
      MagicalEffectsSystem.ambientTick win s r = (s, r)) /\
  (forall s,
      MagicalEffectsSystem.effects
        (MagicalEffectsSystem.onMotionChange true s) = [] /\
      MagicalEffectsSystem.reducedMotion
        (MagicalEffectsSystem.onMotionChange true s) = true) /\
  (forall m win clk x y ro so co tr s r,
      EffectManager.reducedMotion s = true ->
      EffectManager.createRippleEffect win clk x y ro tr s = (None, tr, s) /\
      EffectManager.createSparkleEffect m win clk x y so tr s r =
        (([], tr, s), r) /\
      EffectManager.createClickEffect m win clk x y co tr s r =
        ((EffectManager.mkClickResult None [], tr, s), r)) /\
  (forall s,
      EffectManager.activeEffects (EffectManager.onMotionChange true s) = [] /\
      EffectManager.reducedMotion (EffectManager.onMotionChange true s) = true) /\
  (forall now s r,
      ScreenSparklesSystem.reducedMotion s = true ->
      ScreenSparklesSystem.onClick now s r = (s, r)) /\
  (forall now s r,
      ScreenSparklesSystem.sparkles
        (fst (ScreenSparklesSystem.onMotionChange now true s r)) = [] /\
      ScreenSparklesSystem.reducedMotion
        (fst (ScreenSparklesSystem.onMotionChange now true s r)) = true /\
      forall win now' r',
        ScreenSparklesSystem.sparkles
          (fst (ScreenSparklesSystem.onResize win now'
                  (fst (ScreenSparklesSystem.onMotionChange now true s r)) r'))
        = []) /\
  (forall s r,
      let s' := fst (ParticleSystem.onMotionChange true s r) in
      ParticleSystem.reducedMotion s' = true /\
      ParticleSystem.particleCount s' =
        ParticleSystem.scaled
          (ParticleSystem.scaled
             (ParticleSystem.configuredCount (ParticleSystem.optionsCount s))
             0.1) 0.3 /\
      List.length (ParticleSystem.particles s') =
        ParticleSystem.particleCount s' /\
      (exists s1 r1,
         ParticleSystem.particles s' =
           fst (Runtime.repeatM (ParticleSystem.particleCount s')
                  (fun _ => ParticleSystem.createParticle s1) 0 r1)) /\
      (ParticleSystem.optionsCount s = None ->
       List.length (ParticleSystem.particles s') = 1) /\
      (forall count,
         ParticleSystem.optionsCount s = Some count ->
         1 <= count < 40 -> ParticleSystem.particles s' = []) /\
      (forall m win now,
         ParticleSystem.animate m win now s' =
           (ParticleSystem.particles s', s'))).
Proof.
  split.
  { intros m win now x y rect s r Hr. now apply magical_emitters_reduced. }
  split.
  { intros s. split; reflexivity. }
  split.
  { intros m win clk x y ro so co tr s r Hr.
    assert (H : Spec.refused win tr s x y) by (left; exact Hr).
    split; [|split].
    - now apply createRippleEffect_refused.
    - now apply createSparkleEffect_refused.
    - now apply createClickEffect_refused. }
  split.
  { intros s. split; reflexivity. }
  split.
  { intros now s r Hr. unfold ScreenSparklesSystem.onClick. now rewrite Hr. }
  split.
  { intros now s r. rewrite onMotionChange_reduced.
    split; [reflexivity|]. split; [reflexivity|].
    intros win now' r'. reflexivity. }
  intros s r.
  destruct (onMotionChange_rebuilds true s r) as [Hm Hl].
  destruct (onMotionChange_reduced_rebuild s r) as [Hc Hn].
  cbv zeta in *.
  split; [exact Hm|]. split; [exact Hc|]. split; [exact Hl|].
  split; [exact Hn|]. split; [|split].
  - intros Ho. rewrite Hl, Hc, Ho. vm_compute. reflexivity.
  - intros count Ho Hcount.
    apply length_zero_iff_nil. rewrite Hl, Hc, Ho.
    destruct count as [|count]; [lia|].
    do 39 (destruct count as [|count]; [vm_compute; reflexivity|]). lia.
  - intros m win now. unfold ParticleSystem.animate. now rewrite Hm.
Qed.

(** C3, amended, on concrete systems: with the flag set, a click on a
    [MagicalEffectsSystem] holding the particles of an earlier click
    changes nothing, and the listener empties its list. *)
Lemma C3_reduced_motion_witness :
  MagicalEffectsSystem.createClickEffect Spec.math0 100 100
    (MagicalEffectsSystem.mkSystem Spec.clickAt100 true 0 0 0) Spec.rngHalf =
  (MagicalEffectsSystem.mkSystem Spec.clickAt100 true 0 0 0, Spec.rngHalf) /\
  MagicalEffectsSystem.effects
    (MagicalEffectsSystem.onMotionChange true
       (MagicalEffectsSystem.mkSystem Spec.clickAt100 false 0 0 0)) = [].
Proof.
  split.
  - apply (proj1 C3_reduced_motion_gate Spec.math0 Spec.win0 0%float
             100%float 100%float (MagicalEffectsSystem.mkRect 0 0 0 0)
             (MagicalEffectsSystem.mkSystem Spec.clickAt100 true 0 0 0)
             Spec.rngHalf eq_refl).
  - apply (proj1 (proj2 C3_reduced_motion_gate)).
Defined.

End ReducedMotionClaim.

(** ** MagicalEffectsSystem: particles in the course of their life *)

Section LivelyParticles.

Import MagicalEffectsSystem.
Import Invariants.

Variable m : Runtime.Math.

Lemma lively_intro (e : Effect) :
  Js.gt (life e) 0 = true -> Js.le (life e) 1 = true ->
  Js.ge (maxLife e) 1 = true -> Js.le (maxLife e) 256 = true ->
  lively e = true.
Proof. unfold lively. now intros -> -> -> ->. Qed.

Lemma lively_elim (e : Effect) :
  lively e = true ->
  Js.gt (life e) 0 = true /\ Js.le (life e) 1 = true /\
  Js.ge (maxLife e) 1 = true /\ Js.le (maxLife e) 256 = true.
Proof.
  unfold lively. intros H.
  apply andb_prop in H as [H H4]. apply andb_prop in H as [H H3].
  apply andb_prop in H as [H1 H2]. now repeat split.
Qed.

(** The life of a particle in the course of its life strictly
    decreases with every update. *)
Lemma updateEffect_decreases (now : float) (e : Effect) :
  lively e = true ->
  Js.lt (life (fst (updateEffect m now e))) (life e) = true.
Proof.
  intros H. destruct (lively_elim e H) as (H1 & H2 & H3 & H4).
  rewrite updateEffect_life. now apply sub_div_smaller.
Qed.

(** A particle that survives an update is still in the course of its
    life. *)
Lemma updateEffect_lively (now : float) (e : Effect) :
  lively e = true -> snd (updateEffect m now e) = true ->
  lively (fst (updateEffect m now e)) = true.
Proof.
  intros H Ha. pose proof (updateEffect_decreases now e H) as Hd.
  destruct (lively_elim e H) as (H1 & H2 & H3 & H4).
  apply lively_intro.
  - exact Ha.
  - exact (below_one _ _ Ha Hd H2).
  - now rewrite updateEffect_maxLife.
  - now rewrite updateEffect_maxLife.
Qed.

Lemma animate_lively (now : float) (s : t) :
  all_lively s -> all_lively (snd (animate m now s)).
Proof.
  unfold all_lively, animate.
  destruct (animateEffects_spec m now (effects s)) as [Hk _].
  destruct (animateEffects m now (effects s)) as [kept drawn].
  cbn [fst snd effects with_effects] in *. subst kept.
  induction 1 as [|e l He _ IH]; [constructor|].
  cbn [List.map List.filter].
  destruct (snd (updateEffect m now e)) eqn:Ha; [|exact IH].
  cbn [List.map]. constructor; [|exact IH].
  now apply updateEffect_lively.
Qed.

End LivelyParticles.

Section LivelyEmitters.

Import MagicalEffectsSystem.
Import Invariants.

Variable m : Runtime.Math.

Lemma unit_affine (r : Runtime.Rng) (n : nat) (c k : float) :
  unitDraws r ->
  PrimFloat.leb 1 c = true -> PrimFloat.leb c 128 = true ->
  PrimFloat.leb 2 k = true -> PrimFloat.leb k 64 = true ->
  PrimFloat.leb 1 (Runtime.draws r n * c + k) = true /\
  PrimFloat.leb (Runtime.draws r n * c + k) 256 = true.
Proof.
  intros H Hc1 Hc2 Hk1 Hk2. destruct (H n) as [H0 H1].
  now apply affine_bounds.
Qed.

Ltac lively_created H :=
  cbv [Runtime.bind Runtime.ret Runtime.random Runtime.pick
       fst snd Runtime.draws Runtime.cursor];
  apply lively_intro;
  [ reflexivity | reflexivity
  | first [ reflexivity
          | vm_compute; refine (proj1 (unit_affine _ _ _ _ H _ _ _ _)); reflexivity ]
  | first [ reflexivity
          | vm_compute; refine (proj2 (unit_affine _ _ _ _ H _ _ _ _)); reflexivity ] ].

Lemma trailBubble_lively (x y : float) (r : Runtime.Rng) :
  unitDraws r -> lively (fst (trailBubble x y r)) = true.
Proof. intros H. unfold trailBubble. lively_created H. Qed.

Lemma trailSparkle_lively (x y : float) (r : Runtime.Rng) :
  unitDraws r -> lively (fst (trailSparkle x y r)) = true.
Proof. intros H. unfold trailSparkle. lively_created H. Qed.

Lemma largeBubble_lively (x y : float) (r : Runtime.Rng) :
  unitDraws r -> lively (fst (largeBubble x y r)) = true.
Proof. intros H. unfold largeBubble. lively_created H. Qed.

Lemma clickBubble_lively (x y : float) (i : nat) (r : Runtime.Rng) :
  lively (fst (clickBubble m x y i r)) = true.
Proof. reflexivity. Qed.

Lemma hoverSparkle_lively (rect : Rect) (i : nat) (r : Runtime.Rng) :
  lively (fst (hoverSparkle m rect i r)) = true.
Proof. reflexivity. Qed.


Lemma unitDraws_same (r r' : Runtime.Rng) :
  Runtime.draws r' = Runtime.draws r -> unitDraws r -> unitDraws r'.
Proof. unfold unitDraws. now intros ->. Qed.

Lemma repeatM_unit {A : Type} (P : A -> Prop) (n : nat)
    (c : nat -> Runtime.Rand A) (i : nat) (r : Runtime.Rng) :
  (forall j r', unitDraws r' ->
                P (fst (c j r')) /\ Runtime.draws (snd (c j r')) = Runtime.draws r') ->
  unitDraws r ->
  Forall P (fst (Runtime.repeatM n c i r)) /\
  Runtime.draws (snd (Runtime.repeatM n c i r)) = Runtime.draws r.
Proof.
  intros H. revert i r. induction n as [|n IH]; intros i r Hr; simpl.
  - split; [constructor | reflexivity].
  - unfold Runtime.bind, Runtime.ret.
    destruct (H i r Hr) as [Ha Hd]. destruct (c i r) as [a r1].
    cbn [fst snd] in Ha, Hd.
    destruct (IH (S i) r1 (unitDraws_same r r1 Hd Hr)) as [Hl Hd'].
    destruct (Runtime.repeatM n c (S i) r1) as [l r2].
    cbn [fst snd] in *. split; [now constructor | congruence].
Qed.

Lemma createMagicalTrail_lively (now x y : float) (s : t) (r : Runtime.Rng) :
  unitDraws r -> all_lively s ->
  all_lively (fst (createMagicalTrail now x y s r)).
Proof.
  intros Hr Hs. unfold createMagicalTrail.
  destruct (reducedMotion s); [exact Hs|].
  destruct (Js.lt _ 40); [exact Hs|].
  unfold Runtime.bind.
  destruct (repeatM_unit (fun e => lively e = true) 4
              (fun _ => trailBubble x y) 0 r) as [H4 D4];
    [intros j r' Hr'; split; [now apply trailBubble_lively | reflexivity]
    | exact Hr |].
  destruct (Runtime.repeatM 4 (fun _ => trailBubble x y) 0 r) as [bubbles r1].
  cbn [fst snd] in H4, D4.
  pose proof (unitDraws_same r r1 D4 Hr) as Hr1.
  destruct (repeatM_unit (fun e => lively e = true) 2
              (fun _ => trailSparkle x y) 0 r1) as [H2 D2];
    [intros j r' Hr'; split; [now apply trailSparkle_lively | reflexivity]
    | exact Hr1 |].
  destruct (Runtime.repeatM 2 (fun _ => trailSparkle x y) 0 r1) as [sparkles r2].
  cbn [fst snd] in H2, D2.
  pose proof (unitDraws_same r1 r2 D2 Hr1) as Hr2.
  unfold Runtime.random.
  set (r3 := Runtime.mkRng (Runtime.draws r2) (S (Runtime.cursor r2))).
  assert (Hr3 : unitDraws r3) by (now apply (unitDraws_same r2)).
  destruct (Js.lt _ 0.4).
  - pose proof (largeBubble_lively x y r3 Hr3) as Hb.
    destruct (largeBubble x y r3) as [big r4]. cbn [fst] in Hb.
    unfold all_lively, Runtime.ret. cbn [fst effects with_effects].
    rewrite !Forall_app. repeat split; try assumption.
    constructor; [exact Hb | constructor].
  - unfold all_lively, Runtime.ret. cbn [fst effects with_effects].
    rewrite !Forall_app. repeat split; assumption.
Qed.

Lemma createClickEffect_lively (x y : float) (s : t) (r : Runtime.Rng) :
  all_lively s -> all_lively (fst (createClickEffect m x y s r)).
Proof.
  intros Hs. unfold createClickEffect.
  destruct (reducedMotion s); [exact Hs|].
  unfold Runtime.bind, Runtime.ret.
  assert (Hc : List.forallb lively (fst (clickParticles m x y r)) = true)
    by reflexivity.
  destruct (clickParticles m x y r) as [created r1].
  unfold all_lively in *. cbn [fst effects with_effects] in *.
  rewrite Forall_app. split.
  - apply Forall_forall. intros e He. apply filter_In in He as [He _].
    rewrite Forall_forall in Hs. now apply Hs.
  - apply Forall_forall. rewrite forallb_forall in Hc. exact Hc.
Qed.

Lemma createHoverEffect_lively (rect : Rect) (s : t) (r : Runtime.Rng) :
  all_lively s -> all_lively (fst (createHoverEffect m rect s r)).
Proof.
  intros Hs. unfold createHoverEffect.
  destruct (reducedMotion s); [exact Hs|].
  unfold Runtime.bind, Runtime.ret.
  pose proof (repeatM_Forall (fun e => lively e = true) 6
                (hoverSparkle m rect) 0 r
                (fun j r' => hoverSparkle_lively rect j r')) as Hc.
  destruct (Runtime.repeatM 6 (hoverSparkle m rect) 0 r) as [created r1].
  unfold all_lively in *. cbn [fst effects with_effects] in *.
  rewrite Forall_app. now split.
Qed.

Lemma createAmbientSparkle_lively (win : Js.Window) (s : t) (r : Runtime.Rng) :
  unitDraws r -> all_lively s ->
  all_lively (fst (createAmbientSparkle win s r)).
Proof.
  intros Hr Hs. unfold createAmbientSparkle.
  destruct (reducedMotion s); [exact Hs|].
  cbv [Runtime.bind Runtime.ret Runtime.random fst snd
       Runtime.draws Runtime.cursor push].
  unfold all_lively in *. cbn [effects with_effects].
  rewrite Forall_app. split; [exact Hs|].
  constructor; [|constructor].
  apply lively_intro;
    [ reflexivity | reflexivity
    | vm_compute; refine (proj1 (unit_affine _ _ _ _ Hr _ _ _ _)); reflexivity
    | vm_compute; refine (proj2 (unit_affine _ _ _ _ Hr _ _ _ _)); reflexivity ].
Qed.

Lemma ambientTick_lively (win : Js.Window) (s : t) (r : Runtime.Rng) :
  unitDraws r -> all_lively s -> all_lively (fst (ambientTick win s r)).
Proof.
  intros Hr Hs. unfold ambientTick.
  destruct (_ <? 50)%nat; [now apply createAmbientSparkle_lively | exact Hs].
Qed.

Lemma onMotionChange_lively (matches : bool) (s : t) :
  all_lively s -> all_lively (onMotionChange matches s).
Proof.
  intros Hs. unfold all_lively, onMotionChange. cbn [effects].
  destruct matches; [constructor | exact Hs].
Qed.

End LivelyEmitters.

Section LifeClaim.

(** C4, as the claim states it, fails for [ParticleSystem]: every
    particle of a default system has life 1, and after a frame of
    [animate] all 50 particles are still in the list with life 1. *)
Lemma C4_particle_life_constant :
  List.map ParticleSystem.life (ParticleSystem.particles Spec.particles0) =
    List.repeat 1%float 50 /\
  List.map ParticleSystem.life
    (ParticleSystem.particles
       (snd (ParticleSystem.animate Spec.math0 Spec.win0 16 Spec.particles0))) =
    List.repeat 1%float 50.
Proof. vm_compute. split; reflexivity. Qed.

(** C4, amended. In [MagicalEffectsSystem] every [updateEffect] call
    replaces [life] by [life - 1/maxLife] and leaves [maxLife] alone,
    whatever the effect's type, and returns [life > 0] for the new
    value; a frame of [animate] keeps exactly the effects whose updated
    life is [> 0] and hands exactly those to [drawEffect], so no effect
    with life [<= 0] is drawn.  For a particle in the course of its
    life (life in (0, 1], maxLife between 1 and 256) the update
    strictly decreases [life], and a particle that survives it is
    still in the course of its life.  Every particle of the system is
    one: the list is empty at construction, every emitter keeps the
    property (the particles it creates have life 1 and a maxLife
    within these bounds) when [Math.random()] returns numbers in
    [0, 1), and frames and motion changes keep it.  [ParticleSystem.updateParticle] never
    changes [life] and [ParticleSystem.animate] never removes a
    particle. *)
Theorem C4_life_decay_and_removal :
  (forall m now e,
      MagicalEffectsSystem.life
        (fst (MagicalEffectsSystem.updateEffect m now e)) =
        (MagicalEffectsSystem.life e - 1 / MagicalEffectsSystem.maxLife e)%float /\
      MagicalEffectsSystem.maxLife
        (fst (MagicalEffectsSystem.updateEffect m now e)) =
        MagicalEffectsSystem.maxLife e /\
      snd (MagicalEffectsSystem.updateEffect m now e) =
        Js.gt (MagicalEffectsSystem.life
                 (fst (MagicalEffectsSystem.updateEffect m now e))) 0) /\
  (forall m now e,
      Invariants.lively e = true ->
      Js.lt (MagicalEffectsSystem.life
               (fst (MagicalEffectsSystem.updateEffect m now e)))
            (MagicalEffectsSystem.life e) = true /\
      (snd (MagicalEffectsSystem.updateEffect m now e) = true ->
       Invariants.lively
         (fst (MagicalEffectsSystem.updateEffect m now e)) = true)) /\
  (forall m now s,
      MagicalEffectsSystem.effects (snd (MagicalEffectsSystem.animate m now s)) =
        List.map fst
          (List.filter snd
             (List.map (MagicalEffectsSystem.updateEffect m now)
                (MagicalEffectsSystem.effects s))) /\
      fst (MagicalEffectsSystem.animate m now s) =
        MagicalEffectsSystem.effects (snd (MagicalEffectsSystem.animate m now s)) /\
      Forall (fun d => Js.gt (MagicalEffectsSystem.life d) 0 = true)
        (fst (MagicalEffectsSystem.animate m now s)) /\
      (Invariants.all_lively s ->
       Invariants.all_lively (snd (MagicalEffectsSystem.animate m now s)))) /\
  (forall matches,
      Invariants.all_lively (MagicalEffectsSystem.new matches)) /\
  (forall m win now x y rect matches s r,
      Invariants.unitDraws r ->
      Invariants.all_lively s ->
      Invariants.all_lively
        (fst (MagicalEffectsSystem.createMagicalTrail now x y s r)) /\
      Invariants.all_lively
        (fst (MagicalEffectsSystem.createClickEffect m x y s r)) /\
      Invariants.all_lively
        (fst (MagicalEffectsSystem.createHoverEffect m rect s r)) /\
      Invariants.all_lively
        (fst (MagicalEffectsSystem.createAmbientSparkle win s r)) /\
      Invariants.all_lively
        (fst (MagicalEffectsSystem.ambientTick win s r)) /\
      Invariants.all_lively
        (MagicalEffectsSystem.onMotionChange matches s)) /\
  (forall m win now s p,
      ParticleSystem.life (ParticleSystem.updateParticle m win now s p) =
      ParticleSystem.life p) /\
  (forall m win now s,
      List.length
        (ParticleSystem.particles (snd (ParticleSystem.animate m win now s))) =
      List.length (ParticleSystem.particles s)).
Proof.
  split.
  { intros m now e. split; [apply updateEffect_life|].
    split; [apply updateEffect_maxLife | reflexivity]. }
  split.
  { intros m now e H. split.
    - now apply updateEffect_decreases.
    - now apply updateEffect_lively. }
  split.
  { intros m now s.
    pose proof (animate_lively m now s) as Hal.
    unfold MagicalEffectsSystem.animate in *.
    destruct (animateEffects_spec m now (MagicalEffectsSystem.effects s))
      as [Hk Hd].
    pose proof (animateEffects_alive m now (MagicalEffectsSystem.effects s))
      as Ha.
    destruct (MagicalEffectsSystem.animateEffects m now
                (MagicalEffectsSystem.effects s)) as [kept drawn].
    cbn [fst snd MagicalEffectsSystem.effects
         MagicalEffectsSystem.with_effects] in *.
    split; [exact Hk|]. split; [exact Hd|]. split; [exact Ha | exact Hal]. }
  split.
  { intros matches. constructor. }
  split.
  { intros m win now x y rect matches s r Hr Hs.
    split; [now apply createMagicalTrail_lively|].
    split; [now apply createClickEffect_lively|].
    split; [now apply createHoverEffect_lively|].
    split; [now apply createAmbientSparkle_lively|].
    split; [now apply ambientTick_lively|].
    now apply onMotionChange_lively. }
  split.
  { intros m win now s p. apply updateParticle_life. }
  intros m win now s. unfold ParticleSystem.animate.
  destruct (negb (ParticleSystem.reducedMotion s)); simpl; [|reflexivity].
  apply length_map.
Qed.

(** C4, amended, on a particle of the click at (100, 100): the
    expanding ring (life 1, maxLife 25) is in the course of its life,
    its first update leaves it a smaller life, and it survives that
    update still in the course of its life. *)
Lemma C4_ring_life_decreases :
  Js.lt (MagicalEffectsSystem.life
           (fst (MagicalEffectsSystem.updateEffect Spec.math0 0
                   (MagicalEffectsSystem.expandingRing 100 100))))
        (MagicalEffectsSystem.life
           (MagicalEffectsSystem.expandingRing 100 100)) = true /\
  Invariants.lively
    (fst (MagicalEffectsSystem.updateEffect Spec.math0 0
            (MagicalEffectsSystem.expandingRing 100 100))) = true.
Proof.
  destruct (proj1 (proj2 C4_life_decay_and_removal) Spec.math0 0%float
              (MagicalEffectsSystem.expandingRing 100 100) eq_refl)
    as [Hd Hl].
  split; [exact Hd | apply Hl; reflexivity].
Defined.

(** The particles of a click, frame by frame: the six ring bubbles
    (maxLife 30) are updated 31 times, the ring (maxLife 25) 25 times and
    the glow (maxLife 20) 20 times before [updateEffect] returns [false],
    and along each of these lives [life] strictly decreases.  After 30
    steps of [1/30] a double still holds a positive remainder, hence the
    31st update of a ring bubble. *)
Example click_particle_lifetimes :
  List.map (fun e => List.length (Spec.lifeTrace Spec.math0 0 100 e))
    Spec.clickAt100 = [31; 31; 31; 31; 31; 31; 25; 20] /\
  List.forallb
    (fun e => Spec.strictlyDecreasing (1%float :: Spec.lifeTrace Spec.math0 0 100 e))
    Spec.clickAt100 = true.
Proof. vm_compute. split; reflexivity. Qed.

End LifeClaim.

Section ClickClaim.

Import MagicalEffectsSystem.

(** C5, as the claim states it, fails: each of the 8 particles a click
    at (100, 100) creates has life 1, which differs from its maxLife
    (30 for the six ring bubbles, 25 for the ring, 20 for the glow). *)
Lemma C5_life_is_not_maxLife :
  List.length Spec.clickAt100 = 8 /\
  List.map life Spec.clickAt100 = List.repeat 1%float 8 /\
  List.map maxLife Spec.clickAt100 = [30; 30; 30; 30; 30; 30; 25; 20]%float /\
  List.map (fun e => PrimFloat.eqb (life e) (maxLife e)) Spec.clickAt100 =
    List.repeat false 8.
Proof. vm_compute. repeat split. Qed.

(** C5, amended. With motion not reduced, [createClickEffect(x, y)]
    removes the particles of earlier clicks and appends exactly 8 new
    ones: six of type bubble-click, one expanding-ring-click and one
    glow-click; each has life 1, and the maxLife values are 30 for the
    ring bubbles, 25 for the expanding ring and 20 for the glow. *)
Theorem C5_click_creates_eight (m : Runtime.Math) (x y : float) (s : t)
    (r : Runtime.Rng) :
  reducedMotion s = false ->
  effects (fst (createClickEffect m x y s r)) =
    List.filter (fun e => negb (Runtime.includes "-click" (type e))) (effects s)
    ++ fst (clickParticles m x y r) /\
  List.map type (fst (clickParticles m x y r)) =
    ["bubble-click"; "bubble-click"; "bubble-click"; "bubble-click";
     "bubble-click"; "bubble-click"; "expanding-ring-click"; "glow-click"] /\
  List.map life (fst (clickParticles m x y r)) = List.repeat 1%float 8 /\
  List.map maxLife (fst (clickParticles m x y r)) =
    [30; 30; 30; 30; 30; 30; 25; 20]%float.
Proof.
  intros Hr. split.
  - unfold createClickEffect. rewrite Hr. unfold Runtime.bind, Runtime.ret.
    destruct (clickParticles m x y r) as [created r1]. reflexivity.
  - repeat split.
Qed.

(** C5, amended, at (100, 100) on a new system: the list holds exactly
    the 8 created particles. *)
Lemma C5_click_at_100_100 :
  List.length
    (effects (fst (createClickEffect Spec.math0 100 100 (new false)
                     Spec.rngHalf))) = 8 /\
  List.map maxLife
    (effects (fst (createClickEffect Spec.math0 100 100 (new false)
                     Spec.rngHalf))) = [30; 30; 30; 30; 30; 30; 25; 20]%float.
Proof.
  destruct (C5_click_creates_eight Spec.math0 100 100 (new false)
              Spec.rngHalf eq_refl) as (E & _ & _ & Hm).
  rewrite E. simpl List.filter. rewrite app_nil_l.
  split; [|exact Hm].
  rewrite <- (length_map maxLife), Hm. reflexivity.
Defined.

End ClickClaim.

Section RefusalClaim.

(** C6, as the claim states it, fails for the emitters of
    [MagicalEffectsSystem], which do not validate positions: at
    (-5, -5), a position [EffectManager.isValidPosition] rejects, a click
    appends 8 particles to an empty list and a mouse move appends 6. *)
Lemma C6_magical_click_accepts_negative :
  EffectManager.isValidPosition Spec.win0 (Js.Number (-5)) (Js.Number (-5)) = false /\
  List.length
    (MagicalEffectsSystem.effects
       (fst (MagicalEffectsSystem.createClickEffect Spec.math0 (-5) (-5)
               (MagicalEffectsSystem.new false) Spec.rngHalf))) = 8 /\
  List.length
    (MagicalEffectsSystem.effects
       (fst (MagicalEffectsSystem.createMagicalTrail 100 (-5) (-5)
               (MagicalEffectsSystem.new false) Spec.rngHalf))) = 6.
Proof. vm_compute. repeat split. Qed.

(** C6, amended. An [EffectManager] emitter works with each argument
    as given, except that an [undefined] argument is replaced by the
    tracker's coordinate when the manager has a tracker.  Every emitter
    call made while motion is reduced, or for which a coordinate so
    obtained is not a number, not finite, negative or beyond twice the
    viewport, returns [null], the empty array, or the pair of both, and
    leaves the manager (effect list and id counter), the tracker and
    the [Math.random] sequence exactly as they were; this includes
    [undefined] arguments on a manager without tracker.  With
    [undefined] arguments, a tracker at a valid position and motion
    allowed, the call is not refused: the ripple is created.  The
    emitters of [MagicalEffectsSystem] return without any change while
    motion is reduced. *)
Theorem C6_refused_emitters_change_nothing :
  (forall m win clk x y ro so co tr s r,
      Spec.refused win tr s x y ->
      EffectManager.createRippleEffect win clk x y ro tr s = (None, tr, s) /\
      EffectManager.createSparkleEffect m win clk x y so tr s r =
        (([], tr, s), r) /\
      EffectManager.createClickEffect m win clk x y co tr s r =
        ((EffectManager.mkClickResult None [], tr, s), r)) /\
  (forall win tr v,
      (v <> Js.Undefined ->
       Spec.usedX win tr v = v /\ Spec.usedY win tr v = v) /\
      (tr = None ->
       Spec.usedX win tr v = v /\ Spec.usedY win tr v = v) /\
      (forall c, tr = Some c ->
       Spec.usedX win tr Js.Undefined = Js.Number (CursorTracker.mouseX c) /\
       Spec.usedY win tr Js.Undefined = Js.Number (CursorTracker.mouseY c))) /\
  (forall win clk ro c s,
      EffectManager.reducedMotion s = false ->
      EffectManager.isValidPosition win
        (Js.Number (CursorTracker.mouseX c))
        (Js.Number (CursorTracker.mouseY c)) = true ->
      fst (fst (EffectManager.createRippleEffect win clk
                  Js.Undefined Js.Undefined ro (Some c) s)) =
        Some (EffectManager.mkId (EffectManager.effectIdCounter s + 1)
                (Runtime.dateNow clk)) /\
      List.length
        (EffectManager.activeEffects
           (snd (EffectManager.createRippleEffect win clk
                   Js.Undefined Js.Undefined ro (Some c) s))) >= 1) /\
  (forall m win now x y rect s r,
      MagicalEffectsSystem.reducedMotion s = true ->
      MagicalEffectsSystem.createMagicalTrail now x y s r = (s, r) /\
      MagicalEffectsSystem.createClickEffect m x y s r = (s, r) /\
      MagicalEffectsSystem.createHoverEffect m rect s r = (s, r) /\
      MagicalEffectsSystem.createAmbientSparkle win s r = (s, r) /\
      MagicalEffectsSystem.ambientTick win s r = (s, r)).
Proof.
  split; [|split; [|split]].
  - intros m win clk x y ro so co tr s r H. split; [|split].
    + now apply createRippleEffect_refused.
    + now apply createSparkleEffect_refused.
    + now apply createClickEffect_refused.
  - intros win tr v. apply used_coordinates.
  - intros win clk ro c s Hr Hv.
    unfold EffectManager.createRippleEffect. rewrite Hr.
    cbn [EffectManager.readPosition CursorTracker.getCurrentPosition
         EffectManager.effectCoordinate option_map
         CursorTracker.pos_x CursorTracker.pos_y].
    rewrite Hv. cbn [negb EffectManager.generateEffectId fst snd]. split.
    + reflexivity.
    + unfold EffectManager.addEffect.
      cbn [EffectManager.activeEffects EffectManager.with_effects].
      rewrite length_app. cbn [List.length]. lia.
  - intros m win now x y rect s r Hr. now apply magical_emitters_reduced.
Qed.

(** C6, amended, on concrete calls: a sparkle burst requested at
    (NaN, 50) on a manager with motion allowed and the scenario tracker
    returns the empty array and changes nothing, and so does a burst
    requested without coordinates on a manager without tracker. *)
Lemma C6_sparkle_at_NaN_refused :
  EffectManager.createSparkleEffect Spec.math0 Spec.win0 Spec.clock0
    (Js.Number PrimFloat.nan) (Js.Number 50)
    (EffectManager.mkSparkleOptions None None None None None)
    (Some Spec.tracker0) (EffectManager.new false) Spec.rngHalf =
  (([], Some Spec.tracker0, EffectManager.new false), Spec.rngHalf) /\
  EffectManager.createSparkleEffect Spec.math0 Spec.win0 Spec.clock0
    Js.Undefined Js.Undefined
    (EffectManager.mkSparkleOptions None None None None None)
    None (EffectManager.new false) Spec.rngHalf =
  (([], None, EffectManager.new false), Spec.rngHalf).
Proof.
  split.
  - apply (proj1 C6_refused_emitters_change_nothing Spec.math0 Spec.win0
             Spec.clock0 (Js.Number PrimFloat.nan) (Js.Number 50)
             (EffectManager.mkRippleOptions None None None None)
             (EffectManager.mkSparkleOptions None None None None None)
             (EffectManager.mkClickOptions None None None None None None None)
             (Some Spec.tracker0) (EffectManager.new false) Spec.rngHalf).
    right. left. simpl. left. reflexivity.
  - apply (proj1 C6_refused_emitters_change_nothing Spec.math0 Spec.win0
             Spec.clock0 Js.Undefined Js.Undefined
             (EffectManager.mkRippleOptions None None None None)
             (EffectManager.mkSparkleOptions None None None None None)
             (EffectManager.mkClickOptions None None None None None None None)
             None (EffectManager.new false) Spec.rngHalf).
    right. left. exact I.
Defined.

End RefusalClaim.

(** * Further properties of the code *)

(** ** Doubles: finiteness, [x - x] and [NaN] *)

Lemma leb_not_ltb (a b : float) :
  (a <=? b)%float = true -> (b <? a)%float = false.
Proof.
  intros H. destruct (b <? a)%float eqn:E; [|reflexivity].
  rewrite (ltb_not_leb _ _ E) in H. discriminate.
Qed.

Lemma is_finite_cases (x : float) :
  PrimFloat.is_finite x = true ->
  (exists s, Prim2SF x = S754_zero s) \/
  (exists s m e, Prim2SF x = S754_finite s m e).
Proof.
  unfold PrimFloat.is_finite, PrimFloat.is_nan, PrimFloat.is_infinity.
  rewrite !eqb_spec, abs_spec.
  destruct (Prim2SF x) as [s|s| |s m e]; intros H.
  - left. now exists s.
  - exfalso. revert H. destruct s; vm_compute; discriminate.
  - exfalso. revert H. vm_compute. discriminate.
  - right. now exists s, m, e.
Qed.

(** A finite double minus itself is [+0]. *)
Lemma sub_self_finite (x : float) :
  PrimFloat.is_finite x = true -> (x - x)%float = 0%float.
Proof.
  intros H. apply Prim2SF_inj. rewrite sub_spec.
  change (Prim2SF 0) with (S754_zero false).
  destruct (is_finite_cases x H) as [[s ->] | (s & m & e & ->)].
  - destruct s; reflexivity.
  - unfold SF64sub, SFsub. cbv zeta. rewrite Z.min_id.
    unfold shl_align. rewrite Z.sub_diag. reflexivity.
Qed.

(** Arithmetic on [NaN] gives [NaN], which is not greater than 0. *)
Lemma sub_div_nan (a b : float) :
  (a - b / PrimFloat.nan)%float = PrimFloat.nan.
Proof.
  apply Prim2SF_inj. rewrite sub_spec, div_spec.
  change (Prim2SF PrimFloat.nan) with S754_nan.
  destruct (Prim2SF b), (Prim2SF a); reflexivity.
Qed.

Lemma nan_sub (b : float) : (PrimFloat.nan - b)%float = PrimFloat.nan.
Proof.
  apply Prim2SF_inj. rewrite sub_spec.
  change (Prim2SF PrimFloat.nan) with S754_nan. reflexivity.
Qed.

(** ** CursorTracker: what its own methods can reach *)

Section TrackerReach.

Import CursorTracker.

Variable w : option Js.Window.

(** The tracker an accepted update leaves behind, field by field. *)
Lemma updatePosition_result (currentTime : float) (x y : Js.Value) (s : t) :
  fst (updatePosition w currentTime x y s) = true ->
  exists xn yn,
    x = Js.Number xn /\ y = Js.Number yn /\
    isValidNumbers w xn yn = true /\
    snd (updatePosition w currentTime x y s) =
      let v := nextVelocity s currentTime xn yn in
      {| mouseX := xn; mouseY := yn;
         previousX := mouseX s; previousY := mouseY s;
         isTracking := isTracking s; isInitialized := true;
         velocity := v; lastUpdateTime := currentTime;
         stateVersion := (stateVersion s + 1)%Z;
         lastValidState :=
           Some {| vs_x := xn; vs_y := yn;
                   vs_previousX := mouseX s; vs_previousY := mouseY s;
                   vs_velocity := v; vs_timestamp := currentTime;
                   vs_version := (stateVersion s + 1)%Z |} |}.
Proof.
  unfold updatePosition.
  destruct (isTracking s) eqn:Ht; simpl; [|discriminate].
  destruct x as [xn| | | |], y as [yn| | | |]; simpl; try discriminate.
  destruct (isValidNumbers w xn yn) eqn:Hv; simpl; [|discriminate].
  intros _. exists xn, yn.
  do 3 (split; [reflexivity || assumption|]). reflexivity.
Qed.

Lemma settled_step (o : Op) (s : t) :
  Invariants.settled s -> Invariants.settled (step w o s).
Proof.
  intros [Hv Hs]. destruct o as [ct x y|now| |en]; simpl.
  - destruct (fst (updatePosition w ct x y s)) eqn:Hr.
    + destruct (updatePosition_result ct x y s Hr)
        as (xn & yn & _ & _ & _ & ->).
      unfold Invariants.settled. cbn. repeat split; lia.
    + rewrite (updatePosition_refused w ct x y s Hr). now split.
  - unfold recoverState, Invariants.settled in *.
    destruct (lastValidState s) as [lv|]; cbn.
    + destruct Hs as (Hi & Hx & Hy & Hpx & Hpy & Hvel & Hver).
      destruct (vs_velocity lv) as [a b] eqn:Evel. cbn.
      repeat split; try assumption; try lia.
    + repeat split; lia.
  - unfold Invariants.settled. cbn. repeat split; lia.
  - unfold Invariants.settled in *. cbn. now split.
Qed.

Lemma settled_run (ops : list Op) (s : t) :
  Invariants.settled s -> Invariants.settled (run w ops s).
Proof.
  revert s. induction ops as [|o ops IH]; intros s H; simpl.
  - exact H.
  - apply IH. now apply settled_step.
Qed.

Lemma settled_new : Invariants.settled new.
Proof. unfold Invariants.settled. cbn. repeat split; lia. Qed.

(** X1. In a tracker driven only through its methods the stored
    snapshot always equals the live state, so [recoverState] changes
    neither the position, the previous position, the velocity nor the
    flags; it returns [true] exactly when an update has been accepted
    since the last reset. *)
Theorem recoverState_keeps_reachable_state (ops : list Op) (now : float) :
  let s := run w ops new in
  let s' := snd (recoverState now s) in
  fst (recoverState now s) = isInitialized s /\
  mouseX s' = mouseX s /\ mouseY s' = mouseY s /\
  previousX s' = previousX s /\ previousY s' = previousY s /\
  velocity s' = velocity s /\
  isInitialized s' = isInitialized s /\ isTracking s' = isTracking s /\
  lastValidState s' = lastValidState s.
Proof.
  cbv zeta. pose proof (settled_run ops new settled_new) as [_ H].
  unfold recoverState.
  destruct (lastValidState (run w ops new)) as [lv|] eqn:Hlv; cbn.
  - destruct H as (Hi & Hx & Hy & Hpx & Hpy & Hvel & _).
    rewrite Hi, Hx, Hy, Hpx, Hpy, <- Hvel.
    destruct (vs_velocity lv). repeat split.
  - destruct H as (Hi & Hx & Hy & Hpx & Hpy & Hvel).
    rewrite Hi, Hx, Hy, Hpx, Hpy, Hvel. repeat split.
Qed.

End TrackerReach.


(** X1 on the scenario tracker in the 1280x720 viewport: it was reached
    by one accepted update; recovery returns [true] and keeps the
    position (10, 20). *)
Lemma recoverState_keeps_witness :
  fst (CursorTracker.recoverState 48 Spec.tracker0) = true /\
  CursorTracker.mouseX (snd (CursorTracker.recoverState 48 Spec.tracker0)) = 10%float.
Proof.
  destruct (recoverState_keeps_reachable_state Spec.window0
              [CursorTracker.Update 16 (Js.Number 10) (Js.Number 20)] 48%float)
    as (H1 & H2 & _).
  split; [exact H1 | exact H2].
Defined.

Section Viewports.

Import CursorTracker.

(** A viewport whose bounds are at least those of another is not
    smaller. *)
Lemma notSmaller_grown (w w' : option Js.Window) :
  Js.le (maxWidth w) (maxWidth w') = true ->
  Js.le (maxHeight w) (maxHeight w') = true ->
  Invariants.notSmaller w w'.
Proof.
  intros Hw Hh x y. unfold isValidPosition.
  destruct x as [xn| | | |]; try discriminate.
  destruct y as [yn| | | |]; try discriminate.
  unfold isValidNumbers. intros H.
  apply andb_prop in H as [H Hy]. apply andb_prop in H as [H Hx].
  apply andb_prop in H as [H Hy0]. apply andb_prop in H as [H Hx0].
  rewrite H, Hx0, Hy0. cbn [andb]. apply andb_true_intro. split.
  - exact (leb_trans_nonneg _ _ _ Hx0 Hx Hw).
  - exact (leb_trans_nonneg _ _ _ Hy0 Hy Hh).
Qed.

End Viewports.

Section TrackerViewports.

Import CursorTracker.

Variable wv : option Js.Window.

Hypothesis origin_valid :
  isValidPosition wv (Js.Number 0) (Js.Number 0) = true.

Lemma wellPlaced_step (w : option Js.Window) (o : Op) (s : t) :
  Invariants.notSmaller w wv ->
  Invariants.settled s -> Invariants.wellPlaced wv s ->
  Invariants.wellPlaced wv (step w o s).
Proof.
  intros Hw [_ Hs] [Hc Hp]. destruct o as [ct x y|now| |en]; simpl.
  - destruct (fst (updatePosition w ct x y s)) eqn:Hr.
    + destruct (updatePosition_result w ct x y s Hr)
        as (xn & yn & _ & _ & Hv & ->).
      split; cbn; [exact (Hw (Js.Number xn) (Js.Number yn) Hv) | exact Hc].
    + rewrite (updatePosition_refused w ct x y s Hr). now split.
  - unfold recoverState.
    destruct (lastValidState s) as [lv|]; cbn.
    + destruct Hs as (_ & Hx & Hy & Hpx & Hpy & _).
      unfold Invariants.wellPlaced. cbn.
      rewrite Hx, Hy, Hpx, Hpy. now split.
    + split; exact origin_valid.
  - split; exact origin_valid.
  - now split.
Qed.

Lemma wellPlaced_runIn (wops : list (option Js.Window * Op)) (s : t) :
  Forall (fun wo => Invariants.notSmaller (fst wo) wv) wops ->
  Invariants.settled s -> Invariants.wellPlaced wv s ->
  Invariants.settled (Invariants.runIn wops s) /\
  Invariants.wellPlaced wv (Invariants.runIn wops s).
Proof.
  intros H. revert s. induction H as [|[w o] wops Hw _ IH]; intros s Hs Hp.
  - now split.
  - cbn [Invariants.runIn fold_left fst snd]. apply IH.
    + now apply settled_step.
    + now apply wellPlaced_step.
Qed.

(** X2. Every call of [isValidPosition] reads the viewport anew.  If
    the origin is a valid position of the viewport [validateState]
    reads, and that viewport is not smaller than any viewport read by
    an earlier call, then a tracker driven only through its methods
    never fails the position or version checks of [validateState]: the
    only issue it can report is an extreme velocity, and the call
    leaves the tracker as it was. *)
Theorem validateState_reachable (wops : list (option Js.Window * Op)) :
  Forall (fun wo => Invariants.notSmaller (fst wo) wv) wops ->
  let s := Invariants.runIn wops new in
  val_issues (fst (validateState wv s)) =
    (if Invariants.extremeVelocity s then ["Extreme velocity detected"] else []) /\
  val_isValid (fst (validateState wv s)) = negb (Invariants.extremeVelocity s) /\
  snd (validateState wv s) = s.
Proof.
  intros Hw. cbv zeta.
  destruct (wellPlaced_runIn wops new Hw settled_new
              (conj origin_valid origin_valid)) as [[Hver _] [Hc Hp]].
  unfold validateState, pushIf, Invariants.extremeVelocity.
  cbn [fst snd val_issues val_isValid].
  rewrite Hc, Hp. cbn [negb].
  apply Z.ltb_ge in Hver. rewrite Hver.
  destruct (Js.gt _ _ || Js.gt _ _); repeat split.
Qed.

End TrackerViewports.

(** X2 on a viewport that grew: the tracker accepted (10, 20) in a
    600x400 viewport and (700, 900) in the 1280x720 one, where
    validation then reports no issue. *)
Lemma validateState_reachable_witness :
  let s := Invariants.runIn
             [(Some (Js.mkWindow 600 400 0),
               CursorTracker.Update 16 (Js.Number 10) (Js.Number 20));
              (Spec.window0,
               CursorTracker.Update 1016 (Js.Number 700) (Js.Number 900))]
             CursorTracker.new in
  CursorTracker.val_issues (fst (CursorTracker.validateState Spec.window0 s)) = [] /\
  CursorTracker.val_isValid (fst (CursorTracker.validateState Spec.window0 s)) = true /\
  CursorTracker.mouseY s = 900%float.
Proof.
  destruct (validateState_reachable Spec.window0 eq_refl
              [(Some (Js.mkWindow 600 400 0),
                CursorTracker.Update 16 (Js.Number 10) (Js.Number 20));
               (Spec.window0,
                CursorTracker.Update 1016 (Js.Number 700) (Js.Number 900))])
    as (H1 & H2 & _).
  - constructor; [apply notSmaller_grown; reflexivity|].
    constructor; [apply notSmaller_grown; reflexivity|]. constructor.
  - split; [exact H1|]. split; [exact H2 | reflexivity].
Defined.

(** Why the viewports matter: a tracker that accepted (1250, 300) in a
    viewport 1280 wide fails the position check once the viewport is
    600 wide, although the origin is valid there. *)
Example validateState_after_shrink :
  let s := CursorTracker.run Spec.window0
             [CursorTracker.Update 16 (Js.Number 1250) (Js.Number 300)]
             CursorTracker.new in
  CursorTracker.val_issues
    (fst (CursorTracker.validateState (Some (Js.mkWindow 600 720 0)) s)) =
    ["Invalid current position"] /\
  CursorTracker.isValidPosition (Some (Js.mkWindow 600 720 0))
    (Js.Number 0) (Js.Number 0) = true.
Proof. vm_compute. split; reflexivity. Qed.

Section TrackerReads.

Import CursorTracker.

Lemma valid_numbers_finite (w : option Js.Window) (x y : float) :
  isValidNumbers w x y = true ->
  PrimFloat.is_finite x = true /\ PrimFloat.is_finite y = true.
Proof.
  unfold isValidNumbers, Js.isFinite. intros H.
  repeat (apply andb_prop in H; destruct H as [H ?]). now split.
Qed.

(** X3. After an accepted [updatePosition(x, y)], [getCurrentPosition]
    returns exactly (x, y) with [isValid] true; on a tracker that has not
    accepted an update since its construction it returns [isValid]
    false. *)
Theorem getCurrentPosition_after_update (w : option Js.Window) :
  (forall currentTime x y s,
      fst (updatePosition w currentTime x y s) = true ->
      exists xn yn,
        x = Js.Number xn /\ y = Js.Number yn /\
        fst (getCurrentPosition w (snd (updatePosition w currentTime x y s))) =
        {| pos_x := xn; pos_y := yn; pos_isValid := true |}) /\
  (forall ops,
      Spec.noneAccepted w ops new = true ->
      pos_isValid (fst (getCurrentPosition w (run w ops new))) = false).
Proof.
  split.
  - intros ct x y s Hr.
    destruct (updatePosition_result w ct x y s Hr)
      as (xn & yn & Hx & Hy & Hv & ->).
    exists xn, yn. split; [exact Hx|]. split; [exact Hy|].
    unfold getCurrentPosition. cbn. now rewrite Hv.
  - intros ops Hn. unfold getCurrentPosition. cbn.
    now rewrite (noneAccepted_not_initialized w ops new eq_refl Hn).
Qed.

Lemma getCurrentPosition_after_update_witness :
  fst (getCurrentPosition Spec.window0 Spec.tracker0) =
    {| pos_x := 10; pos_y := 20; pos_isValid := true |} /\
  pos_isValid
    (fst (getCurrentPosition Spec.window0
            (run Spec.window0 [Update 16 (Js.Number (-1)) (Js.Number 5)] new)))
  = false.
Proof.
  split.
  - destruct (proj1 (getCurrentPosition_after_update Spec.window0)
                16%float (Js.Number 10) (Js.Number 20) new eq_refl)
      as (xn & yn & Hx & Hy & H).
    injection Hx as <-. injection Hy as <-. exact H.
  - apply (proj2 (getCurrentPosition_after_update Spec.window0)).
    reflexivity.
Defined.

(** X4. When an accepted update gives the position the tracker already
    holds, [getMovementDistance] is 0 and [hasSignificantMovement] is
    false for the default threshold and for every threshold that is not
    negative. *)
Theorem no_movement_on_same_position (w : option Js.Window)
    (currentTime : float) (s : t) (threshold : option float) :
  fst (updatePosition w currentTime
         (Js.Number (mouseX s)) (Js.Number (mouseY s)) s) = true ->
  match threshold with
  | Some th => Js.ge th 0 = true
  | None => True
  end ->
  let s' := snd (updatePosition w currentTime
                   (Js.Number (mouseX s)) (Js.Number (mouseY s)) s) in
  getMovementDistance s' = 0%float /\
  hasSignificantMovement threshold s' = false.
Proof.
  intros Hr Hth.
  destruct (updatePosition_result w currentTime _ _ s Hr)
    as (xn & yn & Hx & Hy & Hv & ->).
  injection Hx as <-. injection Hy as <-.
  destruct (valid_numbers_finite w _ _ Hv) as [Fx Fy].
  cbv zeta.
  assert (D : getMovementDistance
                {| mouseX := mouseX s; mouseY := mouseY s;
                   previousX := mouseX s; previousY := mouseY s;
                   isTracking := isTracking s; isInitialized := true;
                   velocity := nextVelocity s currentTime (mouseX s) (mouseY s);
                   lastUpdateTime := currentTime;
                   stateVersion := (stateVersion s + 1)%Z;
                   lastValidState :=
                     Some {| vs_x := mouseX s; vs_y := mouseY s;
                             vs_previousX := mouseX s; vs_previousY := mouseY s;
                             vs_velocity := nextVelocity s currentTime (mouseX s) (mouseY s);
                             vs_timestamp := currentTime;
                             vs_version := (stateVersion s + 1)%Z |} |} = 0%float).
  { unfold getMovementDistance. cbn.
    rewrite (sub_self_finite _ Fx), (sub_self_finite _ Fy). reflexivity. }
  split; [exact D|].
  unfold hasSignificantMovement. rewrite D.
  destruct threshold as [th|].
  - unfold Js.gt, Js.ge in *. now apply leb_not_ltb.
  - reflexivity.
Qed.

Lemma no_movement_witness :
  getMovementDistance
    (snd (updatePosition Spec.window0 32 (Js.Number 10) (Js.Number 20)
            Spec.tracker0)) = 0%float /\
  hasSignificantMovement (Some 0.5%float)
    (snd (updatePosition Spec.window0 32 (Js.Number 10) (Js.Number 20)
            Spec.tracker0)) = false.
Proof.
  apply (no_movement_on_same_position Spec.window0 32 Spec.tracker0
           (Some 0.5%float)); reflexivity.
Defined.

End TrackerReads.

(** ** EffectManager: ids, live effects and their invariants *)

Section ManagerIds.

Import EffectManager.
Import Invariants.

Lemma increasing_app_last (l : list Z) (c : Z) :
  Invariants.increasing l -> Forall (fun a => (a < c)%Z) l ->
  Invariants.increasing (l ++ [c]).
Proof.
  induction l as [|a l IH]; simpl; intros Hi Hf.
  - split; [constructor | exact I].
  - destruct Hi as [Ha Hi]. inversion Hf as [|? ? Hac Hf']; subst.
    split.
    + apply Forall_app. split; [exact Ha | now constructor].
    + now apply IH.
Qed.

Lemma increasing_tl (l : list Z) :
  Invariants.increasing l -> Invariants.increasing (List.tl l).
Proof. destruct l as [|a l]; simpl; [auto | intros [_ H]; exact H]. Qed.

Lemma Forall_tl {A : Type} (P : A -> Prop) (l : list A) :
  Forall P l -> Forall P (List.tl l).
Proof. destruct l; simpl; [auto | intros H; now inversion H]. Qed.

Lemma counters_tl (l : list Effect) :
  Invariants.counters (List.tl l) = List.tl (Invariants.counters l).
Proof. destruct l; reflexivity. Qed.

Lemma counters_app (l l' : list Effect) :
  Invariants.counters (l ++ l') =
  Invariants.counters l ++ Invariants.counters l'.
Proof. apply map_app. Qed.

Lemma thinned_Forall (P : Z -> Prop) (l l' : list Effect) :
  thinned l l' ->
  Forall P (Invariants.counters l) -> Forall P (Invariants.counters l').
Proof.
  induction 1 as [|e l l' _ IH|e e' l l' He _ _ _ IH]; simpl; intros Hf.
  - constructor.
  - inversion Hf; subst. now apply IH.
  - inversion Hf as [|? ? Hp Hf']; subst.
    constructor; [now rewrite He | now apply IH].
Qed.

Lemma thinned_increasing (l l' : list Effect) :
  thinned l l' ->
  Invariants.increasing (Invariants.counters l) ->
  Invariants.increasing (Invariants.counters l').
Proof.
  induction 1 as [|e l l' _ IH|e e' l l' He _ _ Ht IH]; simpl.
  - auto.
  - intros [_ Hi]. now apply IH.
  - intros [Ha Hi]. split; [|now apply IH].
    rewrite He. now apply (thinned_Forall _ l l').
Qed.

Lemma thinned_live (l l' : list Effect) :
  thinned l l' ->
  Forall (fun e => isActive e = true /\
                   (type e = "ripple" \/ type e = "sparkle")) l ->
  Forall (fun e => isActive e = true /\
                   (type e = "ripple" \/ type e = "sparkle")) l'.
Proof.
  induction 1 as [|e l l' _ IH|e e' l l' _ Ht Ha _ IH]; intros Hf.
  - constructor.
  - inversion Hf; subst. now apply IH.
  - inversion Hf as [|? ? Hp Hf']; subst.
    constructor; [now rewrite Ht, Ha | now apply IH].
Qed.

Lemma thinned_filterMap (f : Effect -> option Effect) (l : list Effect) :
  (forall e e', f e = Some e' ->
     id e' = id e /\ type e' = type e /\ isActive e' = isActive e) ->
  thinned l (filterMap f l).
Proof.
  intros Hf. induction l as [|e l IH]; simpl.
  - constructor.
  - destruct (f e) as [e'|] eqn:E.
    + destruct (Hf e e' E) as (H1 & H2 & H3). now apply thinned_keep.
    + now apply thinned_drop.
Qed.

Lemma thinned_filter (p : Effect -> bool) (l : list Effect) :
  thinned l (List.filter p l).
Proof.
  induction l as [|e l IH]; simpl.
  - constructor.
  - destruct (p e); [now apply thinned_keep | now apply thinned_drop].
Qed.

Lemma thinned_refl (l : list Effect) : thinned l l.
Proof. induction l; [constructor | now apply thinned_keep]. Qed.

Lemma thinned_removeFirst (effectId : Id) (l l' : list Effect) :
  removeFirst effectId l = Some l' -> thinned l l'.
Proof.
  revert l'. induction l as [|e l IH]; simpl; intros l' H.
  - discriminate.
  - destruct (id_eqb (id e) effectId).
    + injection H as <-. apply thinned_drop, thinned_refl.
    + destruct (removeFirst effectId l) as [l1|]; [|discriminate].
      injection H as <-. apply thinned_keep; try reflexivity. now apply IH.
Qed.

Lemma updateOne_keeps (m : Runtime.Math) (currentTime : float) (e e' : Effect) :
  updateOne m currentTime e = Some e' ->
  id e' = id e /\ type e' = type e /\ isActive e = true /\ isActive e' = true /\
  Runtime.prop "lastUpdateTime" (props e') = currentTime.
Proof.
  unfold updateOne.
  destruct (isActive e) eqn:Ha; simpl; [|discriminate].
  destruct (Js.ge _ 1); [discriminate|].
  intros H. injection H as <-.
  unfold with_props. cbn [id type isActive props].
  rewrite prop_set_same.
  unfold updateRippleEffect, updateSparkleEffect, with_props.
  destruct (String.eqb (type e) "ripple");
    [|destruct (String.eqb (type e) "sparkle")];
    cbn [id type isActive]; repeat split; assumption.
Qed.

Variable m : Runtime.Math.
Variable win : Js.Window.

Lemma managed_thinned (s s' : t) :
  thinned (activeEffects s) (activeEffects s') ->
  (effectIdCounter s <= effectIdCounter s')%Z ->
  managed s -> managed s'.
Proof.
  intros Ht Hc [[Hi Hf] Hl]. split; [split|].
  - now apply (thinned_increasing _ _ Ht).
  - apply (thinned_Forall _ _ _ Ht).
    eapply Forall_impl; [|exact Hf]. simpl. intros a Ha. lia.
  - now apply (thinned_live _ _ Ht).
Qed.

(** Appending an effect that carries the next id. *)
Lemma managed_addEffect (d : float) (e : Effect) (s : t) :
  id e = mkId (effectIdCounter s + 1) d ->
  isActive e = true ->
  type e = "ripple" \/ type e = "sparkle" ->
  managed s -> managed (addEffect e (snd (generateEffectId d s))).
Proof.
  intros He Ha Ht [[Hi Hf] Hl].
  unfold addEffect, generateEffectId. cbn [snd activeEffects maxEffects with_effects].
  set (kept := if (maxEffects s <=? List.length (activeEffects s))%nat
               then List.tl (activeEffects s) else activeEffects s).
  assert (Hki : increasing (counters kept)).
  { unfold kept. destruct (_ <=? _)%nat; [|exact Hi].
    rewrite counters_tl. now apply increasing_tl. }
  assert (Hkf : Forall (fun c => (c <= effectIdCounter s)%Z) (counters kept)).
  { unfold kept. destruct (_ <=? _)%nat; [|exact Hf].
    rewrite counters_tl. now apply Forall_tl. }
  assert (Hkl : Forall (fun e => isActive e = true /\
                         (type e = "ripple" \/ type e = "sparkle")) kept).
  { unfold kept. destruct (_ <=? _)%nat; [|exact Hl]. now apply Forall_tl. }
  split; [split|]; unfold all_live, with_effects; cbn [activeEffects effectIdCounter].
  - rewrite counters_app. cbn. rewrite He. cbn.
    apply increasing_app_last; [exact Hki|].
    eapply Forall_impl; [|exact Hkf]. simpl. intros a Hle. lia.
  - rewrite counters_app. apply Forall_app. split.
    + eapply Forall_impl; [|exact Hkf]. simpl. intros a Hle. lia.
    + cbn. rewrite He. cbn. constructor; [lia | constructor].
  - apply Forall_app. split; [exact Hkl|]. constructor; [|constructor].
    now split.
Qed.

(** What an accepted [createRippleEffect] does: one effect with the next
    id is added and its id is returned. *)
Lemma createRippleEffect_shape (clk : Runtime.Clock) (x y : Js.Value)
    (options : RippleOptions) (tr : option CursorTracker.t) (s : t) :
  (fst (fst (createRippleEffect win clk x y options tr s)) = None /\
   snd (createRippleEffect win clk x y options tr s) = s) \/
  (exists e ex ey,
     snd (createRippleEffect win clk x y options tr s) =
       addEffect e (snd (generateEffectId (Runtime.dateNow clk) s)) /\
     fst (fst (createRippleEffect win clk x y options tr s)) = Some (id e) /\
     id e = mkId (effectIdCounter s + 1) (Runtime.dateNow clk) /\
     isActive e = true /\ type e = "ripple" /\
     Runtime.prop "x" (props e) = ex /\ Runtime.prop "y" (props e) = ey /\
     isValidPosition win (Js.Number ex) (Js.Number ey) = true).
Proof.
  unfold createRippleEffect.
  destruct (reducedMotion s); [left; now split|].
  destruct (readPosition win tr) as [position tr'].
  destruct (isValidPosition win _ _) eqn:Hv; cbn [negb]; [|left; now split].
  destruct (effectCoordinate x _) as [ex| | | |]; try (left; now split).
  destruct (effectCoordinate y _) as [ey| | | |]; try (left; now split).
  right. cbn. eexists. exists ex, ey.
  split; [reflexivity|]. repeat split. exact Hv.
Qed.

Lemma createRippleEffect_managed (clk : Runtime.Clock) (x y : Js.Value)
    (options : RippleOptions) (tr : option CursorTracker.t) (s : t) :
  managed s -> managed (snd (createRippleEffect win clk x y options tr s)).
Proof.
  intros H.
  destruct (createRippleEffect_shape clk x y options tr s)
    as [[_ ->] | (e & ex & ey & -> & _ & He & Ha & Ht & _)].
  - exact H.
  - apply managed_addEffect; auto.
Qed.

(** One iteration of the sparkle loop adds one sparkle with the next id
    and returns that id. *)
Lemma sparkleIteration_shape (clk : Runtime.Clock) (ex ey : float)
    (options : SparkleOptions) (sparkleCount i : nat) (s : t)
    (r : Runtime.Rng) :
  exists e,
    snd (fst (sparkleIteration m clk ex ey options sparkleCount i s r)) =
    addEffect e (snd (generateEffectId (Runtime.dateNow clk) s)) /\
    fst (fst (sparkleIteration m clk ex ey options sparkleCount i s r)) = id e /\
    id e = mkId (effectIdCounter s + 1) (Runtime.dateNow clk) /\
    isActive e = true /\ type e = "sparkle".
Proof.
  unfold sparkleIteration, Runtime.bind, Runtime.ret, or_else,
    sparkleColor, Runtime.pick, Runtime.random, generateEffectId.
  destruct (so_distance options) as [d|]; [destruct (Js.truthy d)|];
    (destruct (so_size options) as [z|]; [destruct (Js.truthy z)|]);
    (destruct (so_color options) as [[|a c]|]);
    simpl; eexists; (split; [reflexivity|]); repeat split.
Qed.

Lemma addEffect_counter (e : Effect) (s : t) :
  effectIdCounter (addEffect e s) = effectIdCounter s.
Proof. reflexivity. Qed.

(** The sparkle loop keeps the invariant. *)
Lemma sparkleLoop_managed (clk : Runtime.Clock) (ex ey : float)
    (options : SparkleOptions) (sparkleCount n i : nat) (s : t)
    (r : Runtime.Rng) :
  managed s ->
  managed (snd (fst (sparkleLoop m clk ex ey options sparkleCount n i s r))).
Proof.
  revert i s r. induction n as [|n IH]; intros i s r H.
  - exact H.
  - cbn [sparkleLoop]. unfold Runtime.bind, Runtime.ret.
    destruct (sparkleIteration_shape clk ex ey options sparkleCount i s r)
      as (e & Hs & Hid & He & Ha & Ht).
    destruct (sparkleIteration m clk ex ey options sparkleCount i s r)
      as [[effectId s1] r1].
    cbn [fst snd] in Hid, Hs. subst effectId s1.
    assert (H1 : managed (addEffect e (snd (generateEffectId (Runtime.dateNow clk) s))))
      by (apply managed_addEffect; auto).
    specialize (IH (S i) _ r1 H1).
    destruct (sparkleLoop m clk ex ey options sparkleCount n (S i) _ r1)
      as [[ids s2] r2].
    exact IH.
Qed.

(** The ids the sparkle loop returns are numbered consecutively after
    the counter, which advances by the number of iterations. *)
Lemma sparkleLoop_ids (clk : Runtime.Clock) (ex ey : float)
    (options : SparkleOptions) (sparkleCount n i : nat) (s : t)
    (r : Runtime.Rng) :
  List.map id_counter
    (fst (fst (sparkleLoop m clk ex ey options sparkleCount n i s r))) =
    List.map (fun k => (effectIdCounter s + Z.of_nat k)%Z) (List.seq 1 n) /\
  List.map id_stamp
    (fst (fst (sparkleLoop m clk ex ey options sparkleCount n i s r))) =
    List.repeat (Runtime.dateNow clk) n /\
  effectIdCounter
    (snd (fst (sparkleLoop m clk ex ey options sparkleCount n i s r))) =
    (effectIdCounter s + Z.of_nat n)%Z.
Proof.
  revert i s r. induction n as [|n IH]; intros i s r.
  - cbn. split; [reflexivity | split; [reflexivity | lia]].
  - cbn [sparkleLoop]. unfold Runtime.bind, Runtime.ret.
    destruct (sparkleIteration_shape clk ex ey options sparkleCount i s r)
      as (e & Hs & Hid & He & _).
    destruct (sparkleIteration m clk ex ey options sparkleCount i s r)
      as [[effectId s1] r1].
    cbn [fst snd] in Hid, Hs. subst effectId s1.
    specialize (IH (S i) (addEffect e (snd (generateEffectId (Runtime.dateNow clk) s))) r1).
    destruct (sparkleLoop m clk ex ey options sparkleCount n (S i) _ r1)
      as [[ids s2] r2].
    cbn [fst snd] in *. destruct IH as (IHi & IHs & IHc).
    split; [|split].
    + rewrite He. cbn [id_counter List.map List.seq]. f_equal.
      rewrite IHi. rewrite <- (seq_shift n 1), map_map.
      apply map_ext. intros k.
      cbn [effectIdCounter addEffect with_effects generateEffectId snd]. lia.
    + rewrite He. cbn [id_stamp List.map List.repeat]. now rewrite IHs.
    + rewrite IHc. cbn. lia.
Qed.

Lemma createSparkleEffect_managed (clk : Runtime.Clock) (x y : Js.Value)
    (options : SparkleOptions) (tr : option CursorTracker.t) (s : t)
    (r : Runtime.Rng) :
  managed s ->
  managed (snd (fst (createSparkleEffect m win clk x y options tr s r))).
Proof.
  intros H. unfold createSparkleEffect.
  destruct (reducedMotion s); [exact H|].
  destruct (readPosition win tr) as [position tr'].
  destruct (negb (isValidPosition win _ _)); [exact H|].
  destruct (effectCoordinate x _) as [ex| | | |]; try exact H.
  destruct (effectCoordinate y _) as [ey| | | |]; try exact H.
  unfold Runtime.bind, Runtime.ret.
  pose proof (sparkleLoop_managed clk ex ey options
                (count_or (so_count options) 6)
                (count_or (so_count options) 6) 0 s r H) as HL.
  destruct (sparkleLoop m clk ex ey options _ _ 0 s r) as [[ids s'] r'].
  exact HL.
Qed.

Lemma createClickEffect_managed (clk : Runtime.Clock) (x y : Js.Value)
    (options : ClickOptions) (tr : option CursorTracker.t) (s : t)
    (r : Runtime.Rng) :
  managed s ->
  managed (snd (fst (createClickEffect m win clk x y options tr s r))).
Proof.
  intros H. unfold createClickEffect.
  destruct (reducedMotion s); [exact H|].
  match goal with
  | |- context [createRippleEffect win clk x y ?o tr s] =>
      pose proof (createRippleEffect_managed clk x y o tr s H) as H1;
      destruct (createRippleEffect win clk x y o tr s) as [[rippleId tr1] s1]
  end.
  cbn [snd] in H1. unfold Runtime.bind, Runtime.ret.
  match goal with
  | |- context [createSparkleEffect m win clk x y ?o tr1 s1 r] =>
      pose proof (createSparkleEffect_managed clk x y o tr1 s1 r H1) as H2;
      destruct (createSparkleEffect m win clk x y o tr1 s1 r)
        as [[[ids tr2] s2] r2]
  end.
  exact H2.
Qed.

Lemma updateEffects_managed (currentTime cleanupTime : float) (s : t) :
  managed s -> managed (updateEffects m currentTime cleanupTime s).
Proof.
  intros H. unfold updateEffects.
  assert (H1 : managed
                 (with_effects (filterMap (updateOne m currentTime) (activeEffects s)) s)).
  { apply (managed_thinned s); [|cbn; lia|exact H]. cbn.
    apply thinned_filterMap. intros e e' He.
    destruct (updateOne_keeps m currentTime e e' He) as (Hi & Ht & Ha & Ha' & _).
    rewrite Ha, Ha'. now repeat split. }
  destruct (Js.gt _ _); [|exact H1].
  apply (managed_thinned
           (with_effects (filterMap (updateOne m currentTime) (activeEffects s)) s));
    [|cbn; lia|exact H1].
  cbn. apply thinned_filter.
Qed.

Lemma step_managed (tr : option CursorTracker.t) (o : Op) (s : t)
    (r : Runtime.Rng) :
  managed s -> managed (fst (step m win tr o s r)).
Proof.
  intros H. destruct o as [clk x y o|clk x y o|clk x y o|ct ct'| |eid|b]; simpl.
  - now apply createRippleEffect_managed.
  - unfold Runtime.bind, Runtime.ret.
    pose proof (createSparkleEffect_managed clk x y o tr s r H) as H1.
    destruct (createSparkleEffect m win clk x y o tr s r) as [res r1].
    exact H1.
  - unfold Runtime.bind, Runtime.ret.
    pose proof (createClickEffect_managed clk x y o tr s r H) as H1.
    destruct (createClickEffect m win clk x y o tr s r) as [res r1].
    exact H1.
  - now apply updateEffects_managed.
  - apply (managed_thinned s); [|cbn; lia|exact H]. cbn.
    induction (activeEffects s); [constructor | now apply thinned_drop].
  - unfold removeEffect.
    destruct (removeFirst eid (activeEffects s)) as [l|] eqn:E; [|exact H].
    apply (managed_thinned s); [|cbn; lia|exact H]. cbn.
    now apply (thinned_removeFirst eid).
  - unfold onMotionChange. destruct b.
    + apply (managed_thinned s); [|cbn; lia|exact H]. cbn.
      induction (activeEffects s); [constructor | now apply thinned_drop].
    + apply (managed_thinned s); [|cbn; lia|exact H]. cbn.
      apply thinned_refl.
Qed.

Lemma run_managed (tr : option CursorTracker.t) (ops : list Op) (s : t)
    (r : Runtime.Rng) :
  managed s -> managed (fst (run m win tr ops s r)).
Proof.
  revert s r. induction ops as [|o ops IH]; intros s r H; simpl.
  - exact H.
  - unfold Runtime.bind.
    pose proof (step_managed tr o s r H) as H1.
    destruct (step m win tr o s r) as [s1 r1].
    apply IH. exact H1.
Qed.

Lemma managed_new (matches : bool) : managed (new matches).
Proof. repeat split; constructor. Qed.

Lemma increasing_NoDup (l : list Z) : increasing l -> NoDup l.
Proof.
  induction l as [|a l IH]; simpl; intros H.
  - constructor.
  - destruct H as [Ha Hi]. constructor; [|now apply IH].
    intros Hin. rewrite Forall_forall in Ha. specialize (Ha a Hin). lia.
Qed.

(** X5. In every manager reached from the constructor the ids of
    [activeEffects] are in creation order: their sequence numbers
    strictly increase along the list, none exceeds [effectIdCounter],
    and no two effects share one. *)
Theorem manager_ids_ordered (tr : option CursorTracker.t) (ops : list Op)
    (matches : bool) (r : Runtime.Rng) :
  let s := fst (run m win tr ops (new matches) r) in
  increasing (counters (activeEffects s)) /\
  Forall (fun c => (c <= effectIdCounter s)%Z) (counters (activeEffects s)) /\
  NoDup (counters (activeEffects s)).
Proof.
  cbv zeta.
  destruct (run_managed tr ops (new matches) r (managed_new matches))
    as [[Hi Hf] _].
  split; [exact Hi|]. split; [exact Hf|]. now apply increasing_NoDup.
Qed.

Lemma filter_all {A : Type} (p : A -> bool) (l : list A) :
  Forall (fun a => p a = true) l -> List.filter p l = l.
Proof.
  induction 1 as [|a l Ha _ IH]; simpl; [reflexivity|].
  now rewrite Ha, IH.
Qed.


End ManagerIds.

(** ** EffectManager: created effects, lookup, removal and cleanup *)

Section ManagerCalls.

Import EffectManager.
Import Invariants.

Variable m : Runtime.Math.
Variable win : Js.Window.

(** X7. An accepted [createSparkleEffect] returns as many ids as the
    requested count (six when the option is 0 or absent); they are
    numbered consecutively after the counter, which advances by that
    count. *)
Theorem createSparkleEffect_ids (clk : Runtime.Clock) (x y : float)
    (options : SparkleOptions) (tr : option CursorTracker.t) (s : t)
    (r : Runtime.Rng) :
  reducedMotion s = false ->
  isValidPosition win (Js.Number x) (Js.Number y) = true ->
  let n := count_or (so_count options) 6 in
  let res := fst (createSparkleEffect m win clk (Js.Number x) (Js.Number y)
                    options tr s r) in
  List.length (fst (fst res)) = n /\
  List.map id_counter (fst (fst res)) =
    List.map (fun k => (effectIdCounter s + Z.of_nat k)%Z) (List.seq 1 n) /\
  effectIdCounter (snd res) = (effectIdCounter s + Z.of_nat n)%Z.
Proof.
  intros Hr Hv. cbv zeta. unfold createSparkleEffect. rewrite Hr.
  destruct (readPosition win tr) as [position tr'].
  cbn [effectCoordinate]. rewrite Hv. cbn [negb].
  unfold Runtime.bind, Runtime.ret.
  set (n := count_or (so_count options) 6).
  destruct (sparkleLoop_ids m clk x y options n n 0 s r) as (Hi & _ & Hc).
  destruct (sparkleLoop m clk x y options n n 0 s r) as [[ids s'] r'].
  cbn [fst snd] in *.
  split; [|split; [exact Hi|exact Hc]].
  rewrite <- (length_map id_counter), Hi, length_map. apply length_seq.
Qed.

Lemma eqb_refl_number (x : float) :
  PrimFloat.is_nan x = false -> PrimFloat.eqb x x = true.
Proof.
  unfold PrimFloat.is_nan. now destruct (PrimFloat.eqb x x).
Qed.

Lemma find_older (i : Id) (l : list Effect) :
  Forall (fun c => (c < id_counter i)%Z) (counters l) ->
  List.find (fun e => id_eqb (id e) i) l = None /\
  removeFirst i l = None.
Proof.
  unfold counters. induction l as [|e l IH]; cbn [List.map]; intros H.
  - split; reflexivity.
  - inversion H as [|c cs Hc Hl]; subst.
    destruct (IH Hl) as [IH1 IH2]. cbn [List.find removeFirst].
    unfold id_eqb at 1 3.
    replace (id_counter (id e) =? id_counter i)%Z with false
      by (symmetry; apply Z.eqb_neq; lia).
    cbn [andb]. rewrite IH1, IH2. split; reflexivity.
Qed.

Lemma find_newest (e : Effect) (l : list Effect) :
  PrimFloat.is_nan (id_stamp (id e)) = false ->
  Forall (fun c => (c < id_counter (id e))%Z) (counters l) ->
  List.find (fun e' => id_eqb (id e') (id e)) (l ++ [e]) = Some e /\
  removeFirst (id e) (l ++ [e]) = Some l.
Proof.
  intros Hn. unfold counters.
  induction l as [|a l IH]; cbn [List.map List.app]; intros H.
  - cbn [List.find removeFirst]. unfold id_eqb.
    rewrite Z.eqb_refl, (eqb_refl_number _ Hn). split; reflexivity.
  - inversion H as [|c cs Hc Hl]; subst.
    destruct (IH Hl) as [IH1 IH2]. cbn [List.find removeFirst].
    unfold id_eqb at 1 3.
    replace (id_counter (id a) =? id_counter (id e))%Z with false
      by (symmetry; apply Z.eqb_neq; lia).
    cbn [andb]. rewrite IH1, IH2. split; reflexivity.
Qed.

(** X8. On a manager reached from the constructor, the id returned by
    an accepted [createRippleEffect] finds the new ripple through
    [getEffect]; [removeEffect] with that id returns true and removes
    exactly that ripple, after which [getEffect] finds nothing. *)
Theorem created_ripple_found_and_removed (tr0 tr : option CursorTracker.t)
    (ops : list Op) (matches : bool) (r : Runtime.Rng)
    (clk : Runtime.Clock) (x y : Js.Value) (options : RippleOptions)
    (i : Id) :
  let s := fst (run m win tr0 ops (new matches) r) in
  let s' := snd (createRippleEffect win clk x y options tr s) in
  PrimFloat.is_nan (Runtime.dateNow clk) = false ->
  fst (fst (createRippleEffect win clk x y options tr s)) = Some i ->
  (exists e, getEffect i s' = Some e /\ id e = i /\ type e = "ripple" /\
             activeEffects s' = activeEffects (snd (removeEffect i s')) ++ [e]) /\
  fst (removeEffect i s') = true /\
  getEffect i (snd (removeEffect i s')) = None.
Proof.
  cbv zeta. intros Hn Hi.
  pose proof (run_managed m win tr0 ops (new matches) r (managed_new matches))
    as [[_ Hf] _].
  set (s := fst (run m win tr0 ops (new matches) r)) in *.
  destruct (createRippleEffect_shape win clk x y options tr s)
    as [[Hnone _] | (e & ex & ey & Hs & Hid & He & _ & Ht & _)];
    [rewrite Hnone in Hi; discriminate|].
  rewrite Hid in Hi. injection Hi as <-. rewrite Hs.
  unfold addEffect, getEffect, removeEffect.
  cbn [generateEffectId snd activeEffects maxEffects with_effects].
  set (kept := if (maxEffects s <=? List.length (activeEffects s))%nat
               then List.tl (activeEffects s) else activeEffects s).
  assert (Hk : Forall (fun c => (c < id_counter (id e))%Z) (counters kept)).
  { rewrite He. cbn [id_counter].
    assert (Hall : Forall (fun c => (c < effectIdCounter s + 1)%Z)
                     (counters (activeEffects s)))
      by (eapply Forall_impl; [|exact Hf]; cbn; intros; lia).
    subst kept. destruct (_ <=? _)%nat; [|exact Hall].
    rewrite counters_tl. now apply Forall_tl. }
  assert (Hn' : PrimFloat.is_nan (id_stamp (id e)) = false)
    by (rewrite He; exact Hn).
  destruct (find_newest e kept Hn' Hk) as [Hfind Hrem].
  rewrite Hfind, Hrem. cbn [fst snd activeEffects with_effects].
  split; [exists e; now repeat split|].
  split; [reflexivity|].
  apply (find_older (id e) kept Hk).
Qed.

(** X9. Every effect that survives the filter of [updateEffects] was
    active before and carries the frame time as [lastUpdateTime], so a
    [performCleanup] pass whose clock reads less than 5000 ms later
    removes nothing; in particular an [updateEffects] call whose
    [performCleanup] reads the clock less than 5000 ms after the frame
    time leaves exactly the survivors of the filter. *)
Theorem cleanup_after_update_removes_nothing (currentTime later : float)
    (s : t) :
  Js.lt (later - currentTime)%float 5000 = true ->
  let survivors := filterMap (updateOne m currentTime) (activeEffects s) in
  Forall (fun e => isActive e = true /\
                   Runtime.prop "lastUpdateTime" (props e) = currentTime)
         survivors /\
  activeEffects (performCleanup later (with_effects survivors s)) = survivors /\
  activeEffects (updateEffects m currentTime later s) = survivors.
Proof.
  intros Hl. cbv zeta.
  assert (HF : Forall (fun e => isActive e = true /\
                   Runtime.prop "lastUpdateTime" (props e) = currentTime)
                 (filterMap (updateOne m currentTime) (activeEffects s))).
  { induction (activeEffects s) as [|e l IH]; cbn [filterMap]; [constructor|].
    destruct (updateOne m currentTime e) as [e'|] eqn:E; [|exact IH].
    constructor; [|exact IH].
    destruct (updateOne_keeps m currentTime e e' E) as (_ & _ & _ & Ha & Hu).
    now split. }
  split; [exact HF|].
  assert (Hkeep : forall t', Js.lt (t' - currentTime)%float 5000 = true ->
            List.filter
              (fun e => Js.lt (t' - Runtime.prop "lastUpdateTime" (props e))%float 5000)
              (filterMap (updateOne m currentTime) (activeEffects s)) =
            filterMap (updateOne m currentTime) (activeEffects s)).
  { intros t' Ht'. apply filter_all.
    eapply Forall_impl; [|exact HF]. cbn. intros e [_ ->]. exact Ht'. }
  split.
  - unfold performCleanup. cbn [activeEffects with_effects].
    now apply Hkeep.
  - unfold updateEffects.
    destruct (Js.gt _ _); [|reflexivity].
    unfold performCleanup. cbn [activeEffects with_effects].
    now apply Hkeep.
Qed.

End ManagerCalls.

Lemma createSparkleEffect_ids_witness :
  let res := fst (EffectManager.createSparkleEffect Spec.math0 Spec.win0
                    Spec.clock0 (Js.Number 100) (Js.Number 100)
                    (EffectManager.mkSparkleOptions (Some 3%nat) None None None None)
                    None (EffectManager.new false) Spec.rngHalf) in
  List.length (fst (fst res)) = 3%nat /\
  List.map EffectManager.id_counter (fst (fst res)) = [1; 2; 3]%Z /\
  EffectManager.effectIdCounter (snd res) = 3%Z.
Proof.
  exact (createSparkleEffect_ids Spec.math0 Spec.win0 Spec.clock0 100 100
           (EffectManager.mkSparkleOptions (Some 3%nat) None None None None)
           None (EffectManager.new false) Spec.rngHalf eq_refl eq_refl).
Defined.

Lemma created_ripple_witness :
  let s := EffectManager.new false in
  let i := EffectManager.mkId 1 1700000000000 in
  let s' := snd (EffectManager.createRippleEffect Spec.win0 Spec.clock0
                   (Js.Number 100) (Js.Number 100)
                   (EffectManager.mkRippleOptions None None None None) None s) in
  (exists e, EffectManager.getEffect i s' = Some e /\ EffectManager.id e = i /\
             EffectManager.type e = "ripple" /\
             EffectManager.activeEffects s' =
               EffectManager.activeEffects (snd (EffectManager.removeEffect i s')) ++ [e]) /\
  fst (EffectManager.removeEffect i s') = true /\
  EffectManager.getEffect i (snd (EffectManager.removeEffect i s')) = None.
Proof.
  exact (created_ripple_found_and_removed Spec.math0 Spec.win0 None None []
           false Spec.rngHalf Spec.clock0 (Js.Number 100) (Js.Number 100)
           (EffectManager.mkRippleOptions None None None None)
           (EffectManager.mkId 1 1700000000000) eq_refl eq_refl).
Defined.

Lemma cleanup_after_update_witness :
  let s := snd (EffectManager.createRippleEffect Spec.win0 Spec.clock0
                  (Js.Number 100) (Js.Number 100)
                  (EffectManager.mkRippleOptions (Some 5000%float) None None None)
                  None (EffectManager.new false)) in
  let survivors :=
    EffectManager.filterMap (EffectManager.updateOne Spec.math0 1100)
      (EffectManager.activeEffects s) in
  Forall (fun e => EffectManager.isActive e = true /\
                   Runtime.prop "lastUpdateTime" (EffectManager.props e) = 1100%float)
         survivors /\
  EffectManager.activeEffects
    (EffectManager.performCleanup 1101
       (EffectManager.with_effects survivors s)) = survivors /\
  EffectManager.activeEffects
    (EffectManager.updateEffects Spec.math0 1100 1101 s) = survivors.
Proof.
  exact (cleanup_after_update_removes_nothing Spec.math0 1100 1101 _ eq_refl).
Defined.

(** ** MagicalEffectsSystem: clicks, trails, hovers and the ambient timer *)

Lemma filter_none {A : Type} (p : A -> bool) (l : list A) :
  List.filter p (List.filter (fun a => negb (p a)) l) = [].
Proof.
  induction l as [|a l IH]; [reflexivity|].
  cbn [List.filter]. destruct (p a) eqn:E; cbn [negb List.filter]; [exact IH|].
  now rewrite E.
Qed.

Lemma filter_same {A : Type} (p : A -> bool) (l : list A) :
  List.filter p (List.filter p l) = List.filter p l.
Proof.
  induction l as [|a l IH]; [reflexivity|].
  cbn [List.filter]. destruct (p a) eqn:E; [|exact IH].
  cbn [List.filter]. now rewrite E, IH.
Qed.

Lemma forallb_filter {A : Type} (p : A -> bool) (l : list A) :
  List.forallb p l = true ->
  List.filter p l = l /\ List.filter (fun a => negb (p a)) l = [].
Proof.
  induction l as [|a l IH]; [split; reflexivity|].
  cbn [List.forallb List.filter]. intros H.
  apply andb_prop in H as [Ha Hl]. destruct (IH Hl) as [IH1 IH2].
  rewrite Ha. cbn [negb]. now rewrite IH1, IH2.
Qed.

Section MagicalCalls.

Import MagicalEffectsSystem.
Import Invariants.

Variable m : Runtime.Math.

(** X10. Click particles never accumulate: after [createClickEffect]
    the particles whose type contains [-click] are exactly the eight
    just created, whatever earlier clicks left in the list, and the
    other particles are kept as they were, in order. *)
Theorem click_particles_replaced (x y : float) (s : t) (r : Runtime.Rng) :
  reducedMotion s = false ->
  let s' := fst (createClickEffect m x y s r) in
  List.filter isClick (effects s') = fst (clickParticles m x y r) /\
  List.length (List.filter isClick (effects s')) = 8 /\
  List.filter (fun e => negb (isClick e)) (effects s') =
    List.filter (fun e => negb (isClick e)) (effects s).
Proof.
  intros Hr. cbv zeta. unfold createClickEffect. rewrite Hr.
  unfold Runtime.bind, Runtime.ret.
  assert (Hall : List.forallb isClick (fst (clickParticles m x y r)) = true)
    by reflexivity.
  assert (Hlen : List.length (fst (clickParticles m x y r)) = 8)
    by reflexivity.
  destruct (clickParticles m x y r) as [created r1].
  cbn [fst effects with_effects] in *.
  destruct (forallb_filter isClick created Hall) as [Hc1 Hc2].
  rewrite !filter_app.
  change (fun e => negb (Runtime.includes "-click" (type e)))
    with (fun e => negb (isClick e)).
  rewrite filter_none, Hc1, Hc2, filter_same, app_nil_r. cbn [List.app].
  repeat split. exact Hlen.
Qed.

(** X11. After a mouse move that created a trail at time [now], a
    second move whose clock reads less than 40 ms later creates
    nothing: the system and the [Math.random] sequence are untouched. *)
Theorem trail_throttled_after_trail (now later x y x' y' : float) (s : t)
    (r : Runtime.Rng) :
  reducedMotion s = false ->
  Js.lt (now - lastMouseTime s)%float 40 = false ->
  Js.lt (later - now)%float 40 = true ->
  lastMouseTime (fst (createMagicalTrail now x y s r)) = now /\
  createMagicalTrail later x' y'
      (fst (createMagicalTrail now x y s r))
      (snd (createMagicalTrail now x y s r)) =
    createMagicalTrail now x y s r.
Proof.
  intros Hr Ht Hl.
  assert (H : lastMouseTime (fst (createMagicalTrail now x y s r)) = now /\
              reducedMotion (fst (createMagicalTrail now x y s r)) = false).
  { unfold createMagicalTrail. rewrite Hr, Ht. unfold Runtime.bind.
    destruct (Runtime.repeatM 4 _ 0 r) as [bubbles r1].
    destruct (Runtime.repeatM 2 _ 0 r1) as [sparkles r2].
    destruct (Runtime.random r2) as [u r3].
    destruct (Js.lt u 0.4).
    - destruct (largeBubble x y r3) as [big r4]. cbn. now split.
    - cbn. now split. }
  destruct H as [H1 H2]. split; [exact H1|].
  destruct (createMagicalTrail now x y s r) as [s1 r1]. cbn [fst snd] in *.
  unfold createMagicalTrail. now rewrite H2, H1, Hl.
Qed.

(** X12. [createHoverEffect] keeps every particle of the list and
    appends six particles of type [sparkle], each with life 1 and
    maxLife 30. *)
Theorem hover_appends_six (rect : Rect) (s : t) (r : Runtime.Rng) :
  reducedMotion s = false ->
  exists created,
    effects (fst (createHoverEffect m rect s r)) = effects s ++ created /\
    List.length created = 6 /\
    Forall (fun e => type e = "sparkle" /\ life e = 1%float /\
                     maxLife e = 30%float) created.
Proof.
  intros Hr. unfold createHoverEffect. rewrite Hr.
  unfold Runtime.bind, Runtime.ret.
  pose proof (repeatM_length 6 (hoverSparkle m rect) 0 r) as Hlen.
  pose proof (repeatM_Forall
                (fun e => type e = "sparkle" /\ life e = 1%float /\
                          maxLife e = 30%float)
                6 (hoverSparkle m rect) 0 r) as Hall.
  destruct (Runtime.repeatM 6 (hoverSparkle m rect) 0 r) as [created r1].
  exists created. cbn [fst effects with_effects] in *.
  split; [reflexivity|]. split; [exact Hlen|].
  apply Hall. intros j r'. repeat split.
Qed.

(** X13. The ambient timer respects the limit of 50: a tick on a list
    of at most 50 particles leaves at most 50, adding at most one
    particle, of type [ambient] and life 1, at the end. *)
Theorem ambientTick_within_50 (win : Js.Window) (s : t) (r : Runtime.Rng) :
  List.length (effects s) <= 50 ->
  let s' := fst (ambientTick win s r) in
  List.length (effects s') <= 50 /\
  (effects s' = effects s \/
   exists e, effects s' = effects s ++ [e] /\ type e = "ambient" /\
             life e = 1%float).
Proof.
  intros Hlen. cbv zeta. unfold ambientTick.
  destruct (List.length (effects s) <? 50)%nat eqn:E.
  - apply Nat.ltb_lt in E. unfold createAmbientSparkle.
    destruct (reducedMotion s); [split; [exact Hlen | now left]|].
    unfold Runtime.bind, Runtime.ret, Runtime.random, push.
    cbn [fst effects with_effects]. split.
    + rewrite length_app. cbn [List.length]. lia.
    + right. eexists. split; [reflexivity|]. split; reflexivity.
  - split; [exact Hlen | now left].
Qed.

End MagicalCalls.

Lemma trail_throttled_witness :
  let s := MagicalEffectsSystem.new false in
  MagicalEffectsSystem.lastMouseTime
    (fst (MagicalEffectsSystem.createMagicalTrail 1000 10 10 s Spec.rngHalf)) =
    1000%float /\
  MagicalEffectsSystem.createMagicalTrail 1030 20 20
      (fst (MagicalEffectsSystem.createMagicalTrail 1000 10 10 s Spec.rngHalf))
      (snd (MagicalEffectsSystem.createMagicalTrail 1000 10 10 s Spec.rngHalf)) =
    MagicalEffectsSystem.createMagicalTrail 1000 10 10 s Spec.rngHalf.
Proof.
  exact (trail_throttled_after_trail 1000 1030 10 10 20 20
           (MagicalEffectsSystem.new false) Spec.rngHalf
           eq_refl eq_refl eq_refl).
Defined.

Lemma click_particles_replaced_witness :
  let s := fst (MagicalEffectsSystem.createClickEffect Spec.math0 50 50
                  (MagicalEffectsSystem.new false) Spec.rngHalf) in
  let s' := fst (MagicalEffectsSystem.createClickEffect Spec.math0 100 100 s
                   Spec.rngCycle) in
  List.filter Invariants.isClick (MagicalEffectsSystem.effects s') =
    fst (MagicalEffectsSystem.clickParticles Spec.math0 100 100 Spec.rngCycle) /\
  List.length (List.filter Invariants.isClick (MagicalEffectsSystem.effects s')) = 8 /\
  List.filter (fun e => negb (Invariants.isClick e)) (MagicalEffectsSystem.effects s') =
    List.filter (fun e => negb (Invariants.isClick e)) (MagicalEffectsSystem.effects s).
Proof.
  exact (click_particles_replaced Spec.math0 100 100
           (fst (MagicalEffectsSystem.createClickEffect Spec.math0 50 50
                   (MagicalEffectsSystem.new false) Spec.rngHalf))
           Spec.rngCycle eq_refl).
Defined.

Lemma hover_appends_six_witness :
  exists created,
    MagicalEffectsSystem.effects
      (fst (MagicalEffectsSystem.createHoverEffect Spec.math0
              (MagicalEffectsSystem.mkRect 10 10 100 40)
              (MagicalEffectsSystem.new false) Spec.rngHalf)) =
      [] ++ created /\
    List.length created = 6 /\
    Forall (fun e => MagicalEffectsSystem.type e = "sparkle" /\
                     MagicalEffectsSystem.life e = 1%float /\
                     MagicalEffectsSystem.maxLife e = 30%float) created.
Proof.
  exact (hover_appends_six Spec.math0 (MagicalEffectsSystem.mkRect 10 10 100 40)
           (MagicalEffectsSystem.new false) Spec.rngHalf eq_refl).
Defined.

Lemma ambientTick_within_50_witness :
  let s := MagicalEffectsSystem.new false in
  let s' := fst (MagicalEffectsSystem.ambientTick Spec.win0 s Spec.rngHalf) in
  List.length (MagicalEffectsSystem.effects s') <= 50 /\
  (MagicalEffectsSystem.effects s' = MagicalEffectsSystem.effects s \/
   exists e, MagicalEffectsSystem.effects s' =
               MagicalEffectsSystem.effects s ++ [e] /\
             MagicalEffectsSystem.type e = "ambient" /\
             MagicalEffectsSystem.life e = 1%float).
Proof.
  apply (ambientTick_within_50 Spec.win0 (MagicalEffectsSystem.new false)
           Spec.rngHalf).
  simpl. lia.
Defined.

(** ** ParticleSystem: the particle list over the life of the page *)

Lemma mapRand_map {A B C : Type} (f : A -> Runtime.Rand B) (g : B -> C)
    (h : A -> C) (l : list A) (r : Runtime.Rng) :
  (forall a r', g (fst (f a r')) = h a) ->
  List.map g (fst (Runtime.mapRand f l r)) = List.map h l.
Proof.
  intros H. revert r. induction l as [|a l IH]; intros r; simpl.
  - reflexivity.
  - unfold Runtime.bind, Runtime.ret.
    pose proof (H a r) as Ha. destruct (f a r) as [b r1].
    specialize (IH r1). destruct (Runtime.mapRand f l r1) as [bs r2].
    cbn [fst] in *. cbn [List.map]. now rewrite Ha, IH.
Qed.

Lemma Forall_of_map {A B : Type} (g : A -> B) (v : B) (l l' : list A) :
  List.map g l' = List.map g l ->
  Forall (fun a => g a = v) l -> Forall (fun a => g a = v) l'.
Proof.
  intros E H. apply (proj1 (Forall_map g (fun b => b = v) l')).
  rewrite E. apply (proj2 (Forall_map g (fun b => b = v) l)). exact H.
Qed.

Section ParticleReach.

Import ParticleSystem.
Import Invariants.

Variable m : Runtime.Math.

Lemma createParticle_life (s : t) (r : Runtime.Rng) :
  life (fst (createParticle s r)) = 1%float.
Proof.
  unfold createParticle, Runtime.bind, Runtime.ret, Runtime.pick,
    Runtime.random.
  cbn [fst snd Runtime.draws Runtime.cursor].
  destruct (Js.lt _ 0.7); [reflexivity|].
  destruct (Js.lt _ 0.85); reflexivity.
Qed.

Lemma createParticles_steady (s : t) (r : Runtime.Rng) :
  particles_steady (fst (createParticles s r)).
Proof.
  split.
  { destruct (createParticles_length s r) as (Hl & Hc & _).
    now rewrite Hl, Hc. }
  unfold createParticles, Runtime.bind, Runtime.ret.
  pose proof (repeatM_Forall (fun p => life p = 1%float) (particleCount s)
                (fun _ => createParticle s) 0 r
                (fun _ r' => createParticle_life s r')) as H.
  destruct (Runtime.repeatM (particleCount s) (fun _ => createParticle s) 0 r)
    as [l r1].
  exact H.
Qed.

Lemma step_steady (o : Op) (s : t) (r : Runtime.Rng) :
  particles_steady s -> particles_steady (fst (step m o s r)).
Proof.
  intros [Hl Hf]. destruct o as [win|matches|win now|theme|h]; cbn [step].
  - apply createParticles_steady.
  - unfold onMotionChange, Runtime.bind.
    destruct (constructorListener matches s r) as [s1 r1].
    apply createParticles_steady.
  - unfold animate, Runtime.ret. cbn [fst].
    destruct (negb (reducedMotion s)); cbn [snd]; [|now split].
    unfold particles_steady. cbn [particles particleCount with_particles].
    split.
    + now rewrite length_map.
    + apply (Forall_of_map life 1%float (particles s)); [|exact Hf].
      rewrite map_map. apply map_ext. intros p. apply updateParticle_life.
  - unfold updateTheme, Runtime.bind, Runtime.ret.
    match goal with
    | |- context [Runtime.mapRand ?f (particles s) r] =>
        pose proof (mapRand_map f life life (particles s) r
                      (fun a r' => eq_refl)) as Hm;
        destruct (Runtime.mapRand f (particles s) r) as [l r1]
    end.
    cbn [fst] in Hm. unfold particles_steady.
    cbn [fst particles particleCount with_particles].
    split.
    + apply (f_equal (@List.length _)) in Hm. rewrite !length_map in Hm.
      now rewrite Hm.
    + now apply (Forall_of_map life 1%float (particles s)).
  - now split.
Qed.

(** X14. Over the whole life of a particle system (resizes, motion
    changes, frames, theme changes and hero hovers, from the
    constructor on) the list holds exactly [particleCount] particles
    and each of them has life 1. *)
Theorem particle_list_steady (win : Js.Window) (options : option nat)
    (matches : bool) (ops : list Op) (r : Runtime.Rng) :
  particles_steady
    (fst (Runtime.bind (new win options matches) (run m ops) r)).
Proof.
  unfold Runtime.bind.
  pose proof (createParticles_steady
                {| particles := [];
                   particleCount :=
                     if matches then scaled (configuredCount options) 0.1
                     else configuredCount options;
                   colors := ["#8b5cf6"; "#c084fc"; "#d8b4fe"];
                   isHeroHovered := false; reducedMotion := matches;
                   optionsCount := options;
                   canvasWidth := Js.innerWidth win;
                   canvasHeight := Js.innerHeight win |} r) as H.
  fold (new win options matches) in H.
  destruct (new win options matches r) as [s r1]. cbn [fst] in H.
  revert s r1 H. induction ops as [|o ops IH]; intros s r1 H.
  - exact H.
  - cbn [run]. unfold Runtime.bind.
    pose proof (step_steady o s r1 H) as H1.
    destruct (step m o s r1) as [s1 r2]. now apply IH.
Qed.

(** X15. A change of the motion preference runs both media-query
    listeners: when motion is restored the second one sets the count
    to 50 whatever [options.count] was, and when motion is reduced the
    count is the configured one scaled by 0.1 and then by 0.3; either
    way the list is rebuilt with that many particles. *)
Theorem motion_change_counts (matches : bool) (s : t) (r : Runtime.Rng) :
  let s' := fst (onMotionChange matches s r) in
  particleCount s' =
    (if matches
     then scaled (scaled (configuredCount (optionsCount s)) 0.1) 0.3
     else 50) /\
  List.length (particles s') = particleCount s' /\
  optionsCount s' = optionsCount s.
Proof.
  cbv zeta. unfold onMotionChange, Runtime.bind.
  assert (H1 : particleCount (fst (constructorListener matches s r)) =
               (if matches then scaled (configuredCount (optionsCount s)) 0.1
                else configuredCount (optionsCount s)) /\
               optionsCount (fst (constructorListener matches s r)) =
               optionsCount s).
  { unfold constructorListener, createParticles, Runtime.bind, Runtime.ret.
    destruct (Runtime.repeatM _ _ 0 r) as [l r1]. split; reflexivity. }
  destruct (constructorListener matches s r) as [s1 r1].
  cbn [fst] in H1. destruct H1 as [Hc Ho].
  unfold bindEventsListener.
  destruct (createParticles_length
              (with_motion matches
                 (if matches then scaled (particleCount s1) 0.3 else 50) s1) r1)
    as (Hl & Hc' & _).
  rewrite Hl, Hc'. cbn [particleCount with_motion]. rewrite Hc.
  split; [destruct matches; reflexivity|]. split; [reflexivity|].
  unfold createParticles, Runtime.bind, Runtime.ret.
  destruct (Runtime.repeatM _ _ 0 r1) as [l r2]. exact Ho.
Qed.

End ParticleReach.

(** A system built with [{count: 200}] shows 200 particles; after
    motion is reduced and restored it shows 50. *)
Example motion_restored_forgets_count :
  let s := fst (ParticleSystem.new Spec.win0 (Some 200) false Spec.rngCycle) in
  let s1 := fst (ParticleSystem.onMotionChange true s Spec.rngCycle) in
  let s2 := fst (ParticleSystem.onMotionChange false s1 Spec.rngCycle) in
  List.map (fun x => List.length (ParticleSystem.particles x)) [s; s1; s2] =
    [200; 6; 50].
Proof. vm_compute. reflexivity. Qed.

(** ** ScreenSparklesSystem: the sparkle list over the life of the page *)

Section SparkleReach.

Import ScreenSparklesSystem.
Import Invariants.

Variable m : Runtime.Math.

Lemma createSparkles_bounded (now : float) (s : t) (r : Runtime.Rng) :
  sparkleCount s = (if reducedMotion s then 0 else 12) ->
  sparkles_bounded (fst (createSparkles now s r)).
Proof.
  intros Hc. unfold createSparkles, Runtime.bind, Runtime.ret.
  pose proof (repeatM_length (sparkleCount s) (fun _ => createSparkle now s) 0 r)
    as Hl.
  destruct (Runtime.repeatM (sparkleCount s) (fun _ => createSparkle now s) 0 r)
    as [l r1].
  cbn [fst] in *. unfold sparkles_bounded.
  cbn [sparkles sparkleCount reducedMotion with_sparkles].
  split; [exact Hc|]. rewrite Hc in Hl. split.
  - intros Hr. rewrite Hr in Hl. now destruct l.
  - rewrite Hl. destruct (reducedMotion s); lia.
Qed.

Lemma mapM_length {A B : Type} (f : A -> Runtime.Rand B) (l : list A)
    (r : Runtime.Rng) :
  List.length (fst (mapM f l r)) = List.length l.
Proof.
  revert r. induction l as [|a l IH]; intros r; simpl; [reflexivity|].
  unfold Runtime.bind, Runtime.ret.
  destruct (f a r) as [b r1]. specialize (IH r1).
  destruct (mapM f l r1) as [bs r2]. cbn [fst] in *. cbn. now rewrite IH.
Qed.

Lemma step_bounded (o : Op) (s : t) (r : Runtime.Rng) :
  sparkles_bounded s -> sparkles_bounded (fst (step m o s r)).
Proof.
  intros H. pose proof H as (Hc & He & Hl).
  destruct o as [now| |win now|now matches|now]; cbn [step].
  - unfold onClick.
    destruct (reducedMotion s) eqn:Hr; cbn [negb andb]; [exact H|].
    destruct (List.length (sparkles s) <? 20)%nat eqn:E; [|exact H].
    apply Nat.ltb_lt in E. unfold Runtime.bind, Runtime.ret.
    pose proof (repeatM_length 3 (fun _ => tempSparkle now s) 0 r) as H3.
    destruct (Runtime.repeatM 3 (fun _ => tempSparkle now s) 0 r) as [l r1].
    cbn [fst] in *. unfold sparkles_bounded.
    cbn [sparkles sparkleCount reducedMotion with_sparkles].
    rewrite Hr. split; [exact Hc|]. split; [discriminate|].
    rewrite length_app, H3. lia.
  - unfold Runtime.ret, onClickTimeout. cbn [fst]. unfold sparkles_bounded.
    cbn [sparkles sparkleCount reducedMotion with_sparkles].
    split; [exact Hc|]. split.
    + intros Hr. rewrite (He Hr). now destruct (sparkleCount s).
    + rewrite length_firstn. lia.
  - unfold onResize. now apply createSparkles_bounded.
  - unfold onMotionChange. now apply createSparkles_bounded.
  - unfold animate, Runtime.bind, Runtime.ret.
    destruct (reducedMotion s) eqn:Hr; cbn [negb fst snd]; [exact H|].
    pose proof (mapM_length (updateSparkle m now s) (sparkles s) r) as Hm.
    destruct (mapM (updateSparkle m now s) (sparkles s) r) as [l r1].
    cbn [fst snd] in *. unfold sparkles_bounded.
    cbn [sparkles sparkleCount reducedMotion with_sparkles].
    rewrite Hr. split; [exact Hc|]. split; [discriminate|].
    rewrite Hm. exact Hl.
Qed.

(** X16. Over the whole life of a screen-sparkles system (clicks, their
    timeouts, resizes, motion changes and frames, from the constructor
    on) the configured count is 0 under reduced motion and 12
    otherwise, the list is empty whenever motion is reduced, and it
    never holds more than 22 sparkles. *)
Theorem sparkle_list_bounded (win : Js.Window) (now : float)
    (matches : bool) (ops : list Op) (r : Runtime.Rng) :
  sparkles_bounded
    (fst (Runtime.bind (new win now matches) (run m ops) r)).
Proof.
  unfold Runtime.bind.
  assert (H : sparkles_bounded (fst (new win now matches r)))
    by (unfold new; now apply createSparkles_bounded).
  destruct (new win now matches r) as [s r1]. cbn [fst] in H.
  revert s r1 H. induction ops as [|o ops IH]; intros s r1 H.
  - exact H.
  - cbn [run]. unfold Runtime.bind.
    pose proof (step_bounded o s r1 H) as H1.
    destruct (step m o s r1) as [s1 r2]. now apply IH.
Qed.

(** X17. When the list holds exactly the configured sparkles, a click
    directly followed by its timeout gives the system back unchanged:
    the three temporary sparkles are the ones the timeout removes. *)
Theorem click_then_timeout_restores (now : float) (s : t) (r : Runtime.Rng) :
  List.length (sparkles s) = sparkleCount s ->
  onClickTimeout (fst (onClick now s r)) = s.
Proof.
  intros Hl. unfold onClick.
  assert (Hs : onClickTimeout s = s).
  { unfold onClickTimeout, with_sparkles.
    destruct s as [l c rm cw ch]. cbn in *. subst c.
    now rewrite firstn_all. }
  destruct (negb (reducedMotion s) && _); [|exact Hs].
  unfold Runtime.bind, Runtime.ret.
  destruct (Runtime.repeatM 3 (fun _ => tempSparkle now s) 0 r) as [l' r1].
  cbn [fst]. unfold onClickTimeout, with_sparkles.
  destruct s as [l c rm cw ch]. cbn in *. subst c.
  now rewrite firstn_app, firstn_all, Nat.sub_diag, app_nil_r.
Qed.

End SparkleReach.

Lemma click_then_timeout_witness :
  let s := fst (ScreenSparklesSystem.new Spec.win0 1000 false Spec.rngCycle) in
  ScreenSparklesSystem.onClickTimeout
    (fst (ScreenSparklesSystem.onClick 2000 s Spec.rngHalf)) = s.
Proof.
  apply (click_then_timeout_restores 2000
           (fst (ScreenSparklesSystem.new Spec.win0 1000 false Spec.rngCycle))
           Spec.rngHalf).
  vm_compute. reflexivity.
Defined.

(** ** CuteCursor: the pool of twelve sparkles *)

Lemma mapRand_length {A B : Type} (f : A -> Runtime.Rand B) (l : list A)
    (r : Runtime.Rng) :
  List.length (fst (Runtime.mapRand f l r)) = List.length l.
Proof.
  rewrite <- (length_map (fun _ => tt)).
  rewrite (mapRand_map f (fun _ => tt) (fun _ => tt) l r (fun _ _ => eq_refl)).
  apply length_map.
Qed.

Section CursorPool.

Import CuteCursor.
Import Invariants.

Variable m : Runtime.Math.

Lemma replaceAvailable_length (sp' : Sparkle) (pool : list Sparkle) :
  List.length (replaceAvailable sp' pool) = List.length pool.
Proof.
  induction pool as [|sp rest IH]; [reflexivity|].
  cbn [replaceAvailable]. destruct (negb (active sp)); cbn [List.length];
    [reflexivity | now rewrite IH].
Qed.

Lemma step_pool_length (o : Op) (pool : list Sparkle) (r : Runtime.Rng) :
  List.length (fst (step m o pool r)) = List.length pool.
Proof.
  destruct o as [i cx cy|]; cbn [step].
  - unfold spawnSparkle. destruct (getAvailableSparkle pool); [|reflexivity].
    unfold Runtime.bind, Runtime.ret, Runtime.random. cbn [fst].
    apply replaceAvailable_length.
  - apply mapRand_length.
Qed.

(** X18. The pool built by [createSparkles] keeps its twelve entries
    through any sequence of click spawns and frame updates: sparkles
    are only reused, never added or removed. *)
Theorem pool_keeps_twelve (ops : list Op) (r : Runtime.Rng) :
  List.length (fst (run m ops (createSparkles []) r)) = 12.
Proof.
  change 12 with (List.length (createSparkles [])).
  generalize (createSparkles []) as pool. revert r.
  induction ops as [|o ops IH]; intros r pool; [reflexivity|].
  cbn [run]. unfold Runtime.bind.
  pose proof (step_pool_length o pool r) as H.
  destruct (step m o pool r) as [pool1 r1]. cbn [fst] in H.
  now rewrite IH, H.
Qed.

Lemma find_none_all_active (pool : list Sparkle) :
  Forall (fun sp => active sp = true) pool ->
  getAvailableSparkle pool = None.
Proof.
  unfold getAvailableSparkle. induction 1 as [|sp rest Ha _ IH];
    [reflexivity|].
  cbn [List.find]. now rewrite Ha.
Qed.

Lemma replaceAvailable_count (sp' : Sparkle) (pool : list Sparkle) :
  active sp' = true ->
  getAvailableSparkle pool <> None ->
  List.length (List.filter active (replaceAvailable sp' pool)) =
    S (List.length (List.filter active pool)).
Proof.
  intros Hs. unfold getAvailableSparkle.
  induction pool as [|sp rest IH]; [intros H; now elim H|].
  cbn [List.find replaceAvailable List.filter].
  destruct (active sp) eqn:Ha; cbn [negb].
  - intros H. cbn [List.filter]. rewrite Ha. cbn [List.length].
    now rewrite IH.
  - intros _. cbn [List.filter]. now rewrite Hs.
Qed.

(** X19. A click spawn on a pool whose sparkles are all active does
    nothing, not even a [Math.random] call; on any other pool it
    activates exactly one more sparkle. *)
Theorem spawn_uses_a_free_sparkle (i : nat) (cx cy : float)
    (pool : list Sparkle) (r : Runtime.Rng) :
  (Forall (fun sp => active sp = true) pool ->
   spawnSparkle m i cx cy pool r = (pool, r)) /\
  (getAvailableSparkle pool <> None ->
   List.length (List.filter active (fst (spawnSparkle m i cx cy pool r))) =
     S (List.length (List.filter active pool))).
Proof.
  split.
  - intros H. unfold spawnSparkle. now rewrite (find_none_all_active pool H).
  - intros H. unfold spawnSparkle.
    destruct (getAvailableSparkle pool) eqn:E; [|now elim H].
    unfold Runtime.bind, Runtime.ret, Runtime.random. cbn [fst].
    apply replaceAvailable_count; [reflexivity|].
    rewrite E. discriminate.
Qed.

Lemma updateSparkle_lifeStep (sp : Sparkle) (r : Runtime.Rng) :
  (active (fst (updateSparkle sp r)), life (fst (updateSparkle sp r))) =
    lifeStep (active sp, life sp).
Proof.
  unfold updateSparkle, lifeStep.
  destruct (active sp) eqn:Ha;
    [|unfold Runtime.ret; cbn [fst]; now rewrite Ha].
  destruct (Js.le (life sp - 1) 0); reflexivity.
Qed.

Lemma activeTrace_lifeSteps (n : nat) (sp : Sparkle) (r : Runtime.Rng) :
  fst (activeTrace n sp r) = lifeSteps n (active sp, life sp).
Proof.
  revert sp r. induction n as [|n IH]; intros sp r; [reflexivity|].
  cbn [activeTrace lifeSteps]. unfold Runtime.bind, Runtime.ret.
  pose proof (updateSparkle_lifeStep sp r) as H.
  destruct (updateSparkle sp r) as [sp' r1]. cbn [fst] in H.
  specialize (IH sp' r1). destruct (activeTrace n sp' r1) as [l r2].
  cbn [fst] in *. now rewrite <- H, IH.
Qed.

(** X20. A sparkle activated by a click (life 60) stays active through
    59 frame updates and is switched off by the 60th, wherever it is
    and whatever [Math.random] returns; it then stays inactive. *)
Theorem spawned_sparkle_lives_60_frames (x0 y0 : float) (extra : nat)
    (r : Runtime.Rng) :
  fst (activeTrace (60 + extra) (mkSparkle x0 y0 true 60) r) =
    List.repeat true 59 ++ List.repeat false (S extra).
Proof.
  rewrite activeTrace_lifeSteps. cbn [active life].
  change (60 + extra) with (59 + (S extra)).
  assert (Hs : forall k n al, lifeSteps (k + n) al =
             lifeSteps k al ++ lifeSteps n (Nat.iter k lifeStep al)).
  { induction k as [|k IH]; intros n al; [reflexivity|].
    cbn [Nat.add lifeSteps]. now rewrite IH, Nat.iter_succ_r. }
  rewrite Hs.
  replace (lifeSteps 59 (true, 60%float)) with (List.repeat true 59)
    by (vm_compute; reflexivity).
  replace (Nat.iter 59 lifeStep (true, 60%float)) with (true, 1%float)
    by (vm_compute; reflexivity).
  apply f_equal. cbn [lifeSteps List.repeat].
  change (lifeStep (true, 1%float)) with (false, 0%float).
  cbn [fst]. apply f_equal.
  induction extra as [|k IH]; [reflexivity|].
  cbn [lifeSteps List.repeat]. change (lifeStep (false, 0%float)) with (false, 0%float).
  cbn [fst]. now rewrite IH.
Qed.

End CursorPool.

Lemma spawn_uses_a_free_sparkle_witness :
  CuteCursor.spawnSparkle Spec.math0 0 100 100
      [CuteCursor.mkSparkle 5 5 true 60] Spec.rngHalf =
    ([CuteCursor.mkSparkle 5 5 true 60], Spec.rngHalf) /\
  List.length
    (List.filter CuteCursor.active
       (fst (CuteCursor.spawnSparkle Spec.math0 0 100 100
               (CuteCursor.createSparkles []) Spec.rngHalf))) = 1.
Proof.
  split.
  - apply (proj1 (spawn_uses_a_free_sparkle Spec.math0 0 100 100
                    [CuteCursor.mkSparkle 5 5 true 60] Spec.rngHalf)).
    repeat constructor.
  - apply (proj2 (spawn_uses_a_free_sparkle Spec.math0 0 100 100
                    (CuteCursor.createSparkles []) Spec.rngHalf)).
    vm_compute. discriminate.
Defined.
